(** * CQue::List<T, Allocator> (include/Containers.hpp)

    A shallow embedding of the array-based list of the Cujusque library
    and of the properties its description states.

    - [std::size_t] is a 64-bit unsigned integer: a [Z] in [0, 2^64),
      every arithmetic operation of the source written with its
      wrap-around ([wrap]).
    - The storage behind [_Elems] is a list of slots; a slot is either
      raw storage ([None]) or holds a constructed object ([Some v]).
      [nullptr] is the absent block.
    - An access that falls outside the block has no defined behaviour in
      C++.  The model keeps running with the fields the code computes:
      a read outside the block yields raw storage, a write outside the
      block is lost and recorded in the ghost field [_Undefined].
    - [throw] is the second constructor of [completion]. *)

From Stdlib Require Import ZArith Lia List Bool String.
From stdpp Require Import base numbers option list list_numbers.

Local Open Scope Z_scope.

(** ** std::size_t *)

Definition SIZE_MAX : Z := 2 ^ 64 - 1.

(** The value an expression of type [std::size_t] takes. *)
Definition wrap (z : Z) : Z := z mod 2 ^ 64.

(** ** std::partial_ordering, the result type of a [Comparison<T>]

    [Comparison<T>] is declared in base_include.hpp, which is not among
    the sources at hand; [_HeapSort] compares what it returns with
    [std::partial_ordering::less], so a comparison is a function from two
    elements to a [partial_ordering], and the lemmas take it as a
    parameter. *)

Inductive partial_ordering : Set :=
| less
| equivalent
| greater
| unordered.

Definition is_less (o : partial_ordering) : bool :=
  match o with less => true | _ => false end.

(** ** Exceptions and completions *)

Inductive exception : Set :=
| out_of_range (what : string).

(** How a call ends: it returns a value, or it throws; both leave a state. *)
Inductive completion (St A : Type) : Type :=
| Returns (a : A) (s : St)
| Throws (e : exception) (s : St).

Arguments Returns {St A} a s.
Arguments Throws {St A} e s.

(** [try { body } catch (...) { handler }] *)
Definition try_catch {St A} (body : completion St A) (handler : St -> completion St A)
  : completion St A :=
  match body with
  | Returns a s => Returns a s
  | Throws _ s => handler s
  end.

(** ** Pointers to elements, as far as the code converts them to values *)

Inductive pointer : Set :=
| nullptr
| elem_addr (index : Z).

(** ** Counted loops *)

(** [for (std::size_t i = lo; i < hi; i++) s = body i s]: the counter never
    wraps, since it stays below [hi]. *)
Definition for_loop {St : Type} (lo hi : Z) (body : Z -> St -> St) (s : St) : St :=
  fold_left (fun s i => body i s) (seqZ lo (hi - lo)) s.

(** [for (i = lo; i < hi; i++) if (p i) return i;] *)
Definition first_index (lo hi : Z) (p : Z -> bool) : option Z :=
  List.find p (seqZ lo (hi - lo)).

(** ** Raw storage *)

(** A slot of a block: raw storage, or the object constructed in it. *)
Abbreviation slot T := (option T).

(** A block that is being filled, with the record of a lost write. *)
Abbreviation filling T := (list (slot T) * bool)%type.

Section Storage.
Context {T : Type}.
#[local] Abbreviation slot := (slot T).
#[local] Abbreviation filling := (filling T).

(** [_Alloc.allocate(n)]: a block of [n] slots of raw storage, never the
    null pointer (for [n = 0], where the standard leaves the pointer
    unspecified, the block is empty).  Exhaustion of the memory is not
    modelled. *)
Definition allocate (n : Z) : list slot := replicate (Z.to_nat n) None.

Definition inside (b : list slot) (i : Z) : bool :=
  (0 <=? i) && (i <? Z.of_nat (length b)).

Definition load (b : list slot) (i : Z) : slot :=
  if inside b i then b !! Z.to_nat i ≫= id else None.

Definition store (b : list slot) (i : Z) (v : slot) : list slot :=
  if inside b i then <[Z.to_nat i := v]> b else b.

Definition fill (m : filling) (i : Z) (v : slot) : filling :=
  if inside m.1 i then (store m.1 i v, m.2) else (m.1, true).

(** The objects the slots [0 .. n - 1] of a block hold. *)
Definition objects (n : Z) (b : list slot) : list T :=
  omap (load b) (seqZ 0 n).

(** Each of the slots [0 .. n - 1] holds an object. *)
Definition constructed (n : Z) (b : list slot) : bool :=
  forallb (fun i => bool_decide (is_Some (load b i))) (seqZ 0 n).
End Storage.

(** ** The class [List<T, Allocator>] *)

(** The data members, in the order the class declares them, and the ghost
    record of an access outside the storage. *)
Record List (T : Type) : Type := mkList {
  _Capacity : Z;
  _Count : Z;
  _Elems : option (list (slot T));
  _Undefined : bool
}.

Arguments mkList {T} _ _ _ _.
Arguments _Capacity {T} _.
Arguments _Count {T} _.
Arguments _Elems {T} _.
Arguments _Undefined {T} _.

Section Members.
Context {T : Type}.

(** What the class template asks of [T]. *)
Variable T_default : T.                      (* T() *)
Variable T_eq : T -> T -> bool.              (* operator== *)
Variable T_lt : T -> T -> bool.              (* operator<  *)

#[local] Abbreviation List := (List T).

Definition set_Capacity (c : Z) (l : List) : List :=
  mkList c (_Count l) (_Elems l) (_Undefined l).
Definition set_Count (c : Z) (l : List) : List :=
  mkList (_Capacity l) c (_Elems l) (_Undefined l).
Definition set_Elems (e : option (list (slot T))) (l : List) : List :=
  mkList (_Capacity l) (_Count l) e (_Undefined l).
Definition undefined (l : List) : List :=
  mkList (_Capacity l) (_Count l) (_Elems l) true.

(** [_Elems[i]] read. *)
Definition get (l : List) (i : Z) : slot T :=
  match _Elems l with
  | Some b => load b i
  | None => None
  end.

(** [_Elems[i]] written: an object constructed, assigned or destroyed. *)
Definition put (l : List) (i : Z) (v : slot T) : List :=
  match _Elems l with
  | Some b => if inside b i then set_Elems (Some (store b i v)) l else undefined l
  | None => undefined l
  end.

(** [&_Elems[i]] *)
Definition address (l : List) (i : Z) : pointer :=
  match _Elems l with
  | Some _ => elem_addr i
  | None => if i =? 0 then nullptr else elem_addr i
  end.

(** [_Elems = new_Elems], the new block having been filled. *)
Definition install (m : filling T) (l : List) : List :=
  mkList (_Capacity l) (_Count l) (Some m.1) (_Undefined l || m.2).

(** [a == b] and [a < b] on the objects two slots hold. *)
Definition slot_eq (a : slot T) (b : T) : bool :=
  match a with Some x => T_eq x b | None => false end.
Definition slot_lt (a b : slot T) : bool :=
  match a, b with Some x, Some y => T_lt x y | _, _ => false end.
Definition slot_compare (compare : T -> T -> partial_ordering) (a b : slot T)
  : partial_ordering :=
  match a, b with Some x, Some y => compare x y | _, _ => unordered end.

(** *** Algorithms of the standard library, on the storage of the list *)

(** [std::destroy_n(&_Elems[first], n)] *)
Definition destroy_n (first n : Z) (l : List) : List :=
  for_loop 0 n (fun k l => put l (first + k) None) l.

(** [std::move(&_Elems[first], &_Elems[last], &_Elems[d_first])] *)
Definition std_move (first last d_first : Z) (l : List) : List :=
  for_loop 0 (last - first) (fun k l => put l (d_first + k) (get l (first + k))) l.

(** [std::move_backward(&_Elems[first], &_Elems[last], &_Elems[d_last])] *)
Definition std_move_backward (first last d_last : Z) (l : List) : List :=
  for_loop 0 (last - first)
    (fun k l => put l (d_last - 1 - k) (get l (last - 1 - k))) l.

(** [std::copy(what.begin(), what.end(), &_Elems[d_first])], and
    [std::move] from the same range. *)
Definition std_copy (what : list T) (d_first : Z) (l : List) : List :=
  for_loop 0 (Z.of_nat (length what))
    (fun k l => put l (d_first + k) (what !! Z.to_nat k)) l.

(** [std::move(&_Elems[first], &_Elems[last], &new_Elems[d_first])] *)
Definition move_into (l : List) (first last d_first : Z) (m : filling T) : filling T :=
  for_loop 0 (last - first) (fun k m => fill m (d_first + k) (get l (first + k))) m.

(** [_Elems[i] = std::exchange(_Elems[j], _Elems[i])] *)
Definition exchange (i j : Z) (l : List) : List :=
  let old := get l j in
  let l := put l j (get l i) in
  put l i old.

(** *** Constructors *)

(** [List()] *)
Definition List_new : List := mkList 0 0 None false.

(** [List(const List& other)] *)
Definition List_copy (other : List) : List :=
  let this :=
    mkList (_Count other) (_Count other)
      (match _Elems other with
       | Some _ => Some (allocate (_Count other))
       | None => None
       end) false in
  for_loop 0 (_Count other) (fun i this => put this i (get other i)) this.

(** *** Protected member functions *)

Definition _Reallocate (new_capacity : Z) (l : List) : List :=
  if _Capacity l =? 0 then
    set_Capacity new_capacity (set_Elems (Some (allocate new_capacity)) l)
  else if negb (_Capacity l =? new_capacity) then
    let new_Elems :=
      for_loop 0 (_Count l) (fun i m => fill m i (get l i))
        (allocate new_capacity, false) in
    let l := destroy_n 0 (_Count l) l in
    let l := install new_Elems l in
    set_Capacity new_capacity l
  else set_Capacity new_capacity l.

(** *** Member functions *)

Definition Capacity (l : List) : Z := _Capacity l.
Definition Count (l : List) : Z := _Count l.

(** [Add(const T&)] and [Add(T&&)]: the two bodies differ only in moving
    the argument. *)
Definition Add (what : T) (l : List) : List :=
  let l :=
    if _Count l =? _Capacity l then
      if _Capacity l =? 0 then
        set_Elems (Some (allocate 1)) (set_Capacity 1 l)
      else _Reallocate (wrap (_Capacity l * 2)) l
    else l in
  let l := put l (_Count l) (Some what) in
  set_Count (wrap (_Count l + 1)) l.

Definition Clear (l : List) : List :=
  let l := destroy_n 0 (_Count l) l in
  set_Count 0 l.

Definition IndexOf (what : T) (l : List) : Z :=
  match first_index 0 (_Count l) (fun i => slot_eq (get l i) what) with
  | Some i => i
  | None => wrap (-1)
  end.

(** [Insert(std::size_t, const T&)] and [Insert(std::size_t, T&&)] *)
Definition Insert (index : Z) (what : T) (l : List) : completion List unit :=
  if index =? _Count l then Returns tt (Add what l)
  else if index <? _Count l then
    let l :=
      if _Count l =? _Capacity l then
        let new_Elems := (allocate (wrap (_Capacity l * 2)), false) in
        let new_Elems := for_loop 0 index (fun i m => fill m i (get l i)) new_Elems in
        let new_Elems :=
          for_loop index (_Count l)
            (fun i m => fill m (wrap (i + 1)) (get l i)) new_Elems in
        let l := destroy_n 0 (_Count l) l in
        let l := set_Capacity (wrap (_Capacity l * 2)) l in
        install new_Elems l
      else std_move_backward index (_Count l) (wrap (_Count l + 1)) l in
    let l := put l index (Some what) in
    Returns tt (set_Count (wrap (_Count l + 1)) l)
  else Throws (out_of_range "index") l.

Definition RemoveAt (index : Z) (l : List) : completion List unit :=
  if index <? _Count l then
    let l := put l index None in
    let l := put l index (Some T_default) in
    let l := std_move (wrap (index + 1)) (_Count l) index l in
    Returns tt (set_Count (wrap (_Count l - 1)) l)
  else Throws (out_of_range "where") l.

Definition Remove (what : T) (l : List) : completion List bool :=
  try_catch
    (let pos := IndexOf what l in
     if negb (pos =? wrap (-1)) then
       match RemoveAt pos l with
       | Returns _ l => Returns true l
       | Throws e l => Throws e l
       end
     else Returns false l)
    (fun l => Returns false l).

Definition RemoveRange (index count : Z) (l : List) : completion List unit :=
  if wrap (index + count) <=? _Count l then
    let l := destroy_n index count l in
    let l := for_loop index (wrap (index + count)) (fun i l => put l i (Some T_default)) l in
    let l := std_move (wrap (index + count)) (_Count l) index l in
    Returns tt (set_Count (wrap (_Count l - count)) l)
  else Throws (out_of_range "where") l.

Definition Resize (n : Z) (l : List) : List :=
  let l :=
    if n <? _Count l then
      let l := set_Count (wrap (_Count l - n)) l in
      destroy_n n (_Count l) l
    else l in
  _Reallocate n l.

Definition Reverse (l : List) : List :=
  for_loop 0 (_Count l / 2) (fun i l => exchange i (wrap (_Count l - i - 1)) l) l.

(** [operator[]] *)
Definition subscript (index : Z) (l : List) : slot T := get l index.

(** *** Heap sort *)

Section Sorting.
Variable compare : T -> T -> partial_ordering.

(** The inner [while (root * 2 + 1 < end)]; [None] when [fuel] runs out. *)
Fixpoint sift_down (fuel : nat) (end_ root : Z) (l : List) : option List :=
  if wrap (root * 2 + 1) <? end_ then
    match fuel with
    | O => None
    | S fuel =>
        let child := wrap (root * 2 + 1) in
        let child :=
          if (wrap (child + 1) <? end_)
             && is_less (slot_compare compare (get l child) (get l (wrap (child + 1))))
          then wrap (child + 1) else child in
        if slot_lt (get l root) (get l child)
        then sift_down fuel end_ child (exchange root child l)
        else Some l
    end
  else Some l.

(** The outer [while (end > 1)]. *)
Fixpoint heap_loop (fuel : nat) (start end_ : Z) (l : List) : option List :=
  if end_ >? 1 then
    match fuel with
    | O => None
    | S fuel =>
        let '(start, end_, l) :=
          if start >? 0 then (wrap (start - 1), end_, l)
          else (start, wrap (end_ - 1), exchange (wrap (end_ - 1)) 0 l) in
        l ← sift_down (Z.to_nat end_) end_ start l;
        heap_loop fuel start end_ l
    end
  else Some l.

Definition _HeapSort (l : List) : option List :=
  let start := _Count l / 2 in
  let end_ := _Count l in
  heap_loop (Z.to_nat (start + end_)) start end_ l.

Definition Sort (l : List) : option List := _HeapSort l.
End Sorting.

(** *** Member function templates *)

(** A range ([Iterable<T>]) is the list of the elements it spans, apart
    from the list it is inserted into.  Its number of elements,
    [what.end() - what.begin()]: *)
Definition distance (what : list T) : Z := wrap (Z.of_nat (length what)).

(** [AddRange(const _It&)] and [AddRange(_It&&)] *)
Definition AddRange (what : list T) (l : List) : List :=
  let add_count := distance what in
  let l :=
    if add_count >? wrap (_Capacity l - _Count l)
    then _Reallocate (wrap (_Count l * 2 + add_count)) l
    else l in
  let l :=
    for_loop 0 add_count
      (fun i l => put l (wrap (_Count l + i)) (what !! Z.to_nat i)) l in
  set_Count (wrap (_Count l + add_count)) l.

(** [InsertRange(std::size_t, const _It&)].  Its reallocating branch
    hands [std::construct_at] the address of the old element, so each
    element after [index] is built by the conversion of a pointer to
    [T]; [T_of_ptr] is that conversion. *)
Definition InsertRange_const (T_of_ptr : pointer -> T)
    (index : Z) (what : list T) (l : List) : completion List unit :=
  if index =? _Count l then Returns tt (AddRange what l)
  else if index <? _Count l then
    let add_count := distance what in
    let l :=
      if add_count >? wrap (_Capacity l - _Count l) then
        let l := set_Capacity (wrap (_Count l * 2 + add_count)) l in
        let new_Elems := (allocate (_Capacity l), false) in
        let new_Elems := for_loop 0 index (fun i m => fill m i (get l i)) new_Elems in
        let new_Elems :=
          for_loop index (_Count l)
            (fun i m => fill m (wrap (i + add_count)) (Some (T_of_ptr (address l i))))
            new_Elems in
        let l := destroy_n 0 (_Count l) l in
        install new_Elems l
      else
        let l :=
          for_loop (_Count l) (wrap (_Count l + add_count))
            (fun i l => put l i (Some T_default)) l in
        std_move_backward index (_Count l) (wrap (_Count l + add_count)) l in
    let l := std_copy what index l in
    Returns tt (set_Count (wrap (_Count l + add_count)) l)
  else Throws (out_of_range "index") l.

(** [InsertRange(std::size_t, _It&&)] *)
Definition InsertRange_move (index : Z) (what : list T) (l : List)
  : completion List unit :=
  if index =? _Count l then Returns tt (AddRange what l)
  else if index <? _Count l then
    let add_count := distance what in
    let l :=
      if add_count >? wrap (_Capacity l - _Count l) then
        let l := set_Capacity (wrap (_Count l * 2 + add_count)) l in
        let new_Elems := (allocate (_Capacity l), false) in
        let new_Elems := move_into l 0 index 0 new_Elems in
        let new_Elems :=
          move_into l index (_Count l) (wrap (index + add_count)) new_Elems in
        let l := destroy_n 0 (_Count l) l in
        install new_Elems l
      else std_move_backward index (_Count l) (wrap (_Count l + add_count)) l in
    let l := std_copy what index l in
    Returns tt (set_Count (wrap (_Count l + add_count)) l)
  else Throws (out_of_range "index") l.

(** *** The state a list is meant to be in *)

(** [0 <= count <= capacity], the storage has [capacity] slots of which
    the first [count] hold objects, and no access went astray. *)
Definition valid (l : List) : bool :=
  (0 <=? _Count l) && (_Count l <=? _Capacity l) && (_Capacity l <=? SIZE_MAX)
  && negb (_Undefined l)
  && match _Elems l with
     | Some b =>
         (Z.of_nat (length b) =? _Capacity l) && constructed (_Count l) b
     | None => _Capacity l =? 0
     end.

(** The sequence of elements, at the indices [0 .. Count() - 1]. *)
Definition elements (l : List) : list T :=
  match _Elems l with
  | Some b => objects (_Count l) b
  | None => []
  end.
End Members.

(** ** The other members of [List<T, Allocator>] *)

(** What [Find] and [FindLast] return, a [const T&]: it refers to an
    element of the list, or to the temporary [T()] of the [return]
    statement, which is gone when the caller receives it. *)
Inductive reference : Set :=
| ref_element (index : Z)
| ref_temporary.

Section OtherMembers.
Context {T : Type}.
Variable T_default : T.                      (* T() *)
Variable T_eq : T -> T -> bool.              (* operator== *)

#[local] Abbreviation List := (List T).

(** [match(x)] on the object of a slot.  [Predicate<const T&>] is
    declared in base_include.hpp, which is not among the sources at hand;
    the members call [match] on an element and use what it returns as a
    condition, so a predicate is a function from an element to [bool],
    and the members take it as a parameter. *)
Definition slot_test (match_ : T -> bool) (a : slot T) : bool :=
  match a with Some x => match_ x | None => false end.

(** [a != b] on the objects of two slots. *)
Definition slot_ne (a b : slot T) : bool :=
  match a, b with Some x, Some y => negb (T_eq x y) | _, _ => false end.

(** *** Constructors and assignment *)

(** [List(std::size_t initial_size)] *)
Definition List_sized (initial_size : Z) : List :=
  let this :=
    mkList initial_size initial_size (Some (allocate initial_size)) false in
  for_loop 0 initial_size (fun i this => put this i (Some T_default)) this.

(** [List(const _It& lst)] and [List(_It&& lst)] *)
Definition List_of_range (lst : list T) : List :=
  let this :=
    mkList (distance lst) (distance lst) (Some (allocate (distance lst))) false in
  for_loop 0 (distance lst) (fun i this => put this i (lst !! Z.to_nat i)) this.

(** [operator=(const List& other)], for another list than [*this] *)
Definition assign_copy (other : List) (this : List) : List :=
  let this :=
    if _Capacity this <? _Count other then
      let this := destroy_n 0 (_Count this) this in
      set_Elems (Some (allocate (_Count other))) (set_Capacity (_Count other) this)
    else destroy_n 0 (_Count this) this in
  let this :=
    for_loop 0 (_Count other) (fun i this => put this i (get other i)) this in
  set_Count (_Count other) this.

(** *** Queries *)

Definition Contains (what : T) (l : List) : bool :=
  match first_index 0 (_Count l) (fun i => slot_eq T_eq (get l i) what) with
  | Some _ => true
  | None => false
  end.

Definition Exists (match_ : T -> bool) (l : List) : bool :=
  match first_index 0 (_Count l) (fun i => slot_test match_ (get l i)) with
  | Some _ => true
  | None => false
  end.

Definition Find (match_ : T -> bool) (l : List) : reference :=
  match first_index 0 (_Count l) (fun i => slot_test match_ (get l i)) with
  | Some i => ref_element i
  | None => ref_temporary
  end.

Definition FindAll (match_ : T -> bool) (l : List) : List :=
  for_loop 0 (_Count l)
    (fun i res =>
       match get l i with
       | Some x => if match_ x then Add x res else res
       | None => res
       end)
    List_new.

Definition FindIndex (match_ : T -> bool) (l : List) : Z :=
  match first_index 0 (_Count l) (fun i => slot_test match_ (get l i)) with
  | Some i => i
  | None => wrap (-1)
  end.

Definition FindLast (match_ : T -> bool) (l : List) : reference :=
  match first_index 0 (_Count l)
          (fun i => slot_test match_ (get l (wrap (_Count l - i - 1)))) with
  | Some i => ref_element (wrap (_Count l - i - 1))
  | None => ref_temporary
  end.

Definition FindLastIndex (match_ : T -> bool) (l : List) : Z :=
  match first_index 0 (_Count l)
          (fun i => slot_test match_ (get l (wrap (_Count l - i - 1)))) with
  | Some i => wrap (_Count l - i - 1)
  | None => wrap (-1)
  end.

Definition LastIndexOf (what : T) (l : List) : Z :=
  match first_index 0 (_Count l)
          (fun i => slot_eq T_eq (get l (wrap (_Count l - i - 1))) what) with
  | Some i => wrap (_Count l - i - 1)
  | None => wrap (-1)
  end.

(** [operator==] *)
Definition equal (other : List) (this : List) : bool :=
  if negb (_Count this =? _Count other) then false
  else
    match first_index 0 (_Count this)
            (fun i => slot_ne (get this i) (get other i)) with
    | Some _ => false
    | None => true
    end.

(** [CopyTo(where)]: the destination is a block of its own; the second
    component records a write past its end. *)
Definition CopyTo (where_ : list (slot T)) (l : List) : filling T :=
  for_loop 0 (_Count l) (fun i m => fill m i (get l i)) (where_, false).
End OtherMembers.

(** [ConvertAll<TOutput>(converter)].  [Converter<T, TOutput>] is
    declared in base_include.hpp as well; the member calls [converter] on
    an element and assigns what it returns to an element of the
    [List<TOutput>], so a converter is a function from [T] to [TOutput]. *)
Definition ConvertAll {T TOutput : Type} (TOutput_default : TOutput)
    (converter : T -> TOutput) (l : List T) : List TOutput :=
  let out := List_sized TOutput_default (_Count l) in
  for_loop 0 (_Count l) (fun i out => put out i (converter <$> get l i)) out.

(** ** Lists built through the public interface *)

(** [List<T> l; l.Add(v0); ... l.Add(vN-1);] *)
Definition Adds {T : Type} (vs : list T) : List T :=
  fold_left (fun l v => Add v l) vs List_new.

(** The calls of a client, and the state each leaves; a call that throws
    leaves the state it threw in. *)
Inductive operation (T : Type) : Type :=
| op_Add (what : T)
| op_Insert (index : Z) (what : T)
| op_Remove (what : T)
| op_RemoveAt (index : Z)
| op_RemoveRange (index count : Z)
| op_Resize (n : Z)
| op_Clear.

Arguments op_Add {T} what.
Arguments op_Insert {T} index what.
Arguments op_Remove {T} what.
Arguments op_RemoveAt {T} index.
Arguments op_RemoveRange {T} index count.
Arguments op_Resize {T} n.
Arguments op_Clear {T}.

Definition state_after {St A : Type} (c : completion St A) : St :=
  match c with
  | Returns _ s => s
  | Throws _ s => s
  end.

Definition perform {T : Type} (T_default : T) (T_eq : T -> T -> bool)
    (op : operation T) (l : List T) : List T :=
  match op with
  | op_Add what => Add what l
  | op_Insert index what => state_after (Insert index what l)
  | op_Remove what => state_after (Remove T_default T_eq what l)
  | op_RemoveAt index => state_after (RemoveAt T_default index l)
  | op_RemoveRange index count => state_after (RemoveRange T_default index count l)
  | op_Resize n => Resize n l
  | op_Clear => Clear l
  end.

Definition run {T : Type} (T_default : T) (T_eq : T -> T -> bool)
    (ops : list (operation T)) (l : List T) : List T :=
  fold_left (fun l op => perform T_default T_eq op l) ops l.

(** ** Vocabulary of the properties *)

Definition power_of_two (c : Z) : Prop := exists k, 0 <= k /\ c = 2 ^ k.

(** [c] is the least power of two that is at least [n]. *)
Definition least_power_of_two_from (n c : Z) : Prop :=
  power_of_two c /\ n <= c /\ forall c', power_of_two c' -> n <= c' -> c <= c'.

(** What holds of the list once the elements of [vs] have been appended to
    the empty list. *)
Definition appended {T : Type} (vs : list T) (l : List T) : Prop :=
  valid l = true /\ elements l = vs /\ _Count l = Z.of_nat (length vs)
  /\ (vs = [] -> _Capacity l = 0)
  /\ (vs <> [] -> power_of_two (_Capacity l)
                  /\ Z.of_nat (length vs) <= _Capacity l < 2 * Z.of_nat (length vs)).

(** No element is less than the one before it, by [compare]. *)
Fixpoint nondecreasing {T : Type} (compare : T -> T -> partial_ordering)
    (xs : list T) : bool :=
  match xs with
  | x :: (y :: _) as rest => negb (is_less (compare y x)) && nondecreasing compare rest
  | _ => true
  end.



(** What the loops of the heap sort keep of the list they started on: the
    counters, and the elements up to their order. *)
Definition rearranged {T : Type} (l l' : List T) : Prop :=
  _Capacity l' = _Capacity l /\ _Count l' = _Count l /\ _Undefined l' = _Undefined l
  /\ exists b b', _Elems l = Some b /\ _Elems l' = Some b'
       /\ length b' = length b
       /\ constructed (_Count l) b' = true
       /\ objects (_Count l) b' ≡ₚ objects (_Count l) b.

(** [x] is not less than [y], by [operator<], for the objects of two slots. *)
Definition not_below {T : Type} (T_lt : T -> T -> bool) (x y : slot T) : Prop :=
  slot_lt T_lt x y = false.

(** The node [i] of the heap laid out in the slots [0 .. e - 1] is not
    less than its children. *)
Definition heap_at {T : Type} (T_lt : T -> T -> bool) (b : list (slot T)) (e i : Z) : Prop :=
  forall c, c = 2 * i + 1 \/ c = 2 * i + 2 -> c < e ->
    not_below T_lt (load b i) (load b c).

(** The slots [0 .. n - 1] are in nondecreasing order. *)
Definition sorted_block {T : Type} (T_lt : T -> T -> bool) (n : Z) (b : list (slot T)) : Prop :=
  forall j, 0 <= j -> j + 1 < n -> not_below T_lt (load b (j + 1)) (load b j).

(** ** Instances *)

(** Modelled from the spec: [DefaultCompare<T>] is declared in
    base_include.hpp, which is not part of the sources at hand; the
    description calls it the natural ordering.  This is that ordering at
    [T = int]. *)
Definition natural (a b : Z) : partial_ordering :=
  match a ?= b with
  | Lt => less
  | Eq => equivalent
  | Gt => greater
  end.

(** A [Comparison<int>] a client may pass instead: descending order. *)
Definition reversed (a b : Z) : partial_ordering := natural b a.

(** The conversion of a pointer to [bool], which lets
    [InsertRange(std::size_t, const _It&)] compile at [T = bool]. *)
Definition bool_of_pointer (p : pointer) : bool :=
  match p with
  | nullptr => false
  | elem_addr _ => true
  end.

(** * Facts about the model

    Loops are handled by their invariants ([for_loop_invariant]); blocks
    of storage are compared slot by slot ([load_ext], [objects_ext]). *)

(** ** Counted loops *)

Lemma for_loop_empty {St} lo hi (body : Z -> St -> St) s :
  hi <= lo -> for_loop lo hi body s = s.
Proof. intros H. unfold for_loop. rewrite seqZ_nil by lia. reflexivity. Qed.

Lemma for_loop_last {St} lo hi (body : Z -> St -> St) s :
  lo <= hi -> for_loop lo (hi + 1) body s = body hi (for_loop lo hi body s).
Proof.
  intros H. unfold for_loop.
  replace (hi + 1 - lo) with ((hi - lo) + 1) by lia.
  rewrite seqZ_app by lia. rewrite fold_left_app.
  replace (lo + (hi - lo)) with hi by lia. reflexivity.
Qed.

(** The invariant rule of a counted loop. *)
Lemma for_loop_invariant {St} (P : Z -> St -> Prop) lo hi (body : Z -> St -> St) s :
  lo <= hi ->
  P lo s ->
  (forall i s, lo <= i < hi -> P i s -> P (i + 1) (body i s)) ->
  P hi (for_loop lo hi body s).
Proof.
  intros Hle H0 Hstep.
  assert (Hn : forall n : nat, lo + Z.of_nat n <= hi ->
                 P (lo + Z.of_nat n) (for_loop lo (lo + Z.of_nat n) body s)).
  { induction n as [|n IH]; intros Hb.
    - rewrite Z.add_0_r, for_loop_empty by lia. exact H0.
    - replace (lo + Z.of_nat (S n)) with (lo + Z.of_nat n + 1) by lia.
      rewrite for_loop_last by lia. apply Hstep; [lia | apply IH; lia]. }
  specialize (Hn (Z.to_nat (hi - lo))).
  replace (lo + Z.of_nat (Z.to_nat (hi - lo))) with hi in Hn by lia.
  apply Hn. lia.
Qed.

Lemma first_index_found lo hi (p : Z -> bool) i :
  lo <= i < hi -> p i = true -> (forall j, lo <= j < i -> p j = false) ->
  first_index lo hi p = Some i.
Proof.
  intros Hi Hp Hbefore. unfold first_index.
  replace (hi - lo) with ((i - lo) + (hi - i)) by lia.
  rewrite seqZ_app by lia.
  replace (lo + (i - lo)) with i by lia.
  rewrite (seqZ_cons i) by lia.
  assert (Hpre : forall xs rest, Forall (fun j => p j = false) xs ->
            List.find p (xs ++ i :: rest) = Some i).
  { induction xs as [|x xs IH]; intros rest HF; simpl.
    - rewrite Hp. reflexivity.
    - inversion HF; subst. rewrite H1. apply IH. assumption. }
  apply Hpre. apply Forall_seqZ. intros j Hj. apply Hbefore. lia.
Qed.

Lemma first_index_absent lo hi (p : Z -> bool) :
  (forall j, lo <= j < hi -> p j = false) -> first_index lo hi p = None.
Proof.
  intros H. unfold first_index.
  assert (HF : Forall (fun j => p j = false) (seqZ lo (hi - lo))).
  { apply Forall_seqZ. intros j Hj. apply H. lia. }
  induction HF as [|x xs Hx _ IH]; simpl; [reflexivity|]. rewrite Hx. exact IH.
Qed.

(** ** std::size_t *)

Lemma wrap_small z : 0 <= z <= SIZE_MAX -> wrap z = z.
Proof. unfold SIZE_MAX, wrap. intros H. apply Z.mod_small. lia. Qed.

(** ** Raw storage *)

Section StorageFacts.
Context {T : Type}.
Implicit Types (b : list (slot T)) (i j n : Z) (v : slot T).

Lemma inside_true b i : inside b i = true <-> 0 <= i < Z.of_nat (length b).
Proof. unfold inside. rewrite andb_true_iff, Z.leb_le, Z.ltb_lt. tauto. Qed.

Lemma inside_false b i : inside b i = false <-> ~ (0 <= i < Z.of_nat (length b)).
Proof. rewrite <- inside_true. destruct (inside b i); split; congruence. Qed.

Lemma length_allocate n : Z.of_nat (length (allocate (T:=T) n)) = Z.max 0 n.
Proof. unfold allocate. rewrite length_replicate. destruct (Z.max_spec 0 n); lia. Qed.

Lemma load_allocate n i : load (allocate (T:=T) n) i = None.
Proof.
  unfold load. destruct (inside _ i) eqn:E; [|reflexivity].
  apply inside_true in E. rewrite length_allocate in E.
  assert (i < n) by (destruct (Z.max_spec 0 n); lia).
  unfold allocate. rewrite lookup_replicate_2 by lia. reflexivity.
Qed.

Lemma length_store b i v : length (store b i v) = length b.
Proof. unfold store. destruct (inside b i); [apply length_insert | reflexivity]. Qed.

Lemma inside_store b i v j : inside (store b i v) j = inside b j.
Proof. unfold inside. rewrite length_store. reflexivity. Qed.

Lemma load_store_same b i v : inside b i = true -> load (store b i v) i = v.
Proof.
  intros H. unfold load. rewrite inside_store, H. unfold store. rewrite H.
  apply inside_true in H. rewrite list_lookup_insert_eq by lia. reflexivity.
Qed.

Lemma load_store_other b i v j : i <> j -> load (store b i v) j = load b j.
Proof.
  intros Hne. unfold load. rewrite inside_store.
  destruct (inside b j) eqn:Hj; [|reflexivity].
  unfold store. destruct (inside b i) eqn:Hi; [|reflexivity].
  apply inside_true in Hi, Hj. rewrite list_lookup_insert_ne by lia. reflexivity.
Qed.

Lemma load_outside b i : inside b i = false -> load b i = None.
Proof. intros H. unfold load. rewrite H. reflexivity. Qed.

(** Two blocks of one size that hold the same thing at every index. *)
Lemma load_ext b b' :
  length b = length b' ->
  (forall i, 0 <= i < Z.of_nat (length b) -> load b i = load b' i) ->
  b = b'.
Proof.
  intros Hlen H. apply list_eq. intros n.
  destruct (decide (n < length b)%nat) as [Hn|Hn].
  - specialize (H (Z.of_nat n) ltac:(lia)). unfold load in H.
    assert (E : inside b (Z.of_nat n) = true) by (apply inside_true; lia).
    assert (E' : inside b' (Z.of_nat n) = true) by (apply inside_true; lia).
    rewrite E, E', Nat2Z.id in H.
    destruct (lookup_lt_is_Some_2 b n Hn) as [s Hs].
    destruct (lookup_lt_is_Some_2 b' n ltac:(lia)) as [s' Hs'].
    rewrite Hs, Hs' in *. simpl in H. congruence.
  - rewrite !lookup_ge_None_2 by lia. reflexivity.
Qed.

Lemma objects_ext n b b' :
  (forall i, 0 <= i < n -> load b i = load b' i) -> objects n b = objects n b'.
Proof.
  intros H. unfold objects.
  assert (HF : Forall (fun i => load b i = load b' i) (seqZ 0 n)).
  { apply Forall_seqZ. intros i Hi. apply H. lia. }
  induction HF as [|x xs Hx _ IH]; simpl; [reflexivity|].
  rewrite Hx. destruct (load b' x); [f_equal|]; exact IH.
Qed.

Lemma objects_snoc n b x :
  0 <= n -> load b n = Some x -> objects (n + 1) b = objects n b ++ [x].
Proof.
  intros Hn Hx. unfold objects. rewrite seqZ_app by lia.
  rewrite omap_app. change (seqZ (0 + n) 1) with [n].
  simpl. rewrite Hx. reflexivity.
Qed.

Lemma constructed_true n b :
  constructed n b = true <-> (forall i, 0 <= i < n -> is_Some (load b i)).
Proof.
  unfold constructed. rewrite forallb_forall. split.
  - intros H i Hi. specialize (H i). rewrite <- list_elem_of_In, elem_of_seqZ in H.
    specialize (H ltac:(lia)). apply bool_decide_eq_true in H. exact H.
  - intros H i Hi. rewrite <- list_elem_of_In, elem_of_seqZ in Hi.
    apply bool_decide_eq_true. apply H. lia.
Qed.

(** When the slots hold objects, reading the sequence is reading the slots. *)
Lemma objects_constructed n b :
  constructed n b = true -> Some <$> objects n b = load b <$> seqZ 0 n.
Proof.
  rewrite constructed_true. intros H. unfold objects.
  assert (HF : Forall (fun i => is_Some (load b i)) (seqZ 0 n)).
  { apply Forall_seqZ. intros i Hi. apply H. lia. }
  induction HF as [|x xs [v Hx] _ IH]; simpl; [reflexivity|].
  rewrite Hx. simpl. f_equal. exact IH.
Qed.

Lemma length_objects n b :
  0 <= n -> constructed n b = true -> Z.of_nat (length (objects n b)) = n.
Proof.
  intros Hn H. apply objects_constructed in H.
  apply (f_equal length) in H. rewrite !length_fmap, length_seqZ in H. lia.
Qed.

Lemma lookup_objects n b i :
  constructed n b = true -> 0 <= i < n -> objects n b !! Z.to_nat i = load b i.
Proof.
  intros H Hi. apply objects_constructed in H.
  apply (f_equal (fun l => l !! Z.to_nat i)) in H.
  rewrite !list_lookup_fmap in H. rewrite lookup_seqZ_lt in H by lia. simpl in H.
  replace (0 + Z.of_nat (Z.to_nat i)) with i in H by lia.
  destruct (objects n b !! Z.to_nat i) as [x|]; simpl in H; congruence.
Qed.
End StorageFacts.

(** ** The state of a list *)

Section ListFacts.
Context {T : Type}.
Implicit Types (l a : List T) (b : list (slot T)).

Lemma valid_true l :
  valid l = true <->
  0 <= _Count l <= _Capacity l /\ _Capacity l <= SIZE_MAX /\ _Undefined l = false /\
  match _Elems l with
  | Some b => Z.of_nat (length b) = _Capacity l /\ constructed (_Count l) b = true
  | None => _Capacity l = 0
  end.
Proof.
  unfold valid. rewrite !andb_true_iff, !Z.leb_le, negb_true_iff.
  destruct (_Elems l) as [b|].
  - rewrite andb_true_iff, Z.eqb_eq. tauto.
  - rewrite Z.eqb_eq. tauto.
Qed.

Lemma valid_elements l b :
  valid l = true -> _Elems l = Some b ->
  0 <= _Count l <= Z.of_nat (length b) /\ constructed (_Count l) b = true
  /\ elements l = objects (_Count l) b.
Proof.
  intros Hv Hb. apply valid_true in Hv. rewrite Hb in Hv.
  destruct Hv as ([H0 H1] & _ & _ & Hlen & Hcons).
  unfold elements. rewrite Hb. repeat split; try assumption; lia.
Qed.

Lemma valid_null l :
  valid l = true -> _Elems l = None -> _Count l = 0 /\ _Capacity l = 0.
Proof.
  intros Hv Hb. apply valid_true in Hv. rewrite Hb in Hv.
  destruct Hv as ([H0 H1] & _ & _ & Hcap). lia.
Qed.

Lemma lookup_elements l i :
  valid l = true -> 0 <= i < _Count l -> elements l !! Z.to_nat i = get l i.
Proof.
  intros Hv Hi. unfold get. destruct (_Elems l) as [b|] eqn:Hb.
  - destruct (valid_elements l b Hv Hb) as (Hc & Hcons & ->).
    apply lookup_objects; assumption.
  - destruct (valid_null l Hv Hb). lia.
Qed.

Lemma length_elements l :
  valid l = true -> Z.of_nat (length (elements l)) = _Count l.
Proof.
  intros Hv. destruct (_Elems l) as [b|] eqn:Hb.
  - destruct (valid_elements l b Hv Hb) as (Hc & Hcons & ->).
    apply length_objects; [lia | assumption].
  - destruct (valid_null l Hv Hb) as [-> _]. unfold elements. rewrite Hb. reflexivity.
Qed.

Lemma put_inside cap cnt b u i v :
  inside b i = true ->
  put (mkList cap cnt (Some b) u) i v = mkList cap cnt (Some (store b i v)) u.
Proof. intros H. unfold put. simpl. rewrite H. reflexivity. Qed.

(** A loop that fills a fresh block, slot [i + d] from a value that
    depends on [i] alone. *)
Lemma fill_loop (pos : Z -> Z) (val : Z -> slot T) lo hi d bm :
  lo <= hi -> (forall i, lo <= i < hi -> pos i = i + d) ->
  0 <= lo + d -> hi + d <= Z.of_nat (length bm) ->
  exists b', for_loop lo hi (fun i m => fill m (pos i) (val i)) (bm, false) = (b', false)
    /\ length b' = length bm
    /\ forall j, load b' j =
         if (lo + d <=? j) && (j <? hi + d) then val (j - d) else load bm j.
Proof.
  intros Hle Hpos Hlo Hhi.
  apply (for_loop_invariant
    (fun i m => exists b', m = (b', false) /\ length b' = length bm
       /\ forall j, load b' j =
            if (lo + d <=? j) && (j <? i + d) then val (j - d) else load bm j));
    [assumption | |].
  - exists bm. split; [reflexivity|]. split; [reflexivity|].
    intros j. destruct (lo + d <=? j) eqn:E1, (j <? lo + d) eqn:E2; try reflexivity; lia.
  - intros i m Hi (b' & -> & Hlen & Hload).
    assert (Hin : inside b' (pos i) = true).
    { apply inside_true. rewrite Hpos by lia. lia. }
    exists (store b' (pos i) (val i)). unfold fill. simpl. rewrite Hin.
    split; [reflexivity|]. split; [rewrite length_store; assumption|].
    intros j. destruct (decide (pos i = j)) as [<-|Hne].
    + rewrite load_store_same by assumption. rewrite Hpos by lia.
      replace (i + d - d) with i by lia.
      destruct (lo + d <=? i + d) eqn:E1, (i + d <? i + 1 + d) eqn:E2; try reflexivity; lia.
    + rewrite load_store_other by assumption. rewrite Hload.
      rewrite Hpos in Hne by lia.
      destruct (lo + d <=? j) eqn:E1, (j <? i + d) eqn:E2, (j <? i + 1 + d) eqn:E3;
        try reflexivity; lia.
Qed.

(** The same loop on the storage of the list. *)
Lemma put_loop cap cnt b u (pos : Z -> Z) (val : Z -> slot T) lo hi d :
  lo <= hi -> (forall i, lo <= i < hi -> pos i = i + d) ->
  0 <= lo + d -> hi + d <= Z.of_nat (length b) ->
  exists b', for_loop lo hi (fun i l => put l (pos i) (val i)) (mkList cap cnt (Some b) u)
             = mkList cap cnt (Some b') u
    /\ length b' = length b
    /\ forall j, load b' j =
         if (lo + d <=? j) && (j <? hi + d) then val (j - d) else load b j.
Proof.
  intros Hle Hpos Hlo Hhi.
  apply (for_loop_invariant
    (fun i l => exists b', l = mkList cap cnt (Some b') u /\ length b' = length b
       /\ forall j, load b' j =
            if (lo + d <=? j) && (j <? i + d) then val (j - d) else load b j));
    [assumption | |].
  - exists b. split; [reflexivity|]. split; [reflexivity|].
    intros j. destruct (lo + d <=? j) eqn:E1, (j <? lo + d) eqn:E2; try reflexivity; lia.
  - intros i l Hi (b' & -> & Hlen & Hload).
    assert (Hin : inside b' (pos i) = true).
    { apply inside_true. rewrite Hpos by lia. lia. }
    exists (store b' (pos i) (val i)). rewrite put_inside by assumption.
    split; [reflexivity|]. split; [rewrite length_store; assumption|].
    intros j. destruct (decide (pos i = j)) as [<-|Hne].
    + rewrite load_store_same by assumption. rewrite Hpos by lia.
      replace (i + d - d) with i by lia.
      destruct (lo + d <=? i + d) eqn:E1, (i + d <? i + 1 + d) eqn:E2; try reflexivity; lia.
    + rewrite load_store_other by assumption. rewrite Hload.
      rewrite Hpos in Hne by lia.
      destruct (lo + d <=? j) eqn:E1, (j <? i + d) eqn:E2, (j <? i + 1 + d) eqn:E3;
        try reflexivity; lia.
Qed.

Lemma destroy_n_inside cap cnt b u first n :
  0 <= first -> 0 <= n -> first + n <= Z.of_nat (length b) ->
  exists b', destroy_n first n (mkList cap cnt (Some b) u) = mkList cap cnt (Some b') u
    /\ length b' = length b
    /\ forall j, load b' j =
         if (first <=? j) && (j <? first + n) then None else load b j.
Proof.
  intros H0 Hn Hb. unfold destroy_n.
  destruct (put_loop cap cnt b u (fun k => first + k) (fun _ => None) 0 n first)
    as (b' & E & Hlen & Hload); [lia | intros; lia | lia | lia |].
  exists b'. split; [exact E|]. split; [exact Hlen|].
  intros j. rewrite Hload. replace (0 + first) with first by lia.
  replace (n + first) with (first + n) by lia. reflexivity.
Qed.

(** *** _Reallocate *)

Lemma _Reallocate_moves cap cnt b new_capacity :
  valid (mkList cap cnt (Some b) false) = true ->
  cnt <= new_capacity <= SIZE_MAX ->
  exists b', _Reallocate new_capacity (mkList cap cnt (Some b) false)
             = mkList new_capacity cnt (Some b') false
    /\ Z.of_nat (length b') = new_capacity
    /\ forall j, 0 <= j < cnt -> load b' j = load b j.
Proof.
  intros Hv Hnew. apply valid_true in Hv. simpl in Hv.
  destruct Hv as (Hc & Hmax & _ & Hlen & Hcons).
  unfold _Reallocate. simpl.
  destruct (cap =? 0) eqn:E0.
  - apply Z.eqb_eq in E0. exists (allocate new_capacity).
    split; [reflexivity|]. split.
    + rewrite length_allocate. lia.
    + intros j Hj. lia.
  - destruct (cap =? new_capacity) eqn:E1; simpl.
    + apply Z.eqb_eq in E1. subst. exists b. auto.
    + destruct (fill_loop (fun i => i) (fun i => load b i) 0 cnt 0 (allocate new_capacity))
        as (b' & E & Hlen' & Hload); [lia | intros; lia | lia | |].
      { rewrite length_allocate. lia. }
      destruct (destroy_n_inside cap cnt b false 0 cnt) as (b'' & E' & _); [lia..|].
      unfold get at 1. simpl. rewrite E, E'. unfold install, set_Capacity. simpl.
      exists b'. split; [reflexivity|]. split.
      * rewrite Hlen', length_allocate. lia.
      * intros j Hj. rewrite Hload.
        destruct (0 + 0 <=? j) eqn:A1, (j <? cnt + 0) eqn:A2; try lia.
        simpl. f_equal. lia.
Qed.

(** *** Add *)

Lemma Add_appends what l :
  valid l = true ->
  _Count l < _Capacity l \/ 2 * _Capacity l <= SIZE_MAX ->
  valid (Add what l) = true
  /\ elements (Add what l) = elements l ++ [what]
  /\ _Count (Add what l) = _Count l + 1
  /\ _Capacity (Add what l) =
       if _Count l =? _Capacity l
       then (if _Capacity l =? 0 then 1 else 2 * _Capacity l)
       else _Capacity l.
Proof.
  intros Hv Hroom.
  assert (Hgrow : exists b b',
    _Elems (Add what l) = Some b'
    /\ match _Elems l with Some b0 => b0 = b | None => b = [] end
    /\ _Undefined (Add what l) = false
    /\ _Count (Add what l) = _Count l + 1
    /\ _Capacity (Add what l) =
         (if _Count l =? _Capacity l
          then (if _Capacity l =? 0 then 1 else 2 * _Capacity l)
          else _Capacity l)
    /\ Z.of_nat (length b') = _Capacity (Add what l)
    /\ _Count l + 1 <= _Capacity (Add what l) <= SIZE_MAX
    /\ load b' (_Count l) = Some what
    /\ forall j, 0 <= j < _Count l -> load b' j = load b j).
  { pose proof Hv as Hv'. apply valid_true in Hv'.
    destruct l as [cap cnt e u]. simpl in *.
    destruct Hv' as (Hc & Hmax & -> & He).
    unfold SIZE_MAX in *. unfold Add. simpl.
    destruct (cnt =? cap) eqn:E.
    - apply Z.eqb_eq in E. subst cap.
      destruct (cnt =? 0) eqn:E0.
      + apply Z.eqb_eq in E0. subst cnt.
        exists (match e with Some b0 => b0 | None => [] end), [Some what].
        destruct e; simpl; repeat split; try reflexivity; try lia.
      + apply Z.eqb_neq in E0. destruct e as [b|]; [|lia].
        destruct He as [Hlen Hcons].
        assert (W : wrap (cnt * 2) = 2 * cnt).
        { unfold wrap. rewrite Z.mod_small; lia. }
        rewrite W.
        destruct (_Reallocate_moves cnt cnt b (2 * cnt)) as (b' & -> & Hlen' & Hload);
          [exact Hv | unfold SIZE_MAX; lia |].
        assert (Hin : inside b' cnt = true) by (apply inside_true; lia).
        rewrite put_inside by assumption. simpl.
        exists b, (store b' cnt (Some what)). rewrite length_store.
        assert (W1 : wrap (cnt + 1) = cnt + 1).
        { unfold wrap. rewrite Z.mod_small; lia. }
        rewrite W1. repeat split; try reflexivity; try lia.
        * apply load_store_same; assumption.
        * intros j Hj. rewrite load_store_other by lia. apply Hload. lia.
    - apply Z.eqb_neq in E. destruct e as [b|]; [|lia].
      destruct He as [Hlen Hcons].
      assert (Hin : inside b cnt = true) by (apply inside_true; lia).
      rewrite put_inside by assumption. simpl.
      exists b, (store b cnt (Some what)). rewrite length_store.
      assert (W1 : wrap (cnt + 1) = cnt + 1).
      { unfold wrap. rewrite Z.mod_small; lia. }
      rewrite W1. repeat split; try reflexivity; try lia.
      + apply load_store_same; assumption.
      + intros j Hj. apply load_store_other. lia. }
  destruct Hgrow as (b & b' & He' & He & Hu & Hcnt & Hcap & Hlen & Hbound & Hnew & Hold).
  pose proof Hv as Hv'. apply valid_true in Hv'.
  destruct Hv' as (Hc & Hmax & _ & Hb).
  assert (Hcons : constructed (_Count l) b = true).
  { destruct (_Elems l); [destruct Hb; subst; assumption|].
    subst b. apply constructed_true. intros i Hi. lia. }
  assert (Hobj : elements l = objects (_Count l) b).
  { unfold elements. destruct (_Elems l); [subst; reflexivity|].
    subst b. assert (_Count l = 0) by lia. rewrite H. reflexivity. }
  split; [|split; [|split]]; try assumption.
  - apply valid_true. rewrite He', Hu, Hcnt. repeat split; try lia; try assumption.
    apply constructed_true. intros j Hj.
    destruct (decide (j = _Count l)) as [->|Hne]; [rewrite Hnew; eauto|].
    rewrite Hold by lia. rewrite constructed_true in Hcons. apply Hcons. lia.
  - unfold elements at 1. rewrite He', Hcnt, Hobj.
    rewrite (objects_snoc _ _ what) by (assumption || lia).
    f_equal. apply objects_ext. exact Hold.
Qed.

(** *** List(const List&) *)

Lemma List_copy_block a b :
  _Elems a = Some b -> 0 <= _Count a <= Z.of_nat (length b) ->
  exists b', List_copy a = mkList (_Count a) (_Count a) (Some b') false
    /\ Z.of_nat (length b') = _Count a
    /\ forall j, 0 <= j < _Count a -> load b' j = load b j.
Proof.
  intros Hb Hc. unfold List_copy. rewrite Hb.
  set (c := _Count a) in *.
  apply (for_loop_invariant
           (fun i this => exists b', this = mkList c c (Some b') false
               /\ Z.of_nat (length b') = c
               /\ forall j, 0 <= j < i -> load b' j = load b j)); [lia | |].
  - exists (allocate c). split; [reflexivity|]. split.
    + rewrite length_allocate. lia.
    + intros j Hj. lia.
  - intros i this Hi (b' & -> & Hlen & Hsame).
    assert (Hin : inside b' i = true) by (apply inside_true; lia).
    exists (store b' i (get a i)). rewrite put_inside by assumption.
    split; [reflexivity|]. split; [rewrite length_store; assumption|].
    intros j Hj. destruct (decide (i = j)) as [->|Hne].
    + rewrite load_store_same by assumption. unfold get. rewrite Hb. reflexivity.
    + rewrite load_store_other by assumption. apply Hsame. lia.
Qed.
End ListFacts.

(** *** The two counters *)

Section Fields.
Context {T : Type}.
Implicit Types (l : List T).

Lemma put_fields l i v :
  _Count (put l i v) = _Count l /\ _Capacity (put l i v) = _Capacity l.
Proof. unfold put. destruct (_Elems l) as [b|]; [destruct (inside b i)|]; auto. Qed.

Lemma destroy_n_fields first n l :
  _Count (destroy_n first n l) = _Count l
  /\ _Capacity (destroy_n first n l) = _Capacity l.
Proof.
  unfold destroy_n. destruct (Z.le_gt_cases 0 n) as [Hn|Hn].
  - apply (for_loop_invariant
             (fun _ l' => _Count l' = _Count l /\ _Capacity l' = _Capacity l));
      [assumption | auto |].
    intros i l' _ [Hc Hk]. destruct (put_fields l' (first + i) None). split; congruence.
  - rewrite for_loop_empty by lia. auto.
Qed.

Lemma _Reallocate_fields n l :
  _Count (_Reallocate n l) = _Count l /\ _Capacity (_Reallocate n l) = n.
Proof.
  unfold _Reallocate. destruct (_Capacity l =? 0); [auto|].
  destruct (negb (_Capacity l =? n)); [|auto]. simpl.
  destruct (destroy_n_fields 0 (_Count l) l). auto.
Qed.

(** What [Resize] leaves in the two counters when it shrinks. *)
Lemma Resize_shrink_fields n l :
  n < _Count l ->
  _Count (Resize n l) = wrap (_Count l - n) /\ _Capacity (Resize n l) = n.
Proof.
  intros Hn. unfold Resize. apply Z.ltb_lt in Hn. rewrite Hn.
  destruct (_Reallocate_fields n
              (destroy_n n (_Count (set_Count (wrap (_Count l - n)) l))
                 (set_Count (wrap (_Count l - n)) l))) as [Hc Hk].
  rewrite Hc, Hk.
  destruct (destroy_n_fields n (_Count (set_Count (wrap (_Count l - n)) l))
              (set_Count (wrap (_Count l - n)) l)) as [Hc' _].
  rewrite Hc'. auto.
Qed.
End Fields.

(** * List(const List&) and operator[] *)

Section Copying.
Context {T : Type}.
Implicit Types (l a : List T) (b : list (slot T)).

(** C10.  The copy constructor yields a list with the count and the
    elements of [a], in order; its capacity is the count of [a], whatever
    the capacity of [a] was, and its storage is null exactly when the
    storage of [a] is. *)
Theorem List_copy_shrinks_to_fit a :
  valid a = true ->
  Count (List_copy a) = Count a
  /\ elements (List_copy a) = elements a
  /\ (forall i, 0 <= i < Count a -> subscript i (List_copy a) = subscript i a)
  /\ Capacity (List_copy a) = Count a
  /\ (_Elems (List_copy a) = None <-> _Elems a = None)
  /\ valid (List_copy a) = true.
Proof.
  intros Hv. unfold Count, Capacity, subscript.
  destruct (_Elems a) as [b|] eqn:Hb.
  - destruct (valid_elements a b Hv Hb) as (Hc & Hcons & He).
    pose proof (proj1 (valid_true a) Hv) as (_ & Hmax & _).
    destruct (List_copy_block a b Hb Hc) as (b' & -> & Hlen & Hload).
    simpl. unfold elements at 1, get at 1. simpl. unfold get. rewrite Hb.
    split; [reflexivity|]. split; [rewrite He; apply objects_ext; exact Hload|].
    split; [exact Hload|]. split; [reflexivity|]. split; [split; discriminate|].
    apply valid_true. simpl. repeat split; try lia.
    + pose proof (proj1 (valid_true a) Hv) as ([_ ?] & ? & _). lia.
    + apply constructed_true. intros i Hi. rewrite Hload by assumption.
      rewrite constructed_true in Hcons. apply Hcons. assumption.
  - destruct (valid_null a Hv Hb) as [Hc Hcap].
    unfold List_copy. rewrite Hb, Hc. rewrite for_loop_empty by lia.
    unfold elements. rewrite Hb. simpl.
    split; [reflexivity|]. split; [reflexivity|]. split; [intros i Hi; lia|].
    split; [reflexivity|]. split; [tauto|]. reflexivity.
Qed.

End Copying.

(** The copy of a list of capacity 4 that holds three elements. *)
Lemma List_copy_shrinks_to_fit_witness :
  valid (Adds [1; 2; 3]) = true
  /\ Capacity (Adds [1; 2; 3]) = 4
  /\ Capacity (List_copy (Adds [1; 2; 3])) = 3
  /\ elements (List_copy (Adds [1; 2; 3])) = [1; 2; 3].
Proof.
  split; [reflexivity|]. split; [reflexivity|].
  destruct (List_copy_shrinks_to_fit (Adds [1; 2; 3]) eq_refl) as (_ & He & _ & Hc & _).
  split; [exact Hc | exact He].
Defined.

(** *** operator[] *)

(** C9.  [operator[]] reads the slot [index] of the storage whatever the
    index: nothing compares it with [Count()] and nothing is thrown.  An
    index from [Count()] on can fall outside the storage, or on a slot
    that still holds an object no longer counted. *)
Theorem subscript_is_unchecked :
  (forall (T : Type) (l : List T) (index : Z),
      subscript index l =
        match _Elems l with
        | Some b => load b index
        | None => None
        end)
  /\ (exists (l : List Z) (index : Z),
        valid l = true /\ Count l <= index /\ subscript index l = None)
  /\ (exists (l : List Z) (index : Z) (stale : Z),
        valid l = true /\ Count l <= index /\ subscript index l = Some stale).
Proof.
  split; [reflexivity|]. split.
  - exists (Adds [1; 2; 3]), 4. vm_compute. repeat split. discriminate.
  - exists (state_after (RemoveAt 0 0 (Adds [10; 20]))), 1, 20.
    vm_compute. repeat split. discriminate.
Qed.

(** * Reverse *)

Section Reversing.
Context {T : Type}.
Implicit Types (l a : List T) (b : list (slot T)).

Lemma exchange_inside cap cnt b u i j :
  inside b i = true -> inside b j = true ->
  exchange i j (mkList cap cnt (Some b) u)
  = mkList cap cnt (Some (store (store b j (load b i)) i (load b j))) u.
Proof.
  intros Hi Hj. unfold exchange. unfold get at 1 2. simpl.
  rewrite put_inside by assumption.
  rewrite put_inside by (rewrite inside_store; assumption). reflexivity.
Qed.

(** The slots of [0 .. cnt - 1] after the loop of [Reverse]. *)
Lemma Reverse_block cap cnt b u :
  0 <= cnt <= Z.of_nat (length b) -> cnt <= SIZE_MAX ->
  exists b', Reverse (mkList cap cnt (Some b) u) = mkList cap cnt (Some b') u
    /\ length b' = length b
    /\ forall j, load b' j =
         if (0 <=? j) && (j <? cnt) then load b (cnt - 1 - j) else load b j.
Proof.
  intros Hc Hmax. unfold Reverse. simpl.
  assert (Hhalf : 2 * (cnt / 2) <= cnt) by (apply Z.mul_div_le; lia).
  assert (Hhalf' : cnt < 2 * (cnt / 2) + 2).
  { pose proof (Z.mod_pos_bound cnt 2 ltac:(lia)).
    pose proof (Z.div_mod cnt 2 ltac:(lia)). lia. }
  assert (H0 : 0 <= cnt / 2) by (apply Z.div_pos; lia).
  pose proof (for_loop_invariant
    (fun k l => exists b', l = mkList cap cnt (Some b') u /\ length b' = length b
       /\ forall j, load b' j =
            if (0 <=? j) && (j <? cnt) && ((j <? k) || (cnt - 1 - k <? j))
            then load b (cnt - 1 - j) else load b j)
    0 (cnt / 2)
    (fun i l => exchange i (wrap (_Count l - i - 1)) l)
    (mkList cap cnt (Some b) u) H0) as Hloop.
  destruct Hloop as (b' & E & Hlen & Hload).
  - exists b. split; [reflexivity|]. split; [reflexivity|].
    intros j.
    destruct (0 <=? j) eqn:E1, (j <? cnt) eqn:E2, (j <? 0) eqn:E3,
      (cnt - 1 - 0 <? j) eqn:E4; simpl; try reflexivity; lia.
  - intros i l Hi (b' & -> & Hlen & Hload). simpl.
    rewrite wrap_small by lia.
    assert (Hin1 : inside b' i = true) by (apply inside_true; lia).
    assert (Hin2 : inside b' (cnt - i - 1) = true) by (apply inside_true; lia).
    rewrite exchange_inside by assumption.
    eexists. split; [reflexivity|]. split; [rewrite !length_store; assumption|].
    intros j.
    assert (Hi1 : load b' i = load b i).
    { rewrite Hload.
      destruct (0 <=? i) eqn:E1, (i <? cnt) eqn:E2, (i <? i) eqn:E3,
        (cnt - 1 - i <? i) eqn:E4; simpl; try reflexivity; lia. }
    assert (Hi2 : load b' (cnt - i - 1) = load b (cnt - i - 1)).
    { rewrite Hload.
      destruct (0 <=? cnt - i - 1) eqn:E1, (cnt - i - 1 <? cnt) eqn:E2,
        (cnt - i - 1 <? i) eqn:E3, (cnt - 1 - i <? cnt - i - 1) eqn:E4;
        simpl; try reflexivity; lia. }
    destruct (decide (j = i)) as [->|Hne1].
    + rewrite load_store_same by (rewrite inside_store; assumption).
      rewrite Hi2.
      destruct (0 <=? i) eqn:E1, (i <? cnt) eqn:E2, (i <? i + 1) eqn:E3;
        simpl; try lia. f_equal. lia.
    + rewrite load_store_other by congruence.
      destruct (decide (j = cnt - i - 1)) as [->|Hne2].
      * rewrite load_store_same by assumption. rewrite Hi1.
        destruct (0 <=? cnt - i - 1) eqn:E1, (cnt - i - 1 <? cnt) eqn:E2,
          (cnt - i - 1 <? i + 1) eqn:E3, (cnt - 1 - (i + 1) <? cnt - i - 1) eqn:E4;
          simpl; try lia; f_equal; lia.
      * rewrite load_store_other by congruence. rewrite Hload.
        destruct (0 <=? j) eqn:E1, (j <? cnt) eqn:E2, (j <? i) eqn:E3,
          (cnt - 1 - i <? j) eqn:E4, (j <? i + 1) eqn:E5,
          (cnt - 1 - (i + 1) <? j) eqn:E6; simpl; try reflexivity; lia.
  - exists b'. split; [exact E|]. split; [exact Hlen|].
    intros j. rewrite Hload.
    destruct (0 <=? j) eqn:E1, (j <? cnt) eqn:E2, (j <? cnt / 2) eqn:E3,
      (cnt - 1 - cnt / 2 <? j) eqn:E4; simpl; try reflexivity.
    f_equal. lia.
Qed.

Lemma seqZ_mirror n :
  0 <= n -> (fun j => n - 1 - j) <$> seqZ 0 n = rev (seqZ 0 n).
Proof.
  intros Hn. rewrite <- (Z2Nat.id n) by assumption.
  generalize (Z.to_nat n). clear. intros n.
  induction n as [|n IH]; [reflexivity|].
  rewrite seqZ_S at 2. rewrite rev_app_distr. simpl.
  rewrite seqZ_cons by lia. rewrite fmap_cons. f_equal; [lia|].
  rewrite <- IH. replace (Z.pred (Z.of_nat (S n))) with (Z.of_nat n) by lia.
  rewrite <- (fmap_add_seqZ 1 0). rewrite <- list_fmap_compose.
  apply list_fmap_ext. intros i x _. simpl. lia.
Qed.

Lemma omap_rev {A B} (f : A -> option B) (xs : list A) :
  omap f (rev xs) = rev (omap f xs).
Proof.
  induction xs as [|x xs IH]; [reflexivity|].
  simpl rev. rewrite omap_app, IH. simpl.
  destruct (f x); [reflexivity | apply app_nil_r].
Qed.

Lemma objects_mirror n b b' :
  0 <= n -> (forall j, 0 <= j < n -> load b' j = load b (n - 1 - j)) ->
  objects n b' = rev (objects n b).
Proof.
  intros Hn H. unfold objects. rewrite <- omap_rev, <- seqZ_mirror by assumption.
  assert (HF : Forall (fun j => load b' j = load b (n - 1 - j)) (seqZ 0 n)).
  { apply Forall_seqZ. intros j Hj. apply H. lia. }
  induction HF as [|x xs Hx _ IH]; [reflexivity|].
  simpl. rewrite Hx. destruct (load b (n - 1 - x)); [f_equal|]; exact IH.
Qed.

(** C8.  [Reverse()] turns the sequence e0 .. e(n-1) into e(n-1) .. e0,
    the element at [i] being the one that was at [count - 1 - i]; it
    leaves [Count()] and [Capacity()] as they were, and reversing twice
    gives the list back. *)
Theorem Reverse_reverses l :
  valid l = true ->
  elements (Reverse l) = rev (elements l)
  /\ (forall i, 0 <= i < Count l ->
        subscript i (Reverse l) = subscript (Count l - i - 1) l)
  /\ Count (Reverse l) = Count l
  /\ Capacity (Reverse l) = Capacity l
  /\ valid (Reverse l) = true
  /\ Reverse (Reverse l) = l.
Proof.
  intros Hv. unfold Count, Capacity, subscript.
  destruct l as [cap cnt [b|] u].
  - destruct (valid_elements _ b Hv eq_refl) as (Hc & Hcons & He). simpl in *.
    pose proof (proj1 (valid_true _) Hv) as ([_ Hcc] & Hmax & Hu & Hlen & _).
    simpl in *.
    destruct (Reverse_block cap cnt b u Hc ltac:(lia)) as (b' & E & Hlen' & Hload).
    assert (Hmir : forall j, 0 <= j < cnt -> load b' j = load b (cnt - 1 - j)).
    { intros j Hj. rewrite Hload.
      destruct (0 <=? j) eqn:E1, (j <? cnt) eqn:E2; simpl; try reflexivity; lia. }
    rewrite E. unfold elements, get. simpl.
    split; [apply objects_mirror; [lia | exact Hmir]|].
    split; [intros i Hi; rewrite Hmir by assumption; f_equal; lia|].
    split; [reflexivity|]. split; [reflexivity|]. split.
    + apply valid_true. simpl. repeat split; try lia; try assumption.
      apply constructed_true. intros j Hj. rewrite Hmir by assumption.
      rewrite constructed_true in Hcons. apply Hcons. lia.
    + destruct (Reverse_block cap cnt b' u ltac:(lia) ltac:(lia))
        as (b'' & E' & Hlen'' & Hload').
      rewrite E'. f_equal. f_equal. apply load_ext; [congruence|].
      intros j Hj. rewrite Hload'.
      destruct (0 <=? j) eqn:E1, (j <? cnt) eqn:E2; simpl.
      * rewrite Hmir by lia. f_equal. lia.
      * rewrite Hload, E1, E2. reflexivity.
      * lia.
      * lia.
  - destruct (valid_null _ Hv eq_refl) as [Hc Hcap]. simpl in *. subst.
    unfold Reverse. simpl. change (0 / 2) with 0. rewrite !for_loop_empty by lia.
    simpl. repeat split; try reflexivity; try exact Hv.
Qed.
End Reversing.

(** The list 1, 2, 3, 4, 5. *)
Lemma Reverse_reverses_witness :
  valid (Adds [1; 2; 3; 4; 5]) = true
  /\ elements (Reverse (Adds [1; 2; 3; 4; 5])) = [5; 4; 3; 2; 1]
  /\ Reverse (Reverse (Adds [1; 2; 3; 4; 5])) = Adds [1; 2; 3; 4; 5].
Proof.
  split; [reflexivity|].
  destruct (Reverse_reverses (Adds [1; 2; 3; 4; 5]) eq_refl) as (He & _ & _ & _ & _ & Hi).
  split; [exact He | exact Hi].
Defined.

(** * RemoveAt and Remove *)

Section Removing.
Context {T : Type}.
Variable T_default : T.
Variable T_eq : T -> T -> bool.
Implicit Types (l a : List T) (b : list (slot T)).

(** [std::move] towards the front: each source slot is read before the
    loop writes it. *)
Lemma std_move_left cap cnt b u first last d :
  0 <= d <= first -> first <= last <= Z.of_nat (length b) ->
  exists b', std_move first last d (mkList cap cnt (Some b) u)
             = mkList cap cnt (Some b') u
    /\ length b' = length b
    /\ forall j, load b' j =
         if (d <=? j) && (j <? d + (last - first)) then load b (j + (first - d))
         else load b j.
Proof.
  intros Hd Hl. unfold std_move.
  apply (for_loop_invariant
    (fun k l => exists b', l = mkList cap cnt (Some b') u /\ length b' = length b
       /\ forall j, load b' j =
            if (d <=? j) && (j <? d + k) then load b (j + (first - d)) else load b j));
    [lia | |].
  - exists b. split; [reflexivity|]. split; [reflexivity|].
    intros j. destruct (d <=? j) eqn:E1, (j <? d + 0) eqn:E2; simpl; try reflexivity; lia.
  - intros k l Hk (b' & -> & Hlen & Hload).
    assert (Hin : inside b' (d + k) = true) by (apply inside_true; lia).
    rewrite put_inside by assumption.
    eexists. split; [reflexivity|]. split; [rewrite length_store; assumption|].
    intros j. unfold get. simpl.
    destruct (decide (j = d + k)) as [->|Hne].
    + rewrite load_store_same by assumption. rewrite Hload.
      destruct (d <=? first + k) eqn:E1, (first + k <? d + k) eqn:E2,
        (d <=? d + k) eqn:E3, (d + k <? d + (k + 1)) eqn:E4; simpl; try lia;
        f_equal; lia.
    + rewrite load_store_other by congruence. rewrite Hload.
      destruct (d <=? j) eqn:E1, (j <? d + k) eqn:E2, (j <? d + (k + 1)) eqn:E3;
        simpl; try reflexivity; lia.
Qed.

Lemma RemoveAt_shifts cap cnt b u index :
  0 <= index < cnt -> cnt <= Z.of_nat (length b) -> cnt <= SIZE_MAX ->
  exists b', RemoveAt T_default index (mkList cap cnt (Some b) u)
             = Returns tt (mkList cap (cnt - 1) (Some b') u)
    /\ length b' = length b
    /\ (forall j, 0 <= j < index -> load b' j = load b j)
    /\ (forall j, index <= j < cnt - 1 -> load b' j = load b (j + 1)).
Proof.
  intros Hi Hc Hmax. unfold RemoveAt. simpl.
  destruct (index <? cnt) eqn:E; [|exfalso; lia].
  assert (Hin : inside b index = true) by (apply inside_true; lia).
  rewrite put_inside by assumption.
  rewrite put_inside by (rewrite inside_store; assumption). simpl.
  rewrite (wrap_small (index + 1)) by lia.
  set (b0 := store (store b index None) index (Some T_default)).
  assert (Hlen0 : length b0 = length b) by (unfold b0; rewrite !length_store; reflexivity).
  assert (Hload0 : forall j, j <> index -> load b0 j = load b j).
  { intros j Hj. unfold b0. rewrite !load_store_other by congruence. reflexivity. }
  destruct (std_move_left cap cnt b0 u (index + 1) cnt index)
    as (b' & -> & Hlen & Hload); [lia | lia |].
  simpl. rewrite (wrap_small (cnt - 1)) by lia.
  exists b'. split; [reflexivity|]. split; [congruence|]. split.
  - intros j Hj. rewrite Hload.
    destruct (index <=? j) eqn:E1; simpl; [lia|]. apply Hload0. lia.
  - intros j Hj. rewrite Hload.
    destruct (index <=? j) eqn:E1, (j <? index + (cnt - (index + 1))) eqn:E2;
      simpl; try lia.
    rewrite Hload0 by lia. f_equal. lia.
Qed.

Lemma Remove_returns what l :
  exists r l', Remove T_default T_eq what l = Returns r l'.
Proof.
  unfold Remove. destruct (negb (IndexOf T_eq what l =? wrap (-1))).
  - destruct (RemoveAt T_default (IndexOf T_eq what l) l) as [[] l'|e l'];
      simpl; eauto.
  - simpl. eauto.
Qed.

(** C6.  When an element equals [what], [Remove(what)] takes out the
    first such element, the later ones moving down by one, [Count()]
    dropping by one, and returns [true]; when none does, it returns
    [false] and leaves the list as it was; in no case does it throw. *)
Theorem Remove_first_match what l :
  valid l = true ->
  (forall before x after,
      elements l = before ++ x :: after ->
      Forall (fun y => T_eq y what = false) before -> T_eq x what = true ->
      exists l', Remove T_default T_eq what l = Returns true l'
        /\ elements l' = before ++ after
        /\ Count l' = Count l - 1
        /\ Capacity l' = Capacity l
        /\ valid l' = true)
  /\ (Forall (fun y => T_eq y what = false) (elements l) ->
      Remove T_default T_eq what l = Returns false l)
  /\ (exists r l', Remove T_default T_eq what l = Returns r l').
Proof.
  intros Hv. split; [|split; [|apply Remove_returns]].
  - intros before x after He Hbefore Hx.
    pose proof (length_elements l Hv) as Hlen.
    rewrite He, length_app in Hlen. simpl in Hlen.
    set (index := Z.of_nat (length before)).
    assert (Hi : 0 <= index < _Count l) by (unfold index; lia).
    assert (Hget : forall j, 0 <= j < _Count l ->
              get l j = (before ++ x :: after) !! Z.to_nat j).
    { intros j Hj. rewrite <- He. symmetry. apply lookup_elements; assumption. }
    assert (Hfound : IndexOf T_eq what l = index).
    { unfold IndexOf. rewrite (first_index_found 0 (_Count l) _ index); [reflexivity | lia | |].
      - rewrite Hget by lia. unfold index. rewrite Nat2Z.id.
        rewrite list_lookup_middle by reflexivity. exact Hx.
      - intros j Hj. rewrite Hget by lia.
        rewrite lookup_app_l by (unfold index in Hj; lia).
        destruct (lookup_lt_is_Some_2 before (Z.to_nat j)) as [y Hy];
          [unfold index in Hj; lia|].
        rewrite Hy. simpl. rewrite Forall_forall in Hbefore.
        apply Hbefore. eapply list_elem_of_lookup_2. exact Hy. }
    pose proof (proj1 (valid_true l) Hv) as ([Hc0 Hc1] & Hmax & Hu & Hb).
    unfold Remove. rewrite Hfound.
    assert (Hne : (index =? wrap (-1)) = false).
    { apply Z.eqb_neq. change (wrap (-1)) with SIZE_MAX. lia. }
    rewrite Hne. simpl.
    destruct l as [cap cnt [b|] u]; simpl in *; [|lia].
    destruct Hb as [Hlenb Hcons]. subst u.
    destruct (RemoveAt_shifts cap cnt b false index) as (b' & -> & Hlen' & Hlo & Hhi);
      [lia..|].
    simpl. eexists. split; [reflexivity|].
    assert (Hcons' : constructed (cnt - 1) b' = true).
    { apply constructed_true. intros j Hj. rewrite constructed_true in Hcons.
      destruct (Z.lt_ge_cases j index).
      - rewrite Hlo by lia. apply Hcons. lia.
      - rewrite Hhi by lia. apply Hcons. lia. }
    unfold Count, Capacity. simpl. split; [|split; [reflexivity|split; [reflexivity|]]].
    + unfold elements. simpl. apply list_eq. intros n.
      destruct (decide (Z.of_nat n < cnt - 1)) as [Hn|Hn].
      * rewrite <- (Nat2Z.id n). rewrite lookup_objects by (assumption || lia).
        rewrite Nat2Z.id. unfold get in Hget. simpl in Hget.
        destruct (Z.lt_ge_cases (Z.of_nat n) index).
        -- rewrite Hlo, Hget by lia. rewrite Nat2Z.id.
           rewrite !lookup_app_l by (unfold index in *; lia). reflexivity.
        -- rewrite Hhi, Hget by lia.
           rewrite !lookup_app_r by (unfold index in *; lia).
           replace (Z.to_nat (Z.of_nat n + 1) - length before)%nat
             with (S (n - length before)) by (unfold index in *; lia).
           reflexivity.
      * rewrite !lookup_ge_None_2; [reflexivity | rewrite length_app; lia |].
        pose proof (length_objects (cnt - 1) b' ltac:(lia) Hcons'). lia.
    + apply valid_true. simpl. repeat split; try lia; try assumption.
  - intros Hnone. unfold Remove.
    assert (Habsent : IndexOf T_eq what l = wrap (-1)).
    { unfold IndexOf. rewrite first_index_absent; [reflexivity|].
      intros j Hj. rewrite <- lookup_elements by assumption.
      destruct (elements l !! Z.to_nat j) as [y|] eqn:Hy; [|reflexivity].
      simpl. rewrite Forall_forall in Hnone. apply Hnone.
      eapply list_elem_of_lookup_2. exact Hy. }
    rewrite Habsent. reflexivity.
Qed.
End Removing.

(** The list 10, 20, 30, 20, from which 20 and then 40 are removed. *)
Lemma Remove_first_match_witness :
  valid (Adds [10; 20; 30; 20]) = true
  /\ (exists l', Remove 0 Z.eqb 20 (Adds [10; 20; 30; 20]) = Returns true l'
        /\ elements l' = [10; 30; 20])
  /\ Remove 0 Z.eqb 40 (Adds [10; 20; 30; 20]) = Returns false (Adds [10; 20; 30; 20]).
Proof.
  split; [reflexivity|].
  destruct (Remove_first_match 0 Z.eqb 20 (Adds [10; 20; 30; 20]) eq_refl) as (Hfound & _).
  destruct (Remove_first_match 0 Z.eqb 40 (Adds [10; 20; 30; 20]) eq_refl) as (_ & Habsent & _).
  split.
  - destruct (Hfound [10] 20 [30; 20] eq_refl) as (l' & Hr & He & _).
    + repeat constructor.
    + reflexivity.
    + exists l'. split; [exact Hr | exact He].
  - apply Habsent. repeat constructor.
Defined.

(** * Add, from the empty list *)

Section Appending.
Context {T : Type}.
Implicit Types (vs : list T) (l : List T).

Lemma Adds_snoc vs x : Adds (vs ++ [x]) = Add x (Adds vs).
Proof. unfold Adds. rewrite fold_left_app. reflexivity. Qed.

Lemma tight_power_is_least n c :
  0 < n -> power_of_two c -> n <= c < 2 * n -> least_power_of_two_from n c.
Proof.
  intros Hn Hp Hc. split; [exact Hp|]. split; [lia|].
  intros c' (k' & Hk' & ->) Hn'. destruct Hp as (k & Hk & ->).
  destruct (Z.le_gt_cases k k') as [Hle|Hgt].
  - apply Z.pow_le_mono_r; lia.
  - assert (2 ^ k' <= 2 ^ (k - 1)) by (apply Z.pow_le_mono_r; lia).
    assert (2 ^ k = 2 * 2 ^ (k - 1)).
    { rewrite <- Z.pow_succ_r by lia. f_equal. lia. }
    lia.
Qed.

Lemma Adds_appended vs :
  Z.of_nat (length vs) <= 2 ^ 63 -> appended vs (Adds vs).
Proof.
  induction vs as [|x vs IH] using rev_ind; intros Hlen.
  - unfold appended. simpl. repeat split; try reflexivity; try congruence.
  - rewrite length_app in Hlen. simpl in Hlen.
    destruct IH as (Hv & He & Hc & H0 & Hpos); [lia|].
    rewrite Adds_snoc.
    pose proof (proj1 (valid_true _) Hv) as ([Hc0 Hc1] & _).
    assert (Hempty : vs = [] \/ (vs <> [] /\ 0 < Z.of_nat (length vs))).
    { destruct vs; [left; reflexivity | right; split; [congruence | simpl; lia]]. }
    set (l := Adds vs) in *.
    assert (Hroom : _Count l < _Capacity l \/ 2 * _Capacity l <= SIZE_MAX).
    { destruct Hempty as [E|[E _]].
      - right. rewrite (H0 E). unfold SIZE_MAX. lia.
      - destruct (Hpos E) as (_ & Hb).
        destruct (Z.eq_dec (_Count l) (_Capacity l)).
        + right. unfold SIZE_MAX. lia.
        + left. lia. }
    destruct (Add_appends x l Hv Hroom) as (Hv' & He' & Hc' & Hcap').
    unfold appended. rewrite length_app. change (length [x]) with 1%nat.
    split; [exact Hv'|]. split; [rewrite He', He; reflexivity|].
    split; [lia|]. split; [intros E; destruct vs; discriminate|].
    intros _. rewrite Hcap'.
    destruct (_Count l =? _Capacity l) eqn:E.
    + apply Z.eqb_eq in E. destruct (_Capacity l =? 0) eqn:E0.
      * apply Z.eqb_eq in E0. split; [exists 0; split; [lia|reflexivity]|]. lia.
      * apply Z.eqb_neq in E0. destruct Hempty as [E1|[E1 _]].
        { specialize (H0 E1). lia. }
        destruct (Hpos E1) as ((k & Hk & Hpow) & Hb).
        split; [|lia]. exists (k + 1). split; [lia|].
        rewrite Hpow, Z.pow_add_r by lia. lia.
    + apply Z.eqb_neq in E. destruct Hempty as [E1|[E1 _]].
      * specialize (H0 E1). rewrite E1 in Hc. simpl in Hc. lia.
      * destruct (Hpos E1) as (Hp & Hb). split; [exact Hp|]. lia.
Qed.

(** C7.  After [Add(v0) .. Add(vN-1)] on the empty list the elements are
    v0 .. vN-1 and [Count()] is N; an [Add] that finds the list full makes
    the capacity 1 when it was 0 and twice what it was otherwise, so that
    [Capacity()] ends as the least power of two from N up (0 for N = 0).
    N is within the sizes whose double a [std::size_t] holds. *)
Theorem Add_sequence vs :
  Z.of_nat (length vs) <= 2 ^ 63 ->
  elements (Adds vs) = vs
  /\ (forall i v, vs !! i = Some v -> subscript (Z.of_nat i) (Adds vs) = Some v)
  /\ Count (Adds vs) = Z.of_nat (length vs)
  /\ (forall before x after, vs = before ++ x :: after ->
        Count (Adds before) = Capacity (Adds before) ->
        Capacity (Add x (Adds before)) =
          if Capacity (Adds before) =? 0 then 1 else 2 * Capacity (Adds before))
  /\ (vs = [] -> Capacity (Adds vs) = 0)
  /\ (vs <> [] -> least_power_of_two_from (Z.of_nat (length vs)) (Capacity (Adds vs))).
Proof.
  intros Hlen. destruct (Adds_appended vs Hlen) as (Hv & He & Hc & H0 & Hpos).
  split; [exact He|]. split; [|split; [exact Hc|split; [|split; [exact H0|]]]].
  - intros i v Hi. unfold subscript.
    apply valid_true in Hv. destruct Hv as (Hcnt & _ & _ & Hb).
    assert (Hi' : (i < length vs)%nat) by (eapply lookup_lt_Some; eassumption).
    unfold elements, get in *. destruct (_Elems (Adds vs)) as [b|].
    + destruct Hb as [_ Hcons].
      rewrite <- (lookup_objects (_Count (Adds vs))) by (assumption || lia).
      rewrite He, Nat2Z.id. exact Hi.
    + subst vs. simpl in Hi'. lia.
  - intros before x after -> Hfull.
    rewrite length_app in Hlen. simpl in Hlen.
    destruct (Adds_appended before) as (Hv' & _ & Hc' & _); [lia|].
    destruct (Add_appends x (Adds before) Hv') as (_ & _ & _ & Hcap).
    { right. unfold Count, Capacity in Hfull. unfold SIZE_MAX. lia. }
    unfold Count, Capacity in *. rewrite Hcap, Hfull, Z.eqb_refl. reflexivity.
  - intros Hne. destruct (Hpos Hne) as (Hp & Hb).
    apply tight_power_is_least; [destruct vs; [congruence|simpl; lia] | exact Hp | exact Hb].
Qed.
End Appending.

(** Three appends. *)
Lemma Add_sequence_witness :
  Z.of_nat (length [7; 8; 9]) <= 2 ^ 63
  /\ elements (Adds [7; 8; 9]) = [7; 8; 9]
  /\ Count (Adds [7; 8; 9]) = 3
  /\ least_power_of_two_from 3 (Capacity (Adds [7; 8; 9])).
Proof.
  assert (H : Z.of_nat (length [7; 8; 9]) <= 2 ^ 63) by (vm_compute; discriminate).
  split; [exact H|].
  destruct (Add_sequence [7; 8; 9] H) as (He & _ & Hc & _ & _ & Hp).
  split; [exact He|]. split; [exact Hc|]. apply Hp. discriminate.
Defined.

(** * The bounds checks *)

Section Throwing.
Context {T : Type}.
Variable T_default : T.
Implicit Types (l : List T).

Lemma Insert_out_of_range index what l :
  _Count l < index -> Insert index what l = Throws (out_of_range "index") l.
Proof.
  intros H. unfold Insert.
  destruct (index =? _Count l) eqn:E1; [apply Z.eqb_eq in E1; lia|].
  destruct (index <? _Count l) eqn:E2; [apply Z.ltb_lt in E2; lia|]. reflexivity.
Qed.

Lemma RemoveAt_out_of_range index l :
  _Count l <= index -> RemoveAt T_default index l = Throws (out_of_range "where") l.
Proof.
  intros H. unfold RemoveAt.
  destruct (index <? _Count l) eqn:E; [apply Z.ltb_lt in E; lia|]. reflexivity.
Qed.

(** [RemoveRange] throws when the sum it computes, in [std::size_t],
    exceeds the count. *)
Lemma RemoveRange_out_of_range index count l :
  _Count l < wrap (index + count) ->
  RemoveRange T_default index count l = Throws (out_of_range "where") l.
Proof.
  intros H. unfold RemoveRange.
  destruct (wrap (index + count) <=? _Count l) eqn:E; [apply Z.leb_le in E; lia|].
  reflexivity.
Qed.
End Throwing.

(** C5.  [Insert] beyond the count and [RemoveAt] at or beyond it throw
    and leave the list as it was, and so does [RemoveRange] as long as
    [index + removeCount] does not wrap.  When it wraps, the guard lets
    the call through: on the list [10], [RemoveRange(SIZE_MAX, 1)] has
    [index + removeCount = 2^64 > Count()], yet it returns, with the count
    changed and after an access outside the storage. *)
Theorem RemoveRange_wrapped_bound :
  let l := Adds [10] in
  valid l = true
  /\ Count l < SIZE_MAX + 1
  /\ exists l', RemoveRange 0 SIZE_MAX 1 l = Returns tt l'
       /\ Count l = 1 /\ Count l' = 0 /\ _Undefined l' = true.
Proof.
  split; [reflexivity|]. split; [reflexivity|].
  eexists. split; [vm_compute; reflexivity|]. repeat split.
Qed.

(** * Insert and InsertRange *)

Section Shifting.
Context {T : Type}.
Implicit Types (l : List T) (b : list (slot T)).

(** [std::move_backward] towards the back: each source slot is read
  before the loop writes it. *)
Lemma std_move_backward_right cap cnt b u first last d_last :
0 <= first <= last -> last <= d_last <= Z.of_nat (length b) ->
exists b', std_move_backward first last d_last (mkList cap cnt (Some b) u)
           = mkList cap cnt (Some b') u
  /\ length b' = length b
  /\ forall j, load b' j =
       if (d_last - (last - first) <=? j) && (j <? d_last)
       then load b (j - (d_last - last)) else load b j.
Proof.
intros Hf Hl. unfold std_move_backward.
apply (for_loop_invariant
  (fun k l => exists b', l = mkList cap cnt (Some b') u /\ length b' = length b
     /\ forall j, load b' j =
          if (d_last - k <=? j) && (j <? d_last)
          then load b (j - (d_last - last)) else load b j));
  [lia | |].
- exists b. split; [reflexivity|]. split; [reflexivity|].
  intros j. destruct (d_last - 0 <=? j) eqn:E1, (j <? d_last) eqn:E2;
    simpl; try reflexivity; lia.
- intros k l Hk (b' & -> & Hlen & Hload).
  assert (Hin : inside b' (d_last - 1 - k) = true) by (apply inside_true; lia).
  rewrite put_inside by assumption.
  eexists. split; [reflexivity|]. split; [rewrite length_store; assumption|].
  intros j. unfold get. simpl.
  destruct (decide (j = d_last - 1 - k)) as [->|Hne].
  + rewrite load_store_same by assumption. rewrite Hload.
    destruct (d_last - k <=? last - 1 - k) eqn:E1, (last - 1 - k <? d_last) eqn:E2,
      (d_last - (k + 1) <=? d_last - 1 - k) eqn:E3,
      (d_last - 1 - k <? d_last) eqn:E4; simpl; try lia; f_equal; lia.
  + rewrite load_store_other by congruence. rewrite Hload.
    destruct (d_last - k <=? j) eqn:E1, (j <? d_last) eqn:E2,
      (d_last - (k + 1) <=? j) eqn:E3; simpl; try reflexivity; lia.
Qed.

(** [std::copy] from the source range. *)
Lemma std_copy_inside cap cnt b u (what : list T) d_first :
0 <= d_first -> d_first + Z.of_nat (length what) <= Z.of_nat (length b) ->
exists b', std_copy what d_first (mkList cap cnt (Some b) u)
           = mkList cap cnt (Some b') u
  /\ length b' = length b
  /\ forall j, load b' j =
       if (d_first <=? j) && (j <? d_first + Z.of_nat (length what))
       then what !! Z.to_nat (j - d_first) else load b j.
Proof.
intros H0 Hb. unfold std_copy.
destruct (put_loop cap cnt b u (fun k => d_first + k)
            (fun k => what !! Z.to_nat k) 0 (Z.of_nat (length what)) d_first)
  as (b' & E & Hlen & Hload); [lia | intros; lia | lia | lia |].
exists b'. split; [exact E|]. split; [exact Hlen|].
intros j. rewrite Hload. replace (0 + d_first) with d_first by lia.
replace (Z.of_nat (length what) + d_first) with (d_first + Z.of_nat (length what)) by lia.
reflexivity.
Qed.


(** *** Pieces of the sequence of elements *)

Lemma omap_seqZ_ext {A} (f g : Z -> option A) lo n :
(forall j, lo <= j < lo + n -> f j = g j) -> omap f (seqZ lo n) = omap g (seqZ lo n).
Proof.
intros H.
assert (HF : Forall (fun j => f j = g j) (seqZ lo n)) by (apply Forall_seqZ; exact H).
induction HF as [|x xs Hx _ IH]; [reflexivity|].
simpl. rewrite Hx. destruct (g x); [f_equal|]; exact IH.
Qed.

Lemma omap_seqZ_shift {A} (f : Z -> option A) lo n d :
omap f (seqZ (lo + d) n) = omap (fun j => f (j + d)) (seqZ lo n).
Proof.
rewrite (Z.add_comm lo d), <- fmap_add_seqZ.
generalize (seqZ lo n). intros xs.
induction xs as [|x xs IH]; [reflexivity|].
simpl. replace (d + x) with (x + d) by lia.
destruct (f (x + d)); [f_equal|]; exact IH.
Qed.

Lemma omap_seqZ_lookup {A} (xs : list A) :
omap (fun j => xs !! Z.to_nat j) (seqZ 0 (Z.of_nat (length xs))) = xs.
Proof.
induction xs as [|x xs IH] using rev_ind; [reflexivity|].
rewrite length_app. simpl length. rewrite Nat2Z.inj_add.
rewrite seqZ_app by lia. rewrite omap_app.
change (seqZ (0 + Z.of_nat (length xs)) (Z.of_nat 1)) with [Z.of_nat (length xs)].
simpl. rewrite Nat2Z.id. rewrite list_lookup_middle by reflexivity.
f_equal. etransitivity; [|exact IH]. apply omap_seqZ_ext.
intros j Hj. rewrite lookup_app_l by lia. reflexivity.
Qed.

Lemma objects_split n i b :
0 <= i <= n -> objects n b = objects i b ++ omap (load b) (seqZ i (n - i)).
Proof.
intros Hi. unfold objects. replace n with (i + (n - i)) at 1 by lia.
rewrite seqZ_app by lia. rewrite omap_app. reflexivity.
Qed.

Lemma take_objects n i b :
0 <= i <= n -> constructed n b = true ->
take (Z.to_nat i) (objects n b) = objects i b.
Proof.
intros Hi Hc. rewrite (objects_split n i) by assumption.
assert (Hc' : constructed i b = true).
{ apply constructed_true. intros j Hj. rewrite constructed_true in Hc. apply Hc. lia. }
pose proof (length_objects i b ltac:(lia) Hc').
rewrite take_app_length' by lia. reflexivity.
Qed.

Lemma drop_objects n i b :
0 <= i <= n -> constructed n b = true ->
drop (Z.to_nat i) (objects n b) = omap (load b) (seqZ i (n - i)).
Proof.
intros Hi Hc. rewrite (objects_split n i) by assumption.
assert (Hc' : constructed i b = true).
{ apply constructed_true. intros j Hj. rewrite constructed_true in Hc. apply Hc. lia. }
pose proof (length_objects i b ltac:(lia) Hc').
rewrite drop_app_length' by lia. reflexivity.
Qed.

(** A block that holds [before], then [what], then [after]. *)
Lemma objects_inserted n i (what : list T) b b' :
0 <= i <= n -> constructed n b = true ->
(forall j, 0 <= j < i -> load b' j = load b j) ->
(forall j, i <= j < i + Z.of_nat (length what) ->
   load b' j = what !! Z.to_nat (j - i)) ->
(forall j, i + Z.of_nat (length what) <= j < n + Z.of_nat (length what) ->
   load b' j = load b (j - Z.of_nat (length what))) ->
objects (n + Z.of_nat (length what)) b'
= take (Z.to_nat i) (objects n b) ++ what ++ drop (Z.to_nat i) (objects n b)
/\ constructed (n + Z.of_nat (length what)) b' = true.
Proof.
intros Hi Hc Hlo Hmid Hhi. set (a := Z.of_nat (length what)) in *. split.
- rewrite take_objects, drop_objects by assumption.
  rewrite (objects_split (n + a) i) by lia.
  f_equal; [apply objects_ext; exact Hlo|].
  replace (n + a - i) with (a + (n - i)) by lia.
  rewrite seqZ_app by lia. rewrite omap_app. f_equal.
  + rewrite (omap_seqZ_ext _ (fun j => what !! Z.to_nat (j - i))) by (intros; apply Hmid; lia).
    replace i with (0 + i) at 1 by lia. rewrite omap_seqZ_shift.
    etransitivity; [|exact (omap_seqZ_lookup what)]. apply omap_seqZ_ext.
    intros j Hj. f_equal. lia.
  + rewrite (omap_seqZ_ext _ (fun j => load b (j - a))) by (intros; apply Hhi; lia).
    rewrite omap_seqZ_shift. apply omap_seqZ_ext. intros j Hj. f_equal. lia.
- apply constructed_true. intros j Hj. rewrite constructed_true in Hc.
  destruct (Z.lt_ge_cases j i); [rewrite Hlo by lia; apply Hc; lia|].
  destruct (Z.lt_ge_cases j (i + a)).
  + rewrite Hmid by lia. apply lookup_lt_is_Some_2. lia.
  + rewrite Hhi by lia. apply Hc. lia.
Qed.
End Shifting.

Section Inserting.
Context {T : Type}.
Variable T_default : T.
Implicit Types (l : List T) (b : list (slot T)).

Lemma distance_length (what : list T) :
Z.of_nat (length what) <= SIZE_MAX -> distance what = Z.of_nat (length what).
Proof. intros H. unfold distance. apply wrap_small. lia. Qed.


Lemma omap_Some_fmap {A B} (g : A -> B) (xs : list A) :
omap (fun x => Some (g x)) xs = g <$> xs.
Proof.
induction xs as [|x xs IH]; [reflexivity|].
change (g x :: omap (fun x => Some (g x)) xs = g x :: (g <$> xs)).
rewrite IH. reflexivity.
Qed.


(** The const-reference overload: it inserts the range when there is
  room; when it reallocates, the elements from [index] on are built from
  the addresses of the old ones. *)
Lemma InsertRange_const_inserts (T_of_ptr : pointer -> T) index (what : list T) l :
valid l = true -> 0 <= index < Count l ->
2 * Count l + Z.of_nat (length what) <= SIZE_MAX ->
exists l', InsertRange_const T_default T_of_ptr index what l = Returns tt l'
  /\ elements l' =
       take (Z.to_nat index) (elements l) ++ what ++
       (if Z.of_nat (length what) >? Capacity l - Count l
        then (fun i => T_of_ptr (elem_addr i)) <$> seqZ index (Count l - index)
        else drop (Z.to_nat index) (elements l))
  /\ Count l' = Count l + Z.of_nat (length what)
  /\ valid l' = true.
Proof.
intros Hv Hi Hsz. unfold Count, Capacity in *.
pose proof (proj1 (valid_true l) Hv) as ([Hc0 Hc1] & Hmax & Hu & Hb).
destruct l as [cap cnt [b|] u]; simpl in *; [|lia].
destruct Hb as [Hlen Hcons]. subst u.
set (a := Z.of_nat (length what)) in *.
unfold InsertRange_const. simpl.
destruct (index =? cnt) eqn:E1; [apply Z.eqb_eq in E1; lia|].
destruct (index <? cnt) eqn:E2; [|apply Z.ltb_ge in E2; lia].
rewrite distance_length by (fold a; lia). fold a.
rewrite (wrap_small (cap - cnt)) by lia.
destruct (a >? cap - cnt) eqn:E3.
- apply Z.gtb_lt in E3. rewrite (wrap_small (cnt * 2 + a)) by lia.
  unfold set_Capacity. simpl.
  destruct (fill_loop (fun i => i) (fun i => load b i) 0 index 0 (allocate (cnt * 2 + a)))
    as (b1 & E & Hlen1 & Hload1);
    [lia | intros; lia | lia | rewrite length_allocate; lia |].
  unfold get. simpl. rewrite E. clear E.
  destruct (fill_loop (fun i => wrap (i + a))
              (fun i => Some (T_of_ptr (elem_addr i))) index cnt a b1)
    as (b2 & E & Hlen2 & Hload2);
    [lia | intros; apply wrap_small; lia | lia
     | rewrite Hlen1, length_allocate; lia |].
  unfold address. simpl. rewrite E. clear E.
  destruct (destroy_n_inside (cnt * 2 + a) cnt b false 0 cnt) as (b'' & -> & _); [lia..|].
  unfold install. simpl.
  assert (Hlen2' : Z.of_nat (length b2) = cnt * 2 + a).
  { rewrite Hlen2, Hlen1, length_allocate. lia. }
  destruct (std_copy_inside (cnt * 2 + a) cnt b2 false what index)
    as (b3 & -> & Hlen3 & Hload3); [lia | fold a; lia |].
  fold a in Hload3. simpl. rewrite (wrap_small (cnt + a)) by lia.
  eexists. split; [reflexivity|].
  assert (Hlo : forall j, 0 <= j < index -> load b3 j = load b j).
  { intros j Hj. rewrite Hload3.
    destruct (index <=? j) eqn:A1; simpl; [lia|]. rewrite Hload2.
    destruct (index + a <=? j) eqn:A2; simpl; [lia|]. rewrite Hload1.
    destruct (0 + 0 <=? j) eqn:A3, (j <? index + 0) eqn:A4; simpl; try lia.
    f_equal. lia. }
  assert (Hmid : forall j, index <= j < index + a ->
            load b3 j = what !! Z.to_nat (j - index)).
  { intros j Hj. rewrite Hload3.
    destruct (index <=? j) eqn:A1, (j <? index + a) eqn:A2; simpl; try lia.
    reflexivity. }
  assert (Hhi : forall j, index + a <= j < cnt + a ->
            load b3 j = Some (T_of_ptr (elem_addr (j - a)))).
  { intros j Hj. rewrite Hload3.
    destruct (index <=? j) eqn:A1, (j <? index + a) eqn:A2; simpl; try lia.
    rewrite Hload2.
    destruct (index + a <=? j) eqn:A3, (j <? cnt + a) eqn:A4; simpl; try lia.
    reflexivity. }
  split; [|split; [reflexivity|]].
  + unfold elements. simpl.
    rewrite take_objects by (assumption || lia).
    rewrite (objects_split (cnt + a) index) by lia.
    f_equal; [apply objects_ext; exact Hlo|].
    replace (cnt + a - index) with (a + (cnt - index)) by lia.
    rewrite seqZ_app by lia. rewrite omap_app. f_equal.
    * rewrite (omap_seqZ_ext _ (fun j => what !! Z.to_nat (j - index)))
        by (intros; apply Hmid; lia).
      replace index with (0 + index) at 1 by lia. rewrite omap_seqZ_shift.
      etransitivity; [|exact (omap_seqZ_lookup what)]. apply omap_seqZ_ext.
      intros j Hj. f_equal. lia.
    * rewrite (omap_seqZ_ext _ (fun j => Some (T_of_ptr (elem_addr (j - a)))))
        by (intros; apply Hhi; lia).
      rewrite omap_seqZ_shift. rewrite <- omap_Some_fmap.
      apply omap_seqZ_ext. intros j Hj. do 3 f_equal. lia.
  + apply valid_true. simpl. repeat split; try lia; try assumption.
    apply constructed_true. intros j Hj. rewrite constructed_true in Hcons.
    destruct (Z.lt_ge_cases j index); [rewrite Hlo by lia; apply Hcons; lia|].
    destruct (Z.lt_ge_cases j (index + a)).
    * rewrite Hmid by lia. apply lookup_lt_is_Some_2. lia.
    * rewrite Hhi by lia. eauto.
- rewrite Z.gtb_ltb in E3. apply Z.ltb_ge in E3.
  rewrite (wrap_small (cnt + a)) by lia.
  destruct (put_loop cap cnt b false (fun i => i) (fun _ => Some T_default) cnt (cnt + a) 0)
    as (b0 & -> & Hlen0 & Hload0); [lia | intros; lia | lia | lia |].
  simpl. rewrite ?(wrap_small (cnt + a)) by lia.
  destruct (std_move_backward_right cap cnt b0 false index cnt (cnt + a))
    as (b1 & -> & Hlen1 & Hload1); [lia | lia |].
  destruct (std_copy_inside cap cnt b1 false what index)
    as (b2 & -> & Hlen2 & Hload2); [lia | fold a; lia |].
  fold a in Hload2. simpl. rewrite (wrap_small (cnt + a)) by lia.
  eexists. split; [reflexivity|].
  assert (Hold : forall j, 0 <= j < cnt -> load b0 j = load b j).
  { intros j Hj. rewrite Hload0.
    destruct (cnt + 0 <=? j) eqn:A1; simpl; [lia|]. reflexivity. }
  destruct (objects_inserted cnt index what b b2) as [He Hc']; try assumption; [lia| | | |].
  + intros j Hj. rewrite Hload2.
    destruct (index <=? j) eqn:A1; simpl; [lia|]. rewrite Hload1.
    destruct (cnt + a - (cnt - index) <=? j) eqn:A2; simpl; [lia|].
    apply Hold. lia.
  + intros j Hj. rewrite Hload2. fold a in Hj.
    destruct (index <=? j) eqn:A1, (j <? index + a) eqn:A2; simpl; try lia. reflexivity.
  + intros j Hj. rewrite Hload2. fold a in Hj |- *.
    destruct (index <=? j) eqn:A1, (j <? index + a) eqn:A2; simpl; try lia.
    rewrite Hload1.
    destruct (cnt + a - (cnt - index) <=? j) eqn:A3, (j <? cnt + a) eqn:A4;
      simpl; try lia.
    rewrite Hold by lia. f_equal. lia.
  + fold a in He, Hc'. unfold elements. simpl.
    split; [exact He|]. split; [reflexivity|].
    apply valid_true. simpl. repeat split; try lia; try assumption; congruence.
Qed.
End Inserting.

(** C4.  At [T = bool], on the full list [false; false],
    [InsertRange(0, source)] with the source [true] reallocates.  The
    overload that takes the range by const reference builds the old
    elements from their addresses and yields [true; true; true]; the
    overload that takes it by forwarding reference yields
    [true; false; false]. *)
Theorem InsertRange_const_reallocation :
  let l := Adds [false; false] in
  valid l = true /\ Count l = 2 /\ Capacity l = 2
  /\ (exists l', InsertRange_const false bool_of_pointer 0 [true] l = Returns tt l'
        /\ elements l' = [true; true; true] /\ Count l' = 3)
  /\ (exists l', InsertRange_move 0 [true] l = Returns tt l'
        /\ elements l' = [true; false; false] /\ Count l' = 3).
Proof.
  split; [reflexivity|]. split; [reflexivity|]. split; [reflexivity|].
  split; eexists; (split; [vm_compute; reflexivity|]); split; reflexivity.
Qed.

(** * RemoveRange, Clear, Resize, and sequences of calls *)

Section Keeping.
Context {T : Type}.
Variable T_default : T.
Variable T_eq : T -> T -> bool.
Implicit Types (l : List T) (b : list (slot T)).

(** A block that holds what [b] held but for the [k] elements from [i]. *)
Lemma objects_removed n i k b b' :
0 <= i -> 0 <= k -> i + k <= n -> constructed n b = true ->
(forall j, 0 <= j < i -> load b' j = load b j) ->
(forall j, i <= j < n - k -> load b' j = load b (j + k)) ->
objects (n - k) b' = take (Z.to_nat i) (objects n b) ++ drop (Z.to_nat (i + k)) (objects n b)
/\ constructed (n - k) b' = true.
Proof.
intros Hi Hk Hn Hc Hlo Hhi. split.
- rewrite take_objects, drop_objects by (assumption || lia).
  rewrite (objects_split (n - k) i) by lia.
  f_equal; [apply objects_ext; exact Hlo|].
  rewrite (omap_seqZ_ext _ (fun j => load b (j + k))) by (intros; apply Hhi; lia).
  rewrite omap_seqZ_shift. f_equal. f_equal. lia.
- apply constructed_true. intros j Hj. rewrite constructed_true in Hc.
  destruct (Z.lt_ge_cases j i); [rewrite Hlo by lia; apply Hc; lia|].
  rewrite Hhi by lia. apply Hc. lia.
Qed.

Lemma RemoveAt_removes index l :
valid l = true -> 0 <= index < Count l ->
exists l', RemoveAt T_default index l = Returns tt l'
  /\ elements l' =
       take (Z.to_nat index) (elements l) ++ drop (Z.to_nat (index + 1)) (elements l)
  /\ Count l' = Count l - 1 /\ Capacity l' = Capacity l
  /\ valid l' = true.
Proof.
intros Hv Hi. unfold Count, Capacity in *.
pose proof (proj1 (valid_true l) Hv) as ([Hc0 Hc1] & Hmax & Hu & Hb).
destruct l as [cap cnt [b|] u]; simpl in *; [|lia].
destruct Hb as [Hlen Hcons]. subst u.
destruct (RemoveAt_shifts T_default cap cnt b false index) as (b' & -> & Hlen' & Hlo & Hhi);
  [lia..|].
eexists. split; [reflexivity|].
destruct (objects_removed cnt index 1 b b') as [He Hc']; try assumption; try lia.
unfold elements. simpl. split; [exact He|]. split; [reflexivity|]. split; [reflexivity|].
apply valid_true. simpl. repeat split; try lia; try assumption; try congruence.
Qed.

Lemma RemoveRange_removes index count l :
valid l = true -> 0 <= index -> 0 <= count -> index + count <= Count l ->
exists l', RemoveRange T_default index count l = Returns tt l'
  /\ elements l' =
       take (Z.to_nat index) (elements l) ++ drop (Z.to_nat (index + count)) (elements l)
  /\ Count l' = Count l - count /\ Capacity l' = Capacity l
  /\ valid l' = true.
Proof.
intros Hv Hi Hk Hn. unfold Count, Capacity in *.
pose proof (proj1 (valid_true l) Hv) as ([Hc0 Hc1] & Hmax & Hu & Hb).
unfold RemoveRange. rewrite (wrap_small (index + count)) by lia.
destruct (index + count <=? _Count l) eqn:E; [|apply Z.leb_gt in E; lia].
destruct l as [cap cnt [b|] u]; simpl in *.
- destruct Hb as [Hlen Hcons]. subst u.
  destruct (destroy_n_inside cap cnt b false index count) as (b0 & -> & Hlen0 & Hload0);
    [lia..|].
  destruct (put_loop cap cnt b0 false (fun i => i) (fun _ => Some T_default)
              index (index + count) 0)
    as (b1 & -> & Hlen1 & Hload1); [lia | intros; lia | lia | lia |].
  simpl.
  destruct (std_move_left cap cnt b1 false (index + count) cnt index)
    as (b2 & -> & Hlen2 & Hload2); [lia | lia |].
  simpl. rewrite (wrap_small (cnt - count)) by lia.
  eexists. split; [reflexivity|].
  destruct (objects_removed cnt index count b b2) as [He Hc']; try assumption.
  + intros j Hj. rewrite Hload2.
    destruct (index <=? j) eqn:A1; simpl; [lia|]. rewrite Hload1.
    destruct (index + 0 <=? j) eqn:A2; simpl; [lia|]. rewrite Hload0.
    destruct (index <=? j) eqn:A3; simpl; [lia|]. reflexivity.
  + intros j Hj. rewrite Hload2.
    destruct (index <=? j) eqn:A1, (j <? index + (cnt - (index + count))) eqn:A2;
      simpl; try lia.
    rewrite Hload1.
    destruct (index + 0 <=? j + (index + count - index)) eqn:A3,
      (j + (index + count - index) <? index + count + 0) eqn:A4; simpl; try lia.
    rewrite Hload0.
    destruct (index <=? j + (index + count - index)) eqn:A5,
      (j + (index + count - index) <? index + count) eqn:A6; simpl; try lia.
    f_equal. lia.
  + unfold elements. simpl. split; [exact He|]. split; [reflexivity|].
    split; [reflexivity|].
    apply valid_true. simpl. repeat split; try lia; try assumption; try congruence.
- assert (cnt = 0) by lia. assert (index = 0) by lia. assert (count = 0) by lia. subst.
  unfold destroy_n. rewrite (for_loop_empty 0 0) by lia.
  rewrite (for_loop_empty 0 (0 + 0)) by lia.
  unfold std_move. simpl. rewrite (for_loop_empty 0 (0 - 0)) by lia.
  eexists. split; [reflexivity|]. simpl. repeat split; try reflexivity; try exact Hv.
Qed.

Lemma Clear_empties l :
valid l = true ->
elements (Clear l) = [] /\ Count (Clear l) = 0 /\ Capacity (Clear l) = Capacity l
/\ valid (Clear l) = true.
Proof.
intros Hv. unfold Count, Capacity, Clear.
pose proof (proj1 (valid_true l) Hv) as ([Hc0 Hc1] & Hmax & Hu & Hb).
destruct l as [cap cnt [b|] u]; simpl in *.
- destruct Hb as [Hlen Hcons]. subst u.
  destruct (destroy_n_inside cap cnt b false 0 cnt) as (b' & -> & Hlen' & _); [lia..|].
  unfold elements. simpl. repeat split.
  apply valid_true. simpl. repeat split; try lia; try congruence.
- assert (cnt = 0) by lia. subst. unfold destroy_n. rewrite for_loop_empty by lia.
  simpl. repeat split; try exact Hv.
Qed.

(** [Resize] to at least the count keeps the elements. *)
Lemma Resize_keeps n l :
valid l = true -> Count l <= n <= SIZE_MAX ->
elements (Resize n l) = elements l /\ Count (Resize n l) = Count l
/\ Capacity (Resize n l) = n /\ valid (Resize n l) = true.
Proof.
intros Hv Hn. unfold Count, Capacity, Resize in *.
destruct (n <? _Count l) eqn:E; [apply Z.ltb_lt in E; lia|].
pose proof (proj1 (valid_true l) Hv) as ([Hc0 Hc1] & Hmax & Hu & Hb).
destruct l as [cap cnt [b|] u]; simpl in *.
- destruct Hb as [Hlen Hcons]. subst u.
  destruct (_Reallocate_moves cap cnt b n Hv Hn) as (b' & -> & Hlen' & Hload).
  unfold elements. simpl. split; [apply objects_ext; exact Hload|].
  split; [reflexivity|]. split; [reflexivity|].
  apply valid_true. simpl. repeat split; try lia.
  apply constructed_true. intros j Hj. rewrite Hload by assumption.
  rewrite constructed_true in Hcons. apply Hcons. assumption.
- assert (cnt = 0) by lia. subst. unfold _Reallocate. simpl.
  unfold elements. simpl. repeat split.
  apply valid_true. simpl. repeat split; try lia.
  rewrite length_allocate. lia.
Qed.

(** [Resize] to less than half the count leaves more elements counted
  than the storage has room for. *)
Lemma Resize_shrink_overflows n l :
valid l = true -> 0 <= n -> 2 * n < Count l ->
Capacity (Resize n l) < Count (Resize n l).
Proof.
intros Hv H0 Hn. unfold Count, Capacity in *.
pose proof (proj1 (valid_true l) Hv) as ([Hc0 Hc1] & Hmax & _).
destruct (Resize_shrink_fields n l) as [Hc Hk]; [lia|].
rewrite Hc, Hk. rewrite wrap_small by lia. lia.
Qed.

End Keeping.




(** C1.  [Resize(n)] below the count leaves [count - n] in [_Count] and
    [n] in [_Capacity]: after [Add(1); Add(2); Add(3); Resize(1)] the
    count is 2 and the capacity 1, so [Count() <= Capacity()] is lost (and
    the reallocation has written past the new block). *)
Theorem Resize_breaks_count_le_capacity :
  let before := run 0 Z.eqb [op_Add 1; op_Add 2; op_Add 3] List_new in
  let after := run 0 Z.eqb [op_Add 1; op_Add 2; op_Add 3; op_Resize 1] List_new in
  valid before = true
  /\ Count after = 2 /\ Capacity after = 1
  /\ Capacity after < Count after
  /\ _Undefined after = true.
Proof. vm_compute. repeat split. Qed.

(** C2.  On the list [1; 2; 3], [Resize(2)] leaves [Count() = 1], not 2,
    and of the two elements that were to stay only the first is there;
    [Capacity()] is 2 as described. *)
Theorem Resize_shrink_miscounts :
  let l := Adds [1; 2; 3] in
  valid l = true /\ Count l = 3
  /\ Count (Resize 2 l) = 1
  /\ Capacity (Resize 2 l) = 2
  /\ elements (Resize 2 l) = [1]
  /\ subscript 1 (Resize 2 l) = None
  /\ _Undefined (Resize 2 l) = false.
Proof. vm_compute. repeat split. Qed.

(** * Sort *)

Section SortingFacts.
Context {T : Type}.
Variable T_lt : T -> T -> bool.
Variable compare : T -> T -> partial_ordering.
Implicit Types (l : List T) (b : list (slot T)).

Lemma insert_swap_head {A} (xs : list A) j x y :
xs !! j = Some y -> y :: <[j:=x]> xs ≡ₚ x :: xs.
Proof.
revert j. induction xs as [|a xs IH]; intros [|j] Hj; simpl in *; try discriminate.
- injection Hj as ->. apply Permutation_swap.
- rewrite (Permutation_swap a y). rewrite (IH j Hj). apply Permutation_swap.
Qed.

(** Two elements of a list change places. *)
Lemma insert_swap_Permutation {A} (xs : list A) i j x y :
xs !! i = Some x -> xs !! j = Some y -> <[i:=y]> (<[j:=x]> xs) ≡ₚ xs.
Proof.
revert i j. induction xs as [|a xs IH]; intros i j Hi Hj; [discriminate|].
destruct i as [|i], j as [|j]; simpl in *.
- injection Hi as ->. injection Hj as ->. reflexivity.
- injection Hi as ->. apply insert_swap_head. exact Hj.
- injection Hj as ->. apply insert_swap_head. exact Hi.
- rewrite (IH i j Hi Hj). reflexivity.
Qed.

(** The objects of a prefix, read off the list of slots. *)
Lemma objects_take n b :
0 <= n <= Z.of_nat (length b) -> objects n b = omap id (take (Z.to_nat n) b).
Proof.
intros [H0 Hn]. rewrite <- (Z2Nat.id n) in * by assumption.
rewrite Nat2Z.id. generalize dependent (Z.to_nat n). clear. intros k _ Hk.
induction k as [|k IH]; [reflexivity|].
unfold objects in *. rewrite seqZ_S, omap_app, IH by lia.
destruct (lookup_lt_is_Some_2 b k ltac:(lia)) as [s Hs].
rewrite (take_S_r _ _ _ Hs), omap_app. f_equal.
simpl. rewrite Z.add_0_l. unfold load.
rewrite (proj2 (inside_true b (Z.of_nat k))) by lia.
rewrite Nat2Z.id, Hs. reflexivity.
Qed.

(** [exchange] keeps the elements, up to their order. *)
Lemma exchange_permutes cap cnt b u i j :
0 <= i < cnt -> 0 <= j < cnt -> cnt <= Z.of_nat (length b) ->
constructed cnt b = true ->
exists b', exchange i j (mkList cap cnt (Some b) u) = mkList cap cnt (Some b') u
  /\ length b' = length b
  /\ constructed cnt b' = true
  /\ objects cnt b' ≡ₚ objects cnt b.
Proof.
intros Hi Hj Hc Hcons.
assert (Hin1 : inside b i = true) by (apply inside_true; lia).
assert (Hin2 : inside b j = true) by (apply inside_true; lia).
rewrite exchange_inside by assumption.
eexists. split; [reflexivity|]. split; [rewrite !length_store; reflexivity|]. split.
- apply constructed_true. intros k Hk. rewrite constructed_true in Hcons.
  destruct (decide (k = i)) as [->|Hne1].
  + rewrite load_store_same by (rewrite inside_store; assumption). apply Hcons. lia.
  + rewrite load_store_other by congruence.
    destruct (decide (k = j)) as [->|Hne2].
    * rewrite load_store_same by assumption. apply Hcons. lia.
    * rewrite load_store_other by congruence. apply Hcons. lia.
- rewrite !objects_take by (rewrite ?length_store; lia).
  apply omap_Permutation.
  destruct (lookup_lt_is_Some_2 b (Z.to_nat i) ltac:(lia)) as [si Hsi].
  destruct (lookup_lt_is_Some_2 b (Z.to_nat j) ltac:(lia)) as [sj Hsj].
  assert (Li : load b i = si) by (unfold load; rewrite Hin1, Hsi; reflexivity).
  assert (Lj : load b j = sj) by (unfold load; rewrite Hin2, Hsj; reflexivity).
  rewrite Li, Lj. unfold store. rewrite Hin2.
  rewrite (proj2 (inside_true _ i)) by (rewrite length_insert; lia).
  rewrite !take_insert_lt by lia.
  apply insert_swap_Permutation; rewrite lookup_take_lt by lia; assumption.
Qed.

Lemma rearranged_refl l b :
_Elems l = Some b -> constructed (_Count l) b = true -> rearranged l l.
Proof. intros Hb Hc. repeat split. exists b, b. auto. Qed.

Lemma rearranged_trans l1 l2 l3 : rearranged l1 l2 -> rearranged l2 l3 -> rearranged l1 l3.
Proof.
intros (Hk & Hc & Hu & b1 & b2 & E1 & E2 & Hlen & Hcons & Hp)
       (Hk' & Hc' & Hu' & b2' & b3 & E2' & E3 & Hlen' & Hcons' & Hp').
rewrite E2 in E2'. injection E2' as <-. rewrite Hc in *.
repeat split; try congruence.
exists b1, b3. repeat split; try assumption; try congruence.
etransitivity; eassumption.
Qed.

Lemma exchange_rearranged l b i j :
_Elems l = Some b -> constructed (_Count l) b = true ->
_Count l <= Z.of_nat (length b) ->
0 <= i < _Count l -> 0 <= j < _Count l ->
rearranged l (exchange i j l).
Proof.
intros Hb Hcons Hlen Hi Hj. destruct l as [cap cnt e u]. simpl in *. subst e.
destruct (exchange_permutes cap cnt b u i j) as (b' & -> & Hlen' & Hcons' & Hp);
  try assumption.
repeat split. exists b, b'. auto.
Qed.

Lemma rearranged_shape l l' b :
_Elems l = Some b -> _Count l <= Z.of_nat (length b) -> rearranged l l' ->
exists b', _Elems l' = Some b' /\ constructed (_Count l') b' = true
  /\ _Count l' <= Z.of_nat (length b').
Proof.
intros Hb Hlen (Hk & Hc & Hu & b0 & b' & E & E' & Hlen' & Hcons & Hp).
rewrite Hb in E. injection E as <-.
exists b'. rewrite Hc. split; [assumption|]. split; [assumption|]. lia.
Qed.

(** The inner loop returns, within the fuel the outer loop hands it. *)
Lemma sift_down_rearranges fuel end_ root l b :
_Elems l = Some b -> constructed (_Count l) b = true ->
_Count l <= Z.of_nat (length b) ->
0 <= root <= end_ -> end_ <= _Count l -> _Count l < 2 ^ 63 ->
(Z.to_nat (end_ - root) <= fuel)%nat ->
exists l', sift_down T_lt compare fuel end_ root l = Some l' /\ rearranged l l'.
Proof.
revert root l b. induction fuel as [|fuel IH]; intros root l b Hb Hcons Hlen Hr He Hmax Hf.
- simpl. rewrite wrap_small by (unfold SIZE_MAX; lia).
  destruct (root * 2 + 1 <? end_) eqn:E; [apply Z.ltb_lt in E; lia|].
  exists l. split; [reflexivity | eapply rearranged_refl; eassumption].
- simpl. rewrite !(wrap_small (root * 2 + 1)) by (unfold SIZE_MAX; lia).
  destruct (root * 2 + 1 <? end_) eqn:E;
    [|exists l; split; [reflexivity | eapply rearranged_refl; eassumption]].
  apply Z.ltb_lt in E.
  rewrite !(wrap_small (root * 2 + 1 + 1)) by (unfold SIZE_MAX; lia).
  set (child := if (root * 2 + 1 + 1 <? end_)
                   && is_less (slot_compare compare (get l (root * 2 + 1))
                                 (get l (root * 2 + 1 + 1)))
                then root * 2 + 1 + 1 else root * 2 + 1).
  assert (Hchild : root < child < end_).
  { unfold child. destruct (root * 2 + 1 + 1 <? end_) eqn:E'; simpl.
    - apply Z.ltb_lt in E'. destruct (is_less _); lia.
    - lia. }
  clearbody child.
  destruct (slot_lt T_lt (get l root) (get l child));
    [|exists l; split; [reflexivity | eapply rearranged_refl; eassumption]].
  assert (H1 : rearranged l (exchange root child l)).
  { eapply exchange_rearranged; try eassumption; lia. }
  destruct (rearranged_shape _ _ _ Hb Hlen H1) as (b1 & Hb1 & Hcons1 & Hlen1).
  pose proof H1 as (_ & Hc1 & _).
  destruct (IH child (exchange root child l) b1) as (l' & -> & H2);
    try assumption; try (rewrite Hc1; lia); try lia.
  exists l'. split; [reflexivity|]. eapply rearranged_trans; eassumption.
Qed.

(** So does the outer loop. *)
Lemma heap_loop_rearranges fuel start end_ l b :
_Elems l = Some b -> constructed (_Count l) b = true ->
_Count l <= Z.of_nat (length b) ->
0 <= start <= end_ -> end_ <= _Count l -> _Count l < 2 ^ 63 ->
(Z.to_nat (start + end_) <= fuel)%nat ->
exists l', heap_loop T_lt compare fuel start end_ l = Some l' /\ rearranged l l'.
Proof.
revert start end_ l b.
induction fuel as [|fuel IH]; intros start end_ l b Hb Hcons Hlen Hs He Hmax Hf.
- simpl. destruct (end_ >? 1) eqn:E; [rewrite Z.gtb_ltb in E; apply Z.ltb_lt in E; lia|].
  exists l. split; [reflexivity | eapply rearranged_refl; eassumption].
- simpl. destruct (end_ >? 1) eqn:E;
    [|exists l; split; [reflexivity | eapply rearranged_refl; eassumption]].
  rewrite Z.gtb_ltb in E. apply Z.ltb_lt in E.
  destruct (start >? 0) eqn:E0.
  + rewrite Z.gtb_ltb in E0. apply Z.ltb_lt in E0.
    rewrite (wrap_small (start - 1)) by (unfold SIZE_MAX; lia).
    destruct (sift_down_rearranges (Z.to_nat end_) end_ (start - 1) l b)
      as (l1 & -> & H1); try assumption; try lia.
    simpl.
    destruct (rearranged_shape _ _ _ Hb Hlen H1) as (b1 & Hb1 & Hcons1 & Hlen1).
    pose proof H1 as (_ & Hc1 & _).
    destruct (IH (start - 1) end_ l1 b1) as (l' & -> & H2);
      try assumption; try (rewrite Hc1; lia); try lia.
    exists l'. split; [reflexivity|]. eapply rearranged_trans; eassumption.
  + rewrite Z.gtb_ltb in E0. apply Z.ltb_ge in E0.
    rewrite !(wrap_small (end_ - 1)) by (unfold SIZE_MAX; lia).
    assert (H0 : rearranged l (exchange (end_ - 1) 0 l)).
    { eapply exchange_rearranged; try eassumption; lia. }
    destruct (rearranged_shape _ _ _ Hb Hlen H0) as (b0 & Hb0 & Hcons0 & Hlen0).
    pose proof H0 as (_ & Hc0 & _).
    destruct (sift_down_rearranges (Z.to_nat (end_ - 1)) (end_ - 1) start
                (exchange (end_ - 1) 0 l) b0)
      as (l1 & -> & H1); try assumption; try (rewrite Hc0; lia); try lia.
    simpl.
    assert (H01 : rearranged l l1) by (eapply rearranged_trans; eassumption).
    destruct (rearranged_shape _ _ _ Hb Hlen H01) as (b1 & Hb1 & Hcons1 & Hlen1).
    pose proof H01 as (_ & Hc1 & _).
    destruct (IH start (end_ - 1) l1 b1) as (l' & -> & H2);
      try assumption; try (rewrite Hc1; lia); try lia.
    exists l'. split; [reflexivity|]. eapply rearranged_trans; eassumption.
Qed.

(** [Sort] returns, whatever the comparison, and what it returns holds
  the elements it was given, in some order. *)
Lemma Sort_permutes l :
valid l = true -> Count l < 2 ^ 63 ->
exists l', Sort T_lt compare l = Some l'
  /\ elements l' ≡ₚ elements l
  /\ Count l' = Count l /\ Capacity l' = Capacity l
  /\ valid l' = true.
Proof.
intros Hv Hmax. unfold Count, Capacity, Sort, _HeapSort in *.
pose proof (proj1 (valid_true l) Hv) as ([Hc0 Hc1] & Hcap & Hu & Hb).
destruct (_Elems l) as [b|] eqn:Eb.
- destruct Hb as [Hlen Hcons].
  assert (H2 : 0 <= _Count l / 2 <= _Count l).
  { split; [apply Z.div_pos; lia|]. apply Z.div_le_upper_bound; lia. }
  destruct (heap_loop_rearranges (Z.to_nat (_Count l / 2 + _Count l))
              (_Count l / 2) (_Count l) l b)
    as (l' & -> & Hk & Hc & Hu' & b0 & b' & E & E' & Hlen' & Hcons' & Hp);
    try assumption; try lia.
  rewrite Eb in E. injection E as <-.
  exists l'. split; [reflexivity|]. unfold elements. rewrite E', Eb, Hc.
  split; [exact Hp|]. split; [reflexivity|]. split; [exact Hk|].
  apply valid_true. rewrite E', Hc, Hk, Hu'. repeat split; try assumption; try lia.
- assert (Hz : _Count l = 0) by lia. rewrite Hz. simpl.
  exists l. repeat split; try reflexivity; assumption.
Qed.
End SortingFacts.

(** ** With a comparison that agrees with operator< *)

Section HeapFacts.
Context {T : Type}.
Variable T_lt : T -> T -> bool.
Variable compare : T -> T -> partial_ordering.
Hypothesis compare_lt : forall x y, is_less (compare x y) = T_lt x y.
Hypothesis lt_asym : forall x y, T_lt x y = true -> T_lt y x = false.
Hypothesis not_lt_trans :
  forall x y z, T_lt x y = false -> T_lt y z = false -> T_lt x z = false.
Implicit Types (l : List T) (b : list (slot T)).

Lemma not_below_refl x : not_below T_lt x x.
Proof.
  unfold not_below, slot_lt. destruct x as [x|]; [|reflexivity].
  destruct (T_lt x x) eqn:E; [|reflexivity]. rewrite (lt_asym x x E) in E. discriminate.
Qed.

Lemma not_below_trans x y z :
  is_Some y -> not_below T_lt x y -> not_below T_lt y z -> not_below T_lt x z.
Proof.
  intros [v ->]. unfold not_below, slot_lt.
  destruct x as [x|], z as [z|]; try reflexivity. apply not_lt_trans.
Qed.

Lemma lt_not_below x y : slot_lt T_lt x y = true -> not_below T_lt y x.
Proof.
  unfold not_below, slot_lt. destruct x as [x|], y as [y|]; try discriminate.
  apply lt_asym.
Qed.

Lemma exchange_load cap cnt b u i j :
  inside b i = true -> inside b j = true ->
  exists b', exchange i j (mkList cap cnt (Some b) u) = mkList cap cnt (Some b') u
    /\ forall k, load b' k =
         if k =? i then load b j else if k =? j then load b i else load b k.
Proof.
  intros Hi Hj. rewrite exchange_inside by assumption.
  eexists. split; [reflexivity|]. intros k.
  destruct (k =? i) eqn:E1.
  - apply Z.eqb_eq in E1. subst k.
    apply load_store_same. rewrite inside_store. assumption.
  - apply Z.eqb_neq in E1. rewrite load_store_other by congruence.
    destruct (k =? j) eqn:E2.
    + apply Z.eqb_eq in E2. subst k. apply load_store_same. assumption.
    + apply Z.eqb_neq in E2. apply load_store_other. congruence.
Qed.

Lemma is_less_slot_compare (x y : slot T) :
  is_less (slot_compare compare x y) = slot_lt T_lt x y.
Proof. destruct x, y; simpl; auto. Qed.

Lemma exchange_rearranged_load l b i j :
  _Elems l = Some b -> constructed (_Count l) b = true ->
  _Count l <= Z.of_nat (length b) ->
  0 <= i < _Count l -> 0 <= j < _Count l ->
  exists b1, _Elems (exchange i j l) = Some b1
    /\ rearranged l (exchange i j l)
    /\ constructed (_Count (exchange i j l)) b1 = true
    /\ _Count (exchange i j l) <= Z.of_nat (length b1)
    /\ _Count (exchange i j l) = _Count l
    /\ forall k, load b1 k =
         if k =? i then load b j else if k =? j then load b i else load b k.
Proof.
  intros Hb Hcons Hlen Hi Hj.
  pose proof (exchange_rearranged l b i j Hb Hcons Hlen Hi Hj) as Hr.
  destruct (rearranged_shape _ _ _ Hb Hlen Hr) as (b1 & Hb1 & Hcons1 & Hlen1).
  pose proof Hr as (_ & Hc & _).
  exists b1. split; [exact Hb1|]. split; [exact Hr|]. split; [exact Hcons1|].
  split; [exact Hlen1|]. split; [exact Hc|].
  destruct l as [cap cnt e u]. simpl in *. subst e.
  destruct (exchange_load cap cnt b u i j) as (b' & E & Hload);
    [apply inside_true; lia | apply inside_true; lia |].
  rewrite E in Hb1. simpl in Hb1. injection Hb1 as Hb1. subst b'. exact Hload.
Qed.

(** The sift-down makes a heap of the slots [s .. e - 1] when all nodes
    but [root] were not less than their children, and the parent of
    [root] not less than the children of [root]. *)
Lemma sift_down_heapifies fuel e root s l b :
  _Elems l = Some b -> constructed (_Count l) b = true ->
  _Count l <= Z.of_nat (length b) ->
  0 <= s <= root -> root <= e -> e <= _Count l -> _Count l < 2 ^ 63 ->
  (Z.to_nat (e - root) <= fuel)%nat ->
  (forall i, s <= i < e -> i <> root -> heap_at T_lt b e i) ->
  (forall p c, s <= p -> root = 2 * p + 1 \/ root = 2 * p + 2 ->
     c = 2 * root + 1 \/ c = 2 * root + 2 -> c < e -> not_below T_lt (load b p) (load b c)) ->
  exists l' b', sift_down T_lt compare fuel e root l = Some l'
    /\ _Elems l' = Some b' /\ rearranged l l'
    /\ (forall i, s <= i < e -> heap_at T_lt b' e i)
    /\ (forall j, j < root \/ e <= j -> load b' j = load b j)
    /\ (forall j, root <= j < e -> exists k, root <= k < e /\ load b' j = load b k).
Proof.
  revert root l b.
  induction fuel as [|fuel IH];
    intros root l b Hb Hcons Hlen Hs Hr He Hmax Hf Hheap Hgrand.
  - simpl. rewrite wrap_small by (unfold SIZE_MAX; lia).
    destruct (root * 2 + 1 <? e) eqn:E; [apply Z.ltb_lt in E; lia|].
    apply Z.ltb_ge in E.
    exists l, b. split; [reflexivity|]. split; [exact Hb|].
    split; [eapply rearranged_refl; eassumption|]. split; [|split; [auto | eauto]].
    intros i Hi. destruct (decide (i = root)) as [->|Hne]; [|apply Hheap; assumption].
    intros c Hc Hce. lia.
  - simpl. rewrite !(wrap_small (root * 2 + 1)) by (unfold SIZE_MAX; lia).
    destruct (root * 2 + 1 <? e) eqn:E.
    2:{ apply Z.ltb_ge in E.
        exists l, b. split; [reflexivity|]. split; [exact Hb|].
        split; [eapply rearranged_refl; eassumption|]. split; [|split; [auto | eauto]].
        intros i Hi. destruct (decide (i = root)) as [->|Hne]; [|apply Hheap; assumption].
        intros c Hc Hce. lia. }
    apply Z.ltb_lt in E.
    rewrite !(wrap_small (root * 2 + 1 + 1)) by (unfold SIZE_MAX; lia).
    rewrite is_less_slot_compare. unfold get. rewrite Hb.
    set (m := if (root * 2 + 1 + 1 <? e)
                 && slot_lt T_lt (load b (root * 2 + 1)) (load b (root * 2 + 1 + 1))
              then root * 2 + 1 + 1 else root * 2 + 1).
    assert (Hm : (m = 2 * root + 1 \/ m = 2 * root + 2) /\ m < e
                 /\ forall c, c = 2 * root + 1 \/ c = 2 * root + 2 -> c < e ->
                      not_below T_lt (load b m) (load b c)).
    { unfold m. destruct (root * 2 + 1 + 1 <? e) eqn:E'; simpl.
      - apply Z.ltb_lt in E'.
        destruct (slot_lt T_lt (load b (root * 2 + 1)) (load b (root * 2 + 1 + 1))) eqn:L.
        + split; [lia|]. split; [lia|]. intros c [->| ->] _.
          * replace (2 * root + 1) with (root * 2 + 1) by lia. apply lt_not_below. exact L.
          * replace (2 * root + 2) with (root * 2 + 1 + 1) by lia. apply not_below_refl.
        + split; [lia|]. split; [lia|]. intros c [->| ->] _.
          * replace (2 * root + 1) with (root * 2 + 1) by lia. apply not_below_refl.
          * replace (2 * root + 2) with (root * 2 + 1 + 1) by lia. exact L.
      - apply Z.ltb_ge in E'. split; [lia|]. split; [lia|]. intros c [->| ->] Hc.
        + replace (2 * root + 1) with (root * 2 + 1) by lia. apply not_below_refl.
        + lia. }
    clearbody m. destruct Hm as (Hm1 & Hm2 & Hm3).
    assert (HmS : is_Some (load b m)).
    { rewrite constructed_true in Hcons. apply Hcons. lia. }
    destruct (slot_lt T_lt (load b root) (load b m)) eqn:L.
    2:{ exists l, b. split; [reflexivity|]. split; [exact Hb|].
        split; [eapply rearranged_refl; eassumption|]. split; [|split; [auto | eauto]].
        intros i Hi. destruct (decide (i = root)) as [->|Hne]; [|apply Hheap; assumption].
        intros c Hc Hce. apply (not_below_trans _ (load b m)); [exact HmS | exact L |].
        apply Hm3; assumption. }
    destruct (exchange_rearranged_load l b root m Hb Hcons Hlen)
      as (b1 & Hb1 & Hr1 & Hcons1 & Hlen1 & Hc1 & Hload1); [lia | lia |].
    destruct (IH m (exchange root m l) b1) as (l' & b' & -> & Hb' & Hr' & Hh' & Hout & Hin);
      try assumption; try (rewrite Hc1; lia); try lia.
    + (* the nodes other than [m] *)
      intros i Hi Hne c Hc Hce. rewrite !Hload1.
      destruct (decide (i = root)) as [->|Hne'].
      * rewrite Z.eqb_refl.
        destruct (c =? root) eqn:C1; [apply Z.eqb_eq in C1; lia|].
        destruct (c =? m) eqn:C2.
        -- apply lt_not_below. exact L.
        -- apply Hm3; assumption.
      * destruct (i =? root) eqn:I1; [apply Z.eqb_eq in I1; lia|].
        destruct (i =? m) eqn:I2; [apply Z.eqb_eq in I2; lia|].
        destruct (c =? root) eqn:C1.
        -- apply Z.eqb_eq in C1. subst c. apply (Hgrand i m); try assumption; lia.
        -- destruct (c =? m) eqn:C2; [apply Z.eqb_eq in C2; lia|].
           apply Hheap; try assumption; lia.
    + (* the parent of [m] is [root] *)
      intros p c Hp Hpm Hc Hce. assert (p = root) by lia. subst p.
      rewrite !Hload1, Z.eqb_refl.
      destruct (c =? root) eqn:C1; [apply Z.eqb_eq in C1; lia|].
      destruct (c =? m) eqn:C2; [apply Z.eqb_eq in C2; lia|].
      apply (Hheap m); try assumption; lia.
    + exists l', b'. split; [reflexivity|]. split; [exact Hb'|].
      split; [eapply rearranged_trans; eassumption|]. split; [exact Hh'|]. split.
      * intros j Hj. rewrite Hout by lia. rewrite Hload1.
        destruct (j =? root) eqn:J1; [apply Z.eqb_eq in J1; lia|].
        destruct (j =? m) eqn:J2; [apply Z.eqb_eq in J2; lia|]. reflexivity.
      * intros j Hj. destruct (Z.lt_ge_cases j m) as [Hjm|Hjm].
        -- rewrite Hout by lia. rewrite Hload1.
           destruct (j =? root) eqn:J1; [exists m; split; [lia | reflexivity]|].
           destruct (j =? m) eqn:J2; [apply Z.eqb_eq in J2; lia|].
           exists j. split; [lia | reflexivity].
        -- destruct (Hin j ltac:(lia)) as (k & Hk & ->). rewrite Hload1.
           destruct (k =? root) eqn:K1; [apply Z.eqb_eq in K1; lia|].
           destruct (k =? m) eqn:K2; [exists root; split; [lia | reflexivity]|].
           exists k. split; [lia | reflexivity].
Qed.

(** The root of a heap is not less than any of its nodes. *)
Lemma heap_root_max b e :
  constructed e b = true -> (forall i, 0 <= i < e -> heap_at T_lt b e i) ->
  forall i, 0 <= i < e -> not_below T_lt (load b 0) (load b i).
Proof.
  intros Hcons Hheap.
  assert (Hn : forall n : nat, forall i, 0 <= i <= Z.of_nat n -> i < e ->
                 not_below T_lt (load b 0) (load b i)).
  { induction n as [|n IH]; intros i Hi Hie.
    - assert (i = 0) by lia. subst i. apply not_below_refl.
    - destruct (decide (i = 0)) as [->|Hpos]; [apply not_below_refl|].
      set (p := (i - 1) / 2).
      assert (Hp : 0 <= p < i /\ (i = 2 * p + 1 \/ i = 2 * p + 2)).
      { unfold p. pose proof (Z.div_mod (i - 1) 2 ltac:(lia)).
        pose proof (Z.mod_pos_bound (i - 1) 2 ltac:(lia)). lia. }
      apply (not_below_trans _ (load b p)).
      + rewrite constructed_true in Hcons. apply Hcons. lia.
      + apply IH; lia.
      + apply (Hheap p); lia. }
  intros i Hi. apply (Hn (Z.to_nat i)); lia.
Qed.

(** The outer loop sorts: it first makes a heap of the whole block, then
    moves the root behind the heap, one element at a time. *)
Lemma heap_loop_sorts fuel start end_ l b :
  _Elems l = Some b -> constructed (_Count l) b = true ->
  _Count l <= Z.of_nat (length b) ->
  0 <= start <= end_ -> end_ <= _Count l -> _Count l < 2 ^ 63 ->
  (Z.to_nat (start + end_) <= fuel)%nat ->
  (0 < start -> end_ = _Count l) ->
  (forall i, start <= i < end_ -> heap_at T_lt b end_ i) ->
  (forall j, end_ <= j -> j + 1 < _Count l -> not_below T_lt (load b (j + 1)) (load b j)) ->
  (forall i j, 0 <= i < end_ -> end_ <= j < _Count l -> not_below T_lt (load b j) (load b i)) ->
  exists l' b', heap_loop T_lt compare fuel start end_ l = Some l'
    /\ _Elems l' = Some b' /\ rearranged l l'
    /\ sorted_block T_lt (_Count l) b'.
Proof.
  revert start end_ l b.
  induction fuel as [|fuel IH];
    intros start end_ l b Hb Hcons Hlen Hs He Hmax Hf Hfull Hheap Hsorted Hdom.
  - simpl. destruct (end_ >? 1) eqn:E; [rewrite Z.gtb_ltb in E; apply Z.ltb_lt in E; lia|].
    rewrite Z.gtb_ltb in E. apply Z.ltb_ge in E.
    exists l, b. split; [reflexivity|]. split; [exact Hb|].
    split; [eapply rearranged_refl; eassumption|].
    intros j Hj0 Hj. destruct (Z.le_gt_cases end_ j); [apply Hsorted; assumption|].
    assert (j = 0) by lia. subst j. apply Hdom; lia.
  - simpl. destruct (end_ >? 1) eqn:E.
    2:{ rewrite Z.gtb_ltb in E. apply Z.ltb_ge in E.
        exists l, b. split; [reflexivity|]. split; [exact Hb|].
        split; [eapply rearranged_refl; eassumption|].
        intros j Hj0 Hj. destruct (Z.le_gt_cases end_ j); [apply Hsorted; assumption|].
        assert (j = 0) by lia. subst j. apply Hdom; lia. }
    rewrite Z.gtb_ltb in E. apply Z.ltb_lt in E.
    destruct (start >? 0) eqn:E0.
    + rewrite Z.gtb_ltb in E0. apply Z.ltb_lt in E0.
      rewrite (wrap_small (start - 1)) by (unfold SIZE_MAX; lia).
      specialize (Hfull E0). subst end_.
      destruct (sift_down_heapifies (Z.to_nat (_Count l)) (_Count l) (start - 1) (start - 1) l b)
        as (l1 & b1 & -> & Hb1 & Hr1 & Hh1 & Hout1 & _); try assumption; try lia.
      { intros i Hi Hne. apply Hheap. lia. }
      simpl.
      destruct (rearranged_shape _ _ _ Hb Hlen Hr1) as (b1' & Hb1' & Hcons1 & Hlen1).
      rewrite Hb1 in Hb1'. injection Hb1' as <-.
      pose proof Hr1 as (_ & Hc1 & _).
      destruct (IH (start - 1) (_Count l) l1 b1) as (l' & b' & -> & Hb' & Hr' & Hsort');
        try assumption; try (rewrite Hc1; lia); try lia;
        try (intros; rewrite ?Hc1 in *; lia).
      exists l', b'. split; [reflexivity|]. split; [exact Hb'|].
      split; [eapply rearranged_trans; eassumption|]. rewrite <- Hc1. exact Hsort'.
    + rewrite Z.gtb_ltb in E0. apply Z.ltb_ge in E0.
      assert (start = 0) by lia. subst start. clear E0 Hfull.
      rewrite !(wrap_small (end_ - 1)) by (unfold SIZE_MAX; lia).
      destruct (exchange_rearranged_load l b (end_ - 1) 0 Hb Hcons Hlen)
        as (b1 & Hb1 & Hr1 & Hcons1 & Hlen1 & Hc1 & Hload1); [lia | lia |].
      destruct (sift_down_heapifies (Z.to_nat (end_ - 1)) (end_ - 1) 0 0
                  (exchange (end_ - 1) 0 l) b1)
        as (l2 & b2 & -> & Hb2 & Hr2 & Hh2 & Hout2 & Hin2);
        try assumption; try (rewrite Hc1; lia); try lia.
      { intros i Hi Hne c Hc Hce. rewrite !Hload1.
        destruct (i =? end_ - 1) eqn:I1; [apply Z.eqb_eq in I1; lia|].
        destruct (i =? 0) eqn:I2; [apply Z.eqb_eq in I2; lia|].
        destruct (c =? end_ - 1) eqn:C1; [apply Z.eqb_eq in C1; lia|].
        destruct (c =? 0) eqn:C2; [apply Z.eqb_eq in C2; lia|].
        apply (Hheap i); [lia | assumption | lia]. }
      simpl.
      assert (Hr12 : rearranged l l2) by (eapply rearranged_trans; eassumption).
      destruct (rearranged_shape _ _ _ Hb Hlen Hr12) as (b2' & Hb2' & Hcons2 & Hlen2).
      rewrite Hb2 in Hb2'. injection Hb2' as <-.
      pose proof Hr12 as (_ & Hc2 & _).
      assert (Hmaxb : forall i, 0 <= i < end_ -> not_below T_lt (load b 0) (load b i)).
      { apply heap_root_max; [|exact Hheap].
        apply constructed_true. intros i Hi. rewrite constructed_true in Hcons.
        apply Hcons. lia. }
      assert (Hprefix : forall i, 0 <= i < end_ - 1 ->
                exists k, 0 <= k < end_ /\ load b2 i = load b k).
      { intros i Hi. destruct (Hin2 i Hi) as (k & Hk & ->). rewrite Hload1.
        destruct (k =? end_ - 1) eqn:K1; [apply Z.eqb_eq in K1; lia|].
        destruct (k =? 0) eqn:K2; [exists (end_ - 1); split; [lia | reflexivity]|].
        exists k. split; [lia | reflexivity]. }
      assert (Hsuffix : forall j, end_ - 1 <= j ->
                load b2 j = if j =? end_ - 1 then load b 0 else load b j).
      { intros j Hj. rewrite Hout2 by lia. rewrite Hload1.
        destruct (j =? end_ - 1) eqn:J1; [reflexivity|].
        destruct (j =? 0) eqn:J2; [apply Z.eqb_eq in J2; lia|]. reflexivity. }
      destruct (IH 0 (end_ - 1) l2 b2) as (l' & b' & -> & Hb' & Hr' & Hsort');
        try assumption; try (rewrite Hc2; lia); try lia.
      * intros j Hj Hj'. rewrite Hc2 in Hj'. rewrite !Hsuffix by lia.
        destruct (j + 1 =? end_ - 1) eqn:J1; [apply Z.eqb_eq in J1; lia|].
        destruct (j =? end_ - 1) eqn:J2.
        -- apply Z.eqb_eq in J2. subst j.
           replace (end_ - 1 + 1) with end_ by lia. apply Hdom; lia.
        -- apply Z.eqb_neq in J2. apply Hsorted; lia.
      * intros i j Hi Hj. rewrite Hc2 in Hj.
        destruct (Hprefix i Hi) as (k & Hk & ->). rewrite Hsuffix by lia.
        destruct (j =? end_ - 1) eqn:J1; [apply Hmaxb; lia|].
        apply Z.eqb_neq in J1. apply Hdom; lia.
      * exists l', b'. split; [reflexivity|]. split; [exact Hb'|].
        split; [eapply rearranged_trans; eassumption|]. rewrite <- Hc2. exact Hsort'.
Qed.

Lemma nondecreasing_adjacent (xs : list T) :
  (forall i x y, xs !! i = Some x -> xs !! S i = Some y -> is_less (compare y x) = false) ->
  nondecreasing compare xs = true.
Proof.
  induction xs as [|x xs IH]; intros H; [reflexivity|].
  destruct xs as [|y xs]; [reflexivity|].
  change (negb (is_less (compare y x)) && nondecreasing compare (y :: xs) = true).
  rewrite (H 0%nat x y eq_refl eq_refl). simpl negb. rewrite andb_true_l.
  apply IH. intros i a c Ha Hc. apply (H (S i) a c); assumption.
Qed.

(** With a comparison that agrees with [operator<], itself an ordering
    ([a < b] excludes [b < a], and "not less" is transitive), [Sort]
    sorts. *)
Lemma Sort_sorts l :
  valid l = true -> Count l < 2 ^ 63 ->
  exists l', Sort T_lt compare l = Some l'
    /\ elements l' ≡ₚ elements l
    /\ nondecreasing compare (elements l') = true
    /\ Count l' = Count l /\ Capacity l' = Capacity l
    /\ valid l' = true.
Proof.
  intros Hv Hmax. unfold Count, Capacity, Sort, _HeapSort in *.
  pose proof (proj1 (valid_true l) Hv) as ([Hc0 Hc1] & Hcap & Hu & Hb).
  destruct (_Elems l) as [b|] eqn:Eb.
  - destruct Hb as [Hlen Hcons].
    assert (H2 : 0 <= _Count l / 2 <= _Count l).
    { split; [apply Z.div_pos; lia|]. apply Z.div_le_upper_bound; lia. }
    assert (Hhalf : _Count l < 2 * (_Count l / 2) + 2).
    { pose proof (Z.mod_pos_bound (_Count l) 2 ltac:(lia)).
      pose proof (Z.div_mod (_Count l) 2 ltac:(lia)). lia. }
    destruct (heap_loop_sorts (Z.to_nat (_Count l / 2 + _Count l))
                (_Count l / 2) (_Count l) l b)
      as (l' & b' & -> & Hb' & Hr & Hsort); try assumption; try lia.
    { intros i Hi c Hc Hce. lia. }
    destruct Hr as (Hk & Hc & Hu' & b0 & b0' & E & E' & Hlen' & Hcons' & Hp).
    rewrite Eb in E. injection E as <-. rewrite Hb' in E'. injection E' as <-.
    exists l'. split; [reflexivity|]. unfold elements. rewrite Hb', Eb, Hc.
    split; [exact Hp|]. split; [|split; [reflexivity|split; [exact Hk|]]].
    + apply nondecreasing_adjacent. intros i x y Hx Hy.
      assert (Hi : Z.of_nat (S i) < _Count l).
      { apply lookup_lt_Some in Hy.
        pose proof (length_objects (_Count l) b' ltac:(lia) Hcons'). lia. }
      rewrite <- (Nat2Z.id i) in Hx. rewrite <- (Nat2Z.id (S i)) in Hy.
      rewrite lookup_objects in Hx, Hy by (assumption || lia).
      specialize (Hsort (Z.of_nat i) ltac:(lia) ltac:(lia)).
      replace (Z.of_nat i + 1) with (Z.of_nat (S i)) in Hsort by lia.
      unfold not_below in Hsort. rewrite Hx, Hy in Hsort. simpl in Hsort.
      rewrite compare_lt. exact Hsort.
    + apply valid_true. rewrite Hb', Hc, Hk, Hu'. repeat split; try assumption; try lia.
  - assert (Hz : _Count l = 0) by lia. rewrite Hz. simpl.
    exists l. unfold elements. rewrite Eb.
    repeat split; try reflexivity; assumption.
Qed.
End HeapFacts.

(** The natural ordering of [int] agrees with its [operator<]. *)
Lemma Sort_natural_sorts (l : List Z) :
  valid l = true -> Count l < 2 ^ 63 ->
  exists l', Sort Z.ltb natural l = Some l'
    /\ elements l' ≡ₚ elements l
    /\ nondecreasing natural (elements l') = true
    /\ Count l' = Count l /\ Capacity l' = Capacity l
    /\ valid l' = true.
Proof.
  apply Sort_sorts.
  - intros x y. unfold natural, Z.ltb. destruct (x ?= y); reflexivity.
  - intros x y H. apply Z.ltb_lt in H. apply Z.ltb_ge. lia.
  - intros x y z H1 H2. apply Z.ltb_ge in H1, H2. apply Z.ltb_ge. lia.
Qed.

(** [Sort()] with the natural ordering sorts every permutation of
    [5; 3; 1; 4; 2]. *)
Lemma Sort_natural_permutations :
  Forall (fun vs => elements <$> Sort Z.ltb natural (Adds vs) = Some [1; 2; 3; 4; 5])
    (permutations [5; 3; 1; 4; 2]).
Proof.
  assert (H : forallb
                (fun vs => bool_decide
                   (elements <$> Sort Z.ltb natural (Adds vs) = Some [1; 2; 3; 4; 5]))
                (permutations [5; 3; 1; 4; 2]) = true) by (vm_compute; reflexivity).
  rewrite forallb_forall in H. apply Forall_forall. intros vs Hvs.
  apply list_elem_of_In in Hvs. apply H in Hvs.
  apply bool_decide_eq_true in Hvs. exact Hvs.
Qed.

Lemma Sort_natural_sorted_or_empty :
  elements <$> Sort Z.ltb natural (Adds [1; 2; 3; 4; 5]) = Some [1; 2; 3; 4; 5]
  /\ Sort Z.ltb natural (Adds []) = Some (Adds []).
Proof. vm_compute. split; reflexivity. Qed.

(** C3.  The sift-down picks the larger child by [compare] and then tests
    the root against it by [operator<]: with the descending comparison,
    [Sort] turns [1; 2; 3] into [1; 3; 2], which that comparison does not
    order. *)
Theorem Sort_ignores_comparison_in_sift :
  exists l', Sort Z.ltb reversed (Adds [1; 2; 3]) = Some l'
    /\ elements l' = [1; 3; 2]
    /\ nondecreasing reversed (elements l') = false
    /\ nondecreasing reversed [3; 2; 1] = true.
Proof. eexists. split; [vm_compute; reflexivity|]. repeat split. Qed.


(** * The examples of the description, run on the model *)

Lemma Insert_at_Count_is_Add {T : Type} (what : T) (l : List T) :
  Insert (Count l) what l = Returns tt (Add what l).
Proof. unfold Insert, Count. rewrite Z.eqb_refl. reflexivity. Qed.

Example RemoveAt_second_of_four :
  exists l', RemoveAt 0 1 (Adds [10; 20; 30; 40]) = Returns tt l'
    /\ elements l' = [10; 30; 40] /\ Count l' = 3.
Proof. eexists. split; [vm_compute; reflexivity|]. split; reflexivity. Qed.

Example RemoveRange_middle_of_four :
  exists l', RemoveRange 0 1 2 (Adds [10; 20; 30; 40]) = Returns tt l'
    /\ elements l' = [10; 40] /\ Count l' = 2.
Proof. eexists. split; [vm_compute; reflexivity|]. split; reflexivity. Qed.

Example Insert_beyond_Count :
  Insert 4 7 (Adds [1; 2; 3]) = Throws (out_of_range "index") (Adds [1; 2; 3]).
Proof. reflexivity. Qed.

Example IndexOf_absent_is_sentinel :
  IndexOf Z.eqb 5 (Adds [1; 2; 3]) = SIZE_MAX.
Proof. reflexivity. Qed.

(** * The queries *)

Lemma first_index_Some lo hi (p : Z -> bool) i :
  first_index lo hi p = Some i ->
  lo <= i < hi /\ p i = true /\ forall j, lo <= j < i -> p j = false.
Proof.
  unfold first_index.
  assert (G : forall (n : nat) lo, List.find p (seqZ lo (Z.of_nat n)) = Some i ->
            lo <= i < lo + Z.of_nat n /\ p i = true /\ forall j, lo <= j < i -> p j = false).
  { induction n as [|n IH]; intros lo' H'.
    - discriminate.
    - rewrite seqZ_cons in H' by lia. simpl in H'. destruct (p lo') eqn:E.
      + injection H' as <-. split; [lia|]. split; [assumption|]. intros; lia.
      + replace (Z.pred (Z.of_nat (S n))) with (Z.of_nat n) in H' by lia.
        destruct (IH _ H') as (A & B & C). split; [lia|]. split; [assumption|].
        intros j Hj. destruct (decide (j = lo')) as [->|]; [assumption | apply C; lia]. }
  intros H. destruct (Z.le_gt_cases (hi - lo) 0) as [Hn|Hn].
  - rewrite seqZ_nil in H by lia. discriminate.
  - specialize (G (Z.to_nat (hi - lo)) lo). rewrite Z2Nat.id in G by lia.
    destruct (G H) as (A & B & C). split; [lia|]. split; assumption.
Qed.

Lemma first_index_None lo hi (p : Z -> bool) :
  first_index lo hi p = None -> forall j, lo <= j < hi -> p j = false.
Proof.
  unfold first_index. intros H j Hj. apply (find_none _ _ H).
  apply list_elem_of_In, elem_of_seqZ. lia.
Qed.

Section Searching.
Context {T : Type}.
Variable T_eq : T -> T -> bool.
Implicit Types (l : List T).

Lemma get_elements l i :
  valid l = true -> 0 <= i < _Count l ->
  exists x, get l i = Some x /\ elements l !! Z.to_nat i = Some x.
Proof.
  intros Hv Hi. pose proof (lookup_elements l i Hv Hi) as E.
  pose proof (length_elements l Hv) as Hlen.
  destruct (lookup_lt_is_Some_2 (elements l) (Z.to_nat i) ltac:(lia)) as [x Hx].
  exists x. split; [congruence | assumption].
Qed.

(** The forward scan of [Contains], [Exists], [Find], [FindIndex] and
    [IndexOf]. *)
Lemma scan_forward (match_ : T -> bool) l :
  valid l = true ->
  match first_index 0 (_Count l) (fun i => slot_test match_ (get l i)) with
  | Some i =>
      0 <= i < _Count l
      /\ (exists x, elements l !! Z.to_nat i = Some x /\ match_ x = true)
      /\ Forall (fun y => match_ y = false) (take (Z.to_nat i) (elements l))
  | None => Forall (fun y => match_ y = false) (elements l)
  end.
Proof.
  intros Hv. destruct (first_index _ _ _) as [i|] eqn:E.
  - apply first_index_Some in E. destruct E as (Hi & Hp & Hbefore).
    split; [assumption|]. split.
    + destruct (get_elements l i Hv Hi) as (x & Hg & Hx). rewrite Hg in Hp.
      exists x. split; assumption.
    + apply Forall_lookup. intros k y Hk.
      apply lookup_take_Some in Hk. destruct Hk as [Hk Hlt].
      specialize (Hbefore (Z.of_nat k) ltac:(lia)). cbv beta in Hbefore.
      destruct (get_elements l (Z.of_nat k) Hv ltac:(lia)) as (x & Hg & Hx).
      rewrite Nat2Z.id in Hx. rewrite Hg in Hbefore. simpl in Hbefore. congruence.
  - pose proof (first_index_None _ _ _ E) as Hnone.
    apply Forall_lookup. intros k y Hk.
    pose proof (length_elements l Hv) as Hlen.
    apply lookup_lt_Some in Hk as Hlt.
    specialize (Hnone (Z.of_nat k) ltac:(lia)). cbv beta in Hnone.
    destruct (get_elements l (Z.of_nat k) Hv ltac:(lia)) as (x & Hg & Hx).
    rewrite Nat2Z.id in Hx. rewrite Hg in Hnone. simpl in Hnone. congruence.
Qed.

(** The backward scan of [FindLast], [FindLastIndex] and [LastIndexOf]. *)
Lemma scan_backward (match_ : T -> bool) l :
  valid l = true ->
  match first_index 0 (_Count l)
          (fun i => slot_test match_ (get l (wrap (_Count l - i - 1)))) with
  | Some i =>
      0 <= i < _Count l /\ wrap (_Count l - i - 1) = _Count l - i - 1
      /\ (exists x, elements l !! Z.to_nat (_Count l - i - 1) = Some x /\ match_ x = true)
      /\ Forall (fun y => match_ y = false) (drop (S (Z.to_nat (_Count l - i - 1))) (elements l))
  | None => Forall (fun y => match_ y = false) (elements l)
  end.
Proof.
  intros Hv. pose proof Hv as Hv'. apply valid_true in Hv'.
  destruct Hv' as (Hc & Hmax & _).
  pose proof (length_elements l Hv) as Hlen.
  destruct (first_index _ _ _) as [i|] eqn:E.
  - apply first_index_Some in E. destruct E as (Hi & Hp & Hbefore).
    split; [assumption|].
    assert (Hw : wrap (_Count l - i - 1) = _Count l - i - 1) by (apply wrap_small; lia).
    split; [assumption|]. rewrite Hw in Hp. split.
    + destruct (get_elements l (_Count l - i - 1) Hv ltac:(lia)) as (x & Hg & Hx).
      rewrite Hg in Hp. exists x. split; assumption.
    + apply Forall_lookup. intros k y Hk. rewrite lookup_drop in Hk.
      apply lookup_lt_Some in Hk as Hlt.
      specialize (Hbefore (i - 1 - Z.of_nat k) ltac:(lia)). cbv beta in Hbefore.
      rewrite wrap_small in Hbefore by lia.
      destruct (get_elements l (_Count l - (i - 1 - Z.of_nat k) - 1) Hv ltac:(lia))
        as (x & Hg & Hx).
      replace (Z.to_nat (_Count l - (i - 1 - Z.of_nat k) - 1))
        with (S (Z.to_nat (_Count l - i - 1)) + k)%nat in Hx by lia.
      rewrite Hg in Hbefore. simpl in Hbefore. congruence.
  - pose proof (first_index_None _ _ _ E) as Hnone.
    apply Forall_lookup. intros k y Hk.
    apply lookup_lt_Some in Hk as Hlt.
    specialize (Hnone (_Count l - 1 - Z.of_nat k) ltac:(lia)). cbv beta in Hnone.
    rewrite wrap_small in Hnone by lia.
    destruct (get_elements l (_Count l - (_Count l - 1 - Z.of_nat k) - 1) Hv ltac:(lia))
      as (x & Hg & Hx).
    replace (Z.to_nat (_Count l - (_Count l - 1 - Z.of_nat k) - 1)) with k in Hx by lia.
    rewrite Hg in Hnone. simpl in Hnone. congruence.
Qed.

Lemma existsb_Forall_false {A} (q : A -> bool) (xs : list A) :
  Forall (fun y => q y = false) xs -> existsb q xs = false.
Proof. induction 1 as [|x xs Hx _ IH]; simpl; [reflexivity|]. rewrite Hx. exact IH. Qed.

Lemma existsb_lookup {A} (q : A -> bool) (xs : list A) k x :
  xs !! k = Some x -> q x = true -> existsb q xs = true.
Proof.
  intros Hk Hq. apply existsb_exists. exists x. split; [|assumption].
  apply list_elem_of_In. eapply list_elem_of_lookup_2. exact Hk.
Qed.

Lemma sentinel_is_SIZE_MAX : wrap (-1) = SIZE_MAX.
Proof. reflexivity. Qed.


(** The two scans find an element together or not at all, the forward
    one not after the backward one. *)
Lemma scans_agree (match_ : T -> bool) l :
  valid l = true ->
  match first_index 0 (_Count l) (fun i => slot_test match_ (get l i)),
        first_index 0 (_Count l)
          (fun i => slot_test match_ (get l (wrap (_Count l - i - 1)))) with
  | Some i, Some k =>
      0 <= i <= _Count l - k - 1 /\ _Count l - k - 1 < _Count l
      /\ wrap (_Count l - k - 1) = _Count l - k - 1
  | None, None => True
  | _, _ => False
  end.
Proof.
  intros Hv. pose proof (scan_forward match_ l Hv) as Hf.
  pose proof (scan_backward match_ l Hv) as Hb.
  destruct (first_index 0 (_Count l) (fun i => slot_test match_ (get l i))) as [i|].
  - destruct Hf as (Hi & (x & Hx & Hq) & Hbefore).
    destruct (first_index _ _ _) as [k|].
    + destruct Hb as (Hk & Hw & (y & Hy & Hqy) & _).
      split; [|split; [lia | exact Hw]]. split; [lia|].
      destruct (Z.le_gt_cases i (_Count l - k - 1)) as [Hle|Hgt]; [exact Hle|].
      exfalso. rewrite Forall_lookup in Hbefore.
      specialize (Hbefore (Z.to_nat (_Count l - k - 1)) y).
      rewrite lookup_take_lt in Hbefore by lia. specialize (Hbefore Hy). congruence.
    + rewrite Forall_lookup in Hb. specialize (Hb _ _ Hx). congruence.
  - destruct (first_index _ _ _) as [k|]; [|exact I].
    destruct Hb as (Hk & _ & (y & Hy & Hqy) & _).
    rewrite Forall_lookup in Hf. specialize (Hf _ _ Hy). congruence.
Qed.

(** X1.  [IndexOf(what)] on a list in its meant state: when no element
    equals [what] it returns the sentinel [(std::size_t)(-1)], which is
    no index of the list; otherwise it returns the index of the first
    element that equals [what]. *)
Theorem IndexOf_first_occurrence (what : T) l :
  valid l = true ->
  (IndexOf T_eq what l = SIZE_MAX
   /\ Forall (fun y => T_eq y what = false) (elements l))
  \/ (0 <= IndexOf T_eq what l < Count l /\ IndexOf T_eq what l < SIZE_MAX
      /\ (exists x, elements l !! Z.to_nat (IndexOf T_eq what l) = Some x
                    /\ T_eq x what = true)
      /\ Forall (fun y => T_eq y what = false)
           (take (Z.to_nat (IndexOf T_eq what l)) (elements l))).
Proof.
  intros Hv. pose proof (scan_forward (fun x => T_eq x what) l Hv) as H.
  pose proof Hv as Hv'. apply valid_true in Hv'. destruct Hv' as (Hc & Hmax & _).
  unfold IndexOf, Count.
  change (fun i => slot_eq T_eq (get l i) what)
    with (fun i => slot_test (fun x => T_eq x what) (get l i)).
  destruct (first_index _ _ _) as [i|].
  - right. destruct H as (Hi & Hx & Hb). repeat split; try assumption; lia.
  - left. split; [reflexivity | assumption].
Qed.

(** X2.  [FindIndex(match)]: the sentinel when no element satisfies
    [match], else the index of the first element that does. *)
Theorem FindIndex_first_match (match_ : T -> bool) l :
  valid l = true ->
  (FindIndex match_ l = SIZE_MAX
   /\ Forall (fun y => match_ y = false) (elements l))
  \/ (0 <= FindIndex match_ l < Count l /\ FindIndex match_ l < SIZE_MAX
      /\ (exists x, elements l !! Z.to_nat (FindIndex match_ l) = Some x
                    /\ match_ x = true)
      /\ Forall (fun y => match_ y = false)
           (take (Z.to_nat (FindIndex match_ l)) (elements l))).
Proof.
  intros Hv. pose proof (scan_forward match_ l Hv) as H.
  pose proof Hv as Hv'. apply valid_true in Hv'. destruct Hv' as (Hc & Hmax & _).
  unfold FindIndex, Count.
  destruct (first_index _ _ _) as [i|].
  - right. destruct H as (Hi & Hx & Hb). repeat split; try assumption; lia.
  - left. split; [reflexivity | assumption].
Qed.

(** X3.  [LastIndexOf(what)]: the sentinel when no element equals
    [what], else the index of the last element that does. *)
Theorem LastIndexOf_last_occurrence (what : T) l :
  valid l = true ->
  (LastIndexOf T_eq what l = SIZE_MAX
   /\ Forall (fun y => T_eq y what = false) (elements l))
  \/ (0 <= LastIndexOf T_eq what l < Count l /\ LastIndexOf T_eq what l < SIZE_MAX
      /\ (exists x, elements l !! Z.to_nat (LastIndexOf T_eq what l) = Some x
                    /\ T_eq x what = true)
      /\ Forall (fun y => T_eq y what = false)
           (drop (S (Z.to_nat (LastIndexOf T_eq what l))) (elements l))).
Proof.
  intros Hv. pose proof (scan_backward (fun x => T_eq x what) l Hv) as H.
  pose proof Hv as Hv'. apply valid_true in Hv'. destruct Hv' as (Hc & Hmax & _).
  unfold LastIndexOf, Count.
  change (fun i => slot_eq T_eq (get l (wrap (_Count l - i - 1))) what)
    with (fun i => slot_test (fun x => T_eq x what) (get l (wrap (_Count l - i - 1)))).
  destruct (first_index _ _ _) as [i|].
  - right. destruct H as (Hi & -> & Hx & Hb). repeat split; try assumption; lia.
  - left. split; [reflexivity | assumption].
Qed.

(** X4.  [FindLastIndex(match)]: the sentinel when no element satisfies
    [match], else the index of the last element that does. *)
Theorem FindLastIndex_last_match (match_ : T -> bool) l :
  valid l = true ->
  (FindLastIndex match_ l = SIZE_MAX
   /\ Forall (fun y => match_ y = false) (elements l))
  \/ (0 <= FindLastIndex match_ l < Count l /\ FindLastIndex match_ l < SIZE_MAX
      /\ (exists x, elements l !! Z.to_nat (FindLastIndex match_ l) = Some x
                    /\ match_ x = true)
      /\ Forall (fun y => match_ y = false)
           (drop (S (Z.to_nat (FindLastIndex match_ l))) (elements l))).
Proof.
  intros Hv. pose proof (scan_backward match_ l Hv) as H.
  pose proof Hv as Hv'. apply valid_true in Hv'. destruct Hv' as (Hc & Hmax & _).
  unfold FindLastIndex, Count.
  destruct (first_index _ _ _) as [i|].
  - right. destruct H as (Hi & -> & Hx & Hb). repeat split; try assumption; lia.
  - left. split; [reflexivity | assumption].
Qed.

(** X5.  [Contains(what)] tells whether some element equals [what], and
    agrees with [IndexOf]: it is true exactly when [IndexOf] does not
    return the sentinel. *)
Theorem Contains_is_membership (what : T) l :
  valid l = true ->
  Contains T_eq what l = existsb (fun x => T_eq x what) (elements l)
  /\ Contains T_eq what l = negb (IndexOf T_eq what l =? SIZE_MAX).
Proof.
  intros Hv. pose proof (scan_forward (fun x => T_eq x what) l Hv) as H.
  pose proof Hv as Hv'. apply valid_true in Hv'. destruct Hv' as (Hc & Hmax & _).
  unfold Contains, IndexOf.
  change (fun i => slot_eq T_eq (get l i) what)
    with (fun i => slot_test (fun x => T_eq x what) (get l i)).
  destruct (first_index _ _ _) as [i|].
  - destruct H as (Hi & (x & Hx & Hq) & _). split.
    + symmetry. exact (existsb_lookup _ _ _ _ Hx Hq).
    + symmetry. apply negb_true_iff, Z.eqb_neq. lia.
  - split.
    + symmetry. apply existsb_Forall_false. exact H.
    + reflexivity.
Qed.

(** X6.  [Exists(match)] tells whether some element satisfies [match],
    and agrees with [FindIndex]. *)
Theorem Exists_is_existence (match_ : T -> bool) l :
  valid l = true ->
  Exists match_ l = existsb match_ (elements l)
  /\ Exists match_ l = negb (FindIndex match_ l =? SIZE_MAX).
Proof.
  intros Hv. pose proof (scan_forward match_ l Hv) as H.
  pose proof Hv as Hv'. apply valid_true in Hv'. destruct Hv' as (Hc & Hmax & _).
  unfold Exists, FindIndex.
  destruct (first_index _ _ _) as [i|].
  - destruct H as (Hi & (x & Hx & Hq) & _). split.
    + symmetry. exact (existsb_lookup _ _ _ _ Hx Hq).
    + symmetry. apply negb_true_iff, Z.eqb_neq. lia.
  - split.
    + symmetry. apply existsb_Forall_false. exact H.
    + reflexivity.
Qed.

(** X7.  [Find(match)] and [FindLast(match)] return a reference to the
    element at [FindIndex(match)] and [FindLastIndex(match)] when some
    element satisfies [match]; when none does, both return a reference
    to the temporary [T()], which no longer exists, and never an element
    of the list. *)
Theorem Find_refers_to_match (match_ : T -> bool) l :
  valid l = true ->
  if Exists match_ l
  then Find match_ l = ref_element (FindIndex match_ l)
       /\ FindLast match_ l = ref_element (FindLastIndex match_ l)
       /\ 0 <= FindIndex match_ l <= FindLastIndex match_ l
       /\ FindLastIndex match_ l < Count l
  else Find match_ l = ref_temporary /\ FindLast match_ l = ref_temporary.
Proof.
  intros Hv. pose proof (scans_agree match_ l Hv) as H.
  unfold Exists, Find, FindLast, FindIndex, FindLastIndex, Count.
  destruct (first_index 0 (_Count l) (fun i => slot_test match_ (get l i))) as [i|];
    destruct (first_index _ _ _) as [k|]; try contradiction.
  - destruct H as (H1 & H2 & ->). repeat split; try reflexivity; lia.
  - split; reflexivity.
Qed.

(** X8.  When the list contains [what], [IndexOf] and [LastIndexOf] are
    indices of the list, the first not after the second. *)
Theorem IndexOf_le_LastIndexOf (what : T) l :
  valid l = true -> Contains T_eq what l = true ->
  0 <= IndexOf T_eq what l <= LastIndexOf T_eq what l
  /\ LastIndexOf T_eq what l < Count l.
Proof.
  intros Hv Hc.
  pose proof (scans_agree (fun x => T_eq x what) l Hv) as H.
  unfold Contains in Hc. unfold IndexOf, LastIndexOf, Count.
  change (fun i => slot_eq T_eq (get l i) what)
    with (fun i => slot_test (fun x => T_eq x what) (get l i)) in *.
  change (fun i => slot_eq T_eq (get l (wrap (_Count l - i - 1))) what)
    with (fun i => slot_test (fun x => T_eq x what) (get l (wrap (_Count l - i - 1)))).
  destruct (first_index 0 (_Count l) (fun i => slot_test (fun x => T_eq x what) (get l i)));
    [|discriminate].
  destruct (first_index _ _ _) as [k|]; [|contradiction].
  destruct H as (H1 & H2 & ->). split; assumption.
Qed.
End Searching.

(** * Constructors, copy assignment and AddRange *)

Lemma for_loop_ext_on {St} (P : Z -> St -> Prop) lo hi (body body' : Z -> St -> St) s :
  lo <= hi -> P lo s ->
  (forall i s, lo <= i < hi -> P i s -> P (i + 1) (body' i s)) ->
  (forall i s, lo <= i < hi -> P i s -> body i s = body' i s) ->
  for_loop lo hi body s = for_loop lo hi body' s.
Proof.
  intros Hle H0 Hstep Hext.
  assert (H : for_loop lo hi body s = for_loop lo hi body' s
              /\ P hi (for_loop lo hi body s)); [|apply H].
  apply (for_loop_invariant
           (fun i st => st = for_loop lo i body' s /\ P i st)); [assumption | |].
  - rewrite for_loop_empty by lia. split; [reflexivity | assumption].
  - intros i st Hi [-> HP]. rewrite for_loop_last by lia.
    rewrite (Hext i _ Hi HP). split; [reflexivity|]. apply Hstep; assumption.
Qed.

Section Building.
Context {T : Type}.
Variable T_default : T.
Implicit Types (l a : List T) (b : list (slot T)).

Lemma valid_cases l :
  valid l = true ->
  l = List_new
  \/ exists cap cnt b, l = mkList cap cnt (Some b) false
       /\ Z.of_nat (length b) = cap
       /\ constructed cnt b = true
       /\ 0 <= cnt <= cap /\ cap <= SIZE_MAX.
Proof.
  intros Hv. apply valid_true in Hv. destruct l as [cap cnt [b|] u]; simpl in *.
  - right. destruct Hv as (Hc & Hmax & -> & Hlen & Hcons).
    exists cap, cnt, b. repeat split; try assumption; lia.
  - left. destruct Hv as (Hc & Hmax & -> & ->).
    assert (cnt = 0) as -> by lia. reflexivity.
Qed.

Lemma valid_block cap cnt b :
  0 <= cnt <= cap -> cap <= SIZE_MAX -> Z.of_nat (length b) = cap ->
  (forall j, 0 <= j < cnt -> is_Some (load b j)) ->
  valid (mkList cap cnt (Some b) false) = true.
Proof.
  intros Hc Hmax Hlen Hcons. apply valid_true. simpl.
  split; [assumption|]. split; [assumption|]. split; [reflexivity|].
  split; [assumption|]. apply constructed_true. assumption.
Qed.

Lemma objects_replicate n (d : T) b :
  0 <= n -> (forall j, 0 <= j < n -> load b j = Some d) ->
  objects n b = replicate (Z.to_nat n) d.
Proof.
  intros Hn H. unfold objects.
  rewrite (omap_seqZ_ext _ (fun j => (replicate (Z.to_nat n) d) !! Z.to_nat j)).
  - pose proof (omap_seqZ_lookup (replicate (Z.to_nat n) d)) as E.
    rewrite length_replicate, Z2Nat.id in E by lia. exact E.
  - intros j Hj. rewrite H by lia. symmetry. apply lookup_replicate_2. lia.
Qed.

Lemma objects_of_list (xs : list T) b :
  (forall j, 0 <= j < Z.of_nat (length xs) -> load b j = xs !! Z.to_nat j) ->
  objects (Z.of_nat (length xs)) b = xs.
Proof.
  intros H. unfold objects. etransitivity; [|exact (omap_seqZ_lookup xs)].
  apply omap_seqZ_ext. intros j Hj. apply H. lia.
Qed.

Lemma objects_fmap {U} (f : T -> U) n b (b' : list (slot U)) :
  (forall j, 0 <= j < n -> load b' j = f <$> load b j) ->
  objects n b' = f <$> objects n b.
Proof.
  intros H. unfold objects.
  assert (HF : Forall (fun j => load b' j = f <$> load b j) (seqZ 0 n)).
  { apply Forall_seqZ. intros j Hj. apply H. lia. }
  induction HF as [|x xs Hx _ IH]; [reflexivity|].
  cbn [omap list_omap]. rewrite Hx. destruct (load b x); cbn; [f_equal|]; exact IH.
Qed.

Lemma _Reallocate_valid new_capacity l :
  valid l = true -> _Count l <= new_capacity <= SIZE_MAX ->
  exists b', _Reallocate new_capacity l = mkList new_capacity (_Count l) (Some b') false
    /\ Z.of_nat (length b') = new_capacity
    /\ forall j, 0 <= j < _Count l -> load b' j = get l j.
Proof.
  intros Hv Hnew.
  destruct (valid_cases l Hv) as [->|(cap & cnt & b & -> & Hlen & Hcons & Hc & Hmax)].
  - exists (allocate new_capacity). split; [reflexivity|]. split.
    + rewrite length_allocate. simpl in Hnew. lia.
    + simpl. intros; lia.
  - exact (_Reallocate_moves cap cnt b new_capacity Hv Hnew).
Qed.

Lemma List_sized_spec n :
  0 <= n <= SIZE_MAX ->
  exists b, List_sized T_default n = mkList n n (Some b) false
    /\ Z.of_nat (length b) = n
    /\ forall j, 0 <= j < n -> load b j = Some T_default.
Proof.
  intros Hn. unfold List_sized.
  destruct (put_loop n n (allocate n) false (fun i => i) (fun _ => Some T_default) 0 n 0)
    as (b & E & Hlen & Hload); [lia | intros; lia | lia | rewrite length_allocate; lia |].
  exists b. split; [exact E|]. split.
  - rewrite Hlen, length_allocate. lia.
  - intros j Hj. rewrite Hload.
    destruct (0 + 0 <=? j) eqn:A1, (j <? n + 0) eqn:A2; try lia. reflexivity.
Qed.

(** X9.  [List(n)] holds [n] default-constructed elements; its count and
    its capacity are [n]. *)
Theorem List_sized_default n :
  0 <= n <= SIZE_MAX ->
  elements (List_sized T_default n) = replicate (Z.to_nat n) T_default
  /\ Count (List_sized T_default n) = n
  /\ Capacity (List_sized T_default n) = n
  /\ valid (List_sized T_default n) = true.
Proof.
  intros Hn. destruct (List_sized_spec n Hn) as (b & -> & Hlen & Hload).
  split; [|split; [reflexivity|split; [reflexivity|]]].
  - unfold elements. simpl. apply objects_replicate; [lia | assumption].
  - apply valid_block; try lia. intros j Hj. rewrite Hload by lia. eauto.
Qed.

(** X10.  A list constructed from a range holds the elements of the
    range, in their order, in a block of exactly that many slots. *)
Theorem List_of_range_elements (lst : list T) :
  Z.of_nat (length lst) <= SIZE_MAX ->
  elements (List_of_range lst) = lst
  /\ Count (List_of_range lst) = Z.of_nat (length lst)
  /\ Capacity (List_of_range lst) = Z.of_nat (length lst)
  /\ valid (List_of_range lst) = true.
Proof.
  intros Hn. unfold List_of_range. rewrite distance_length by assumption.
  set (n := Z.of_nat (length lst)) in *.
  destruct (put_loop n n (allocate n) false (fun i => i)
              (fun i => lst !! Z.to_nat i) 0 n 0)
    as (b & -> & Hlen & Hload); [lia | intros; lia | lia | rewrite length_allocate; lia |].
  assert (Hb : forall j, 0 <= j < n -> load b j = lst !! Z.to_nat j).
  { intros j Hj. rewrite Hload.
    destruct (0 + 0 <=? j) eqn:A1, (j <? n + 0) eqn:A2; try lia.
    simpl. f_equal. lia. }
  split; [|split; [reflexivity|split; [reflexivity|]]].
  - unfold elements. simpl. apply objects_of_list. exact Hb.
  - apply valid_block; try lia.
    + rewrite Hlen, length_allocate. lia.
    + intros j Hj. rewrite Hb by lia. apply lookup_lt_is_Some_2. lia.
Qed.

Lemma assign_copy_spec (other this : List T) :
  valid this = true -> valid other = true ->
  elements (assign_copy other this) = elements other
  /\ _Count (assign_copy other this) = _Count other
  /\ _Capacity (assign_copy other this) =
       (if _Capacity this <? _Count other then _Count other else _Capacity this)
  /\ valid (assign_copy other this) = true.
Proof.
  intros Hv Ho.
  pose proof (proj1 (valid_true _) Ho) as (Hoc & Homax & _).
  assert (Hget : forall j, 0 <= j < _Count other -> exists x, get other j = Some x).
  { intros j Hj. destruct (get_elements other j Ho Hj) as (x & Hx & _). eauto. }
  assert (Hfill : forall cap cnt b,
    cap <= SIZE_MAX -> _Count other <= cap -> Z.of_nat (length b) = cap ->
    let r := set_Count (_Count other)
               (for_loop 0 (_Count other) (fun i this => put this i (get other i))
                  (mkList cap cnt (Some b) false)) in
    elements r = elements other /\ _Count r = _Count other /\ _Capacity r = cap
    /\ valid r = true).
  { intros cap cnt b Hcap Hle Hlen.
    destruct (put_loop cap cnt b false (fun i => i) (fun i => get other i)
                0 (_Count other) 0)
      as (b' & -> & Hlen' & Hload); [lia | intros; lia | lia | lia |].
    assert (Hb : forall j, 0 <= j < _Count other -> load b' j = get other j).
    { intros j Hj. rewrite Hload.
      destruct (0 + 0 <=? j) eqn:A1, (j <? _Count other + 0) eqn:A2; try lia.
      simpl. f_equal. lia. }
    cbv zeta. unfold set_Count. simpl.
    split; [|split; [reflexivity|split; [reflexivity|]]].
    - unfold elements at 1. simpl.
      unfold elements, get in *. destruct (_Elems other) as [bo|].
      + apply objects_ext. intros j Hj. apply Hb. assumption.
      + destruct (Z.le_gt_cases (_Count other) 0) as [H0|H0].
        * unfold objects. rewrite seqZ_nil by lia. reflexivity.
        * destruct (Hget 0 ltac:(lia)) as [x Hx]. discriminate.
    - apply valid_block; try lia.
      intros j Hj. rewrite Hb by lia. destruct (Hget j Hj) as [x ->]. eauto. }
  unfold assign_copy.
  destruct (valid_cases this Hv) as [->|(cap & cnt & b & -> & Hlen & Hcons & Hc & Hmax)].
  - change (_Capacity List_new) with 0. change (_Count List_new) with 0.
    unfold destroy_n. rewrite (for_loop_empty 0 0) by lia.
    destruct (0 <? _Count other) eqn:E0.
    + refine (Hfill (_Count other) 0 (allocate (_Count other)) _ _ _);
        [lia | lia | rewrite length_allocate; lia].
    + apply Z.ltb_ge in E0. assert (E1 : _Count other = 0) by lia.
      rewrite E1, for_loop_empty by lia.
      unfold set_Count. simpl.
      split; [|split; [reflexivity|split; [reflexivity|reflexivity]]].
      unfold elements. simpl. rewrite E1. destruct (_Elems other); reflexivity.
  - simpl.
    destruct (destroy_n_inside cap cnt b false 0 cnt)
      as (b' & E' & Hlen' & _); [lia..|].
    rewrite E'. destruct (cap <? _Count other) eqn:E0.
    + refine (Hfill (_Count other) cnt (allocate (_Count other)) _ _ _);
        [lia | lia | rewrite length_allocate; lia].
    + apply Z.ltb_ge in E0. refine (Hfill cap cnt b' _ _ _); lia.
Qed.

(** X11.  After [this = other] (another list) the list holds the elements
    of [other] and its count; it keeps its block when that has room for
    them, and takes one of exactly [other.Count()] slots otherwise. *)
Theorem assign_copy_copies (other this : List T) :
  valid this = true -> valid other = true ->
  elements (assign_copy other this) = elements other
  /\ Count (assign_copy other this) = Count other
  /\ Capacity (assign_copy other this) =
       (if Capacity this <? Count other then Count other else Capacity this)
  /\ valid (assign_copy other this) = true.
Proof. apply assign_copy_spec. Qed.

Lemma put_loop_at_count cap cnt b u (pos : Z -> Z -> Z) (val : Z -> slot T) lo hi d :
  lo <= hi -> (forall i, lo <= i < hi -> pos cnt i = i + d) ->
  0 <= lo + d -> hi + d <= Z.of_nat (length b) ->
  exists b', for_loop lo hi (fun i l => put l (pos (_Count l) i) (val i))
               (mkList cap cnt (Some b) u)
             = mkList cap cnt (Some b') u
    /\ length b' = length b
    /\ forall j, load b' j =
         if (lo + d <=? j) && (j <? hi + d) then val (j - d) else load b j.
Proof.
  intros Hle Hpos Hlo Hhi.
  rewrite (for_loop_ext_on (fun _ l => _Count l = cnt) lo hi _
             (fun i l => put l (pos cnt i) (val i))).
  - apply put_loop; assumption.
  - assumption.
  - reflexivity.
  - intros i s Hi Hs. destruct (put_fields s (pos cnt i) (val i)) as [-> _]. exact Hs.
  - intros i s Hi Hs. rewrite Hs. reflexivity.
Qed.

Lemma AddRange_spec (what : list T) l :
  valid l = true ->
  Z.of_nat (length what) <= _Capacity l - _Count l
  \/ 2 * _Count l + Z.of_nat (length what) <= SIZE_MAX ->
  elements (AddRange what l) = elements l ++ what
  /\ _Count (AddRange what l) = _Count l + Z.of_nat (length what)
  /\ _Capacity (AddRange what l) =
       (if Z.of_nat (length what) >? _Capacity l - _Count l
        then 2 * _Count l + Z.of_nat (length what) else _Capacity l)
  /\ valid (AddRange what l) = true.
Proof.
  intros Hv Hroom.
  pose proof (proj1 (valid_true _) Hv) as (Hc & Hmax & _).
  set (a := Z.of_nat (length what)) in *.
  assert (Ha : distance what = a) by (apply distance_length; fold a; lia).
  assert (Hloop : forall l0 cap b,
    l0 = mkList cap (_Count l) (Some b) false ->
    cap <= SIZE_MAX -> _Count l + a <= cap -> Z.of_nat (length b) = cap ->
    (forall j, 0 <= j < _Count l -> load b j = get l j) ->
    let l1 := for_loop 0 a (fun i l0 => put l0 (wrap (_Count l0 + i)) (what !! Z.to_nat i))
                l0 in
    let r := set_Count (wrap (_Count l1 + a)) l1 in
    elements r = elements l ++ what /\ _Count r = _Count l + a /\ _Capacity r = cap
    /\ valid r = true).
  { intros l0 cap b -> Hcap Hle Hlen Hsame.
    destruct (put_loop_at_count cap (_Count l) b false (fun c i => wrap (c + i))
                (fun i => what !! Z.to_nat i) 0 a (_Count l))
      as (b' & E & Hlen' & Hload);
      [lia | intros i Hi; rewrite wrap_small by lia; lia | lia | lia |].
    cbv zeta. rewrite E. unfold set_Count. simpl. rewrite wrap_small by lia.
    assert (Hcons : constructed (_Count l) b = true).
    { apply constructed_true. intros j Hj. rewrite Hsame by assumption.
      destruct (get_elements l j Hv Hj) as (x & -> & _). eauto. }
    assert (Hel : elements l = objects (_Count l) b).
    { unfold elements, get in *. destruct (_Elems l) as [b0|].
      - apply objects_ext. intros j Hj. symmetry. apply Hsame. assumption.
      - destruct (Z.le_gt_cases (_Count l) 0) as [H0|H0].
        + unfold objects. rewrite seqZ_nil by lia. reflexivity.
        + rewrite constructed_true in Hcons. destruct (Hcons 0 ltac:(lia)) as [x Hx].
          rewrite Hsame in Hx by lia. discriminate. }
    destruct (objects_inserted (_Count l) (_Count l) what b b') as [Hobj Hcons'];
      [lia | assumption | | | |].
    { intros j Hj. rewrite Hload.
      destruct (0 + _Count l <=? j) eqn:A1; try lia. reflexivity. }
    { fold a. intros j Hj. rewrite Hload.
      destruct (0 + _Count l <=? j) eqn:A1, (j <? a + _Count l) eqn:A2; try lia.
      reflexivity. }
    { fold a. intros j Hj. lia. }
    fold a in Hobj, Hcons'.
    split; [|split; [reflexivity|split; [reflexivity|]]].
    - unfold elements at 1. simpl. rewrite Hobj, Hel.
      pose proof (length_objects (_Count l) b ltac:(lia) Hcons) as Hl.
      rewrite take_ge, drop_ge by lia. rewrite app_nil_r. reflexivity.
    - apply valid_block; try lia. apply constructed_true. exact Hcons'. }
  unfold AddRange. rewrite Ha.
  rewrite (wrap_small (_Capacity l - _Count l)) by lia.
  destruct (a >? _Capacity l - _Count l) eqn:E0.
  - rewrite Z.gtb_ltb in E0. apply Z.ltb_lt in E0.
    assert (Hw : wrap (_Count l * 2 + a) = 2 * _Count l + a).
    { replace (_Count l * 2 + a) with (2 * _Count l + a) by lia. apply wrap_small; lia. }
    rewrite Hw.
    destruct (_Reallocate_valid (2 * _Count l + a) l Hv) as (b' & -> & Hlen' & Hsame);
      [lia|].
    refine (Hloop _ (2 * _Count l + a) b' eq_refl _ _ _ _);
      [lia | lia | assumption | assumption].
  - rewrite Z.gtb_ltb in E0. apply Z.ltb_ge in E0.
    destruct (_Elems l) as [b|] eqn:Eb.
    + destruct (proj1 (valid_true _) Hv) as (_ & _ & Hu & Hl).
      rewrite Eb in Hl. destruct Hl as [Hlen Hcons].
      refine (Hloop l (_Capacity l) b _ _ _ _ _); [| lia | lia | assumption |].
      * destruct l; simpl in *; congruence.
      * intros j Hj. unfold get. rewrite Eb. reflexivity.
    + destruct (valid_null l Hv Eb) as [H0 H1].
      assert (a = 0) as Ha0 by lia.
      rewrite Ha0. rewrite for_loop_empty by lia. unfold set_Count. simpl.
      rewrite wrap_small by lia. unfold elements at 1 2. simpl. rewrite Eb.
      destruct what; [|simpl in a; lia].
      split; [reflexivity|]. split; [lia|]. split; [reflexivity|].
      apply valid_true. simpl. apply valid_true in Hv. rewrite Eb in Hv.
      destruct Hv as (A & B & C & D). repeat split; try assumption; lia.
Qed.
End Building.

(** * FindAll, ConvertAll, CopyTo and operator== *)

Section Deriving.
Context {T : Type}.
Variable T_default : T.
Variable T_eq : T -> T -> bool.
Implicit Types (l a : List T) (b : list (slot T)).

Lemma FindAll_is_Adds (match_ : T -> bool) l :
  valid l = true -> FindAll match_ l = Adds (List.filter match_ (elements l)).
Proof.
  intros Hv. pose proof (length_elements l Hv) as Hlen.
  pose proof (proj1 (valid_true _) Hv) as (Hc & _).
  assert (H : FindAll match_ l
              = Adds (List.filter match_ (take (Z.to_nat (_Count l)) (elements l)))).
  { unfold FindAll.
    apply (for_loop_invariant
             (fun i res => res = Adds (List.filter match_ (take (Z.to_nat i) (elements l)))));
      [lia | reflexivity |].
    intros i res Hi ->. destruct (get_elements l i Hv Hi) as (x & -> & Hx).
    replace (Z.to_nat (i + 1)) with (S (Z.to_nat i)) by lia.
    rewrite (take_S_r _ _ _ Hx), List.filter_app. simpl.
    destruct (match_ x).
    - rewrite Adds_snoc. reflexivity.
    - rewrite app_nil_r. reflexivity. }
  rewrite take_ge in H by lia. exact H.
Qed.

Lemma elements_of_get {U} (f : T -> U) l (b' : list (slot U)) :
  valid l = true ->
  (forall j, 0 <= j < _Count l -> load b' j = f <$> get l j) ->
  objects (_Count l) b' = f <$> elements l.
Proof.
  intros Hv H. unfold elements, get in *. destruct (_Elems l) as [b|] eqn:Eb.
  - apply objects_fmap. exact H.
  - destruct (valid_null l Hv Eb) as [-> _]. reflexivity.
Qed.

Lemma ConvertAll_spec {U} (U_default : U) (converter : T -> U) l :
  valid l = true ->
  elements (ConvertAll U_default converter l) = converter <$> elements l
  /\ _Count (ConvertAll U_default converter l) = _Count l
  /\ _Capacity (ConvertAll U_default converter l) = _Count l
  /\ valid (ConvertAll U_default converter l) = true.
Proof.
  intros Hv. pose proof (proj1 (valid_true _) Hv) as (Hc & Hmax & _).
  unfold ConvertAll.
  destruct (List_sized_spec U_default (_Count l)) as (b0 & -> & Hlen0 & _); [lia|].
  destruct (put_loop (_Count l) (_Count l) b0 false (fun i => i)
              (fun i => converter <$> get l i) 0 (_Count l) 0)
    as (b' & -> & Hlen' & Hload); [lia | intros; lia | lia | lia |].
  assert (Hb : forall j, 0 <= j < _Count l -> load b' j = converter <$> get l j).
  { intros j Hj. rewrite Hload.
    destruct (0 + 0 <=? j) eqn:A1, (j <? _Count l + 0) eqn:A2; try lia.
    simpl. do 2 f_equal. lia. }
  split; [|split; [reflexivity|split; [reflexivity|]]].
  - unfold elements at 1. simpl. apply elements_of_get; assumption.
  - apply valid_block; try lia.
    intros j Hj. rewrite Hb by lia.
    destruct (get_elements l j Hv Hj) as (x & -> & _). simpl. eauto.
Qed.

Lemma lookup_load b (k : nat) :
  (k < length b)%nat -> b !! k = Some (load b (Z.of_nat k)).
Proof.
  intros Hk. unfold load.
  assert (E : inside b (Z.of_nat k) = true) by (apply inside_true; lia).
  rewrite E, Nat2Z.id. destruct (lookup_lt_is_Some_2 b k Hk) as [s ->]. reflexivity.
Qed.

Lemma CopyTo_inside (where_ : list (slot T)) l :
  valid l = true -> _Count l <= Z.of_nat (length where_) ->
  CopyTo where_ l
  = ((Some <$> elements l) ++ drop (Z.to_nat (_Count l)) where_, false).
Proof.
  intros Hv Hlen. pose proof (proj1 (valid_true _) Hv) as (Hc & _).
  pose proof (length_elements l Hv) as Hle.
  unfold CopyTo.
  destruct (fill_loop (fun i => i) (fun i => get l i) 0 (_Count l) 0 where_)
    as (w & -> & Hlw & Hload); [lia | intros; lia | lia | lia |].
  f_equal. apply list_eq. intros k.
  destruct (decide (k < length where_)%nat) as [Hk|Hk].
  - rewrite (lookup_load w k) by lia. rewrite Hload.
    destruct (decide (Z.of_nat k < _Count l)) as [Hin|Hout].
    + destruct (0 + 0 <=? Z.of_nat k) eqn:A1, (Z.of_nat k <? _Count l + 0) eqn:A2; try lia.
      simpl. rewrite lookup_app_l by (rewrite length_fmap; lia).
      rewrite list_lookup_fmap.
      destruct (get_elements l (Z.of_nat k) Hv ltac:(lia)) as (x & Hg & Hx).
      rewrite Nat2Z.id in Hx. rewrite Hx. simpl. f_equal.
      rewrite <- Hg. f_equal. lia.
    + destruct (Z.of_nat k <? _Count l + 0) eqn:A2; try lia.
      rewrite andb_false_r.
      rewrite lookup_app_r by (rewrite length_fmap; lia).
      rewrite length_fmap, lookup_drop.
      replace (Z.to_nat (_Count l) + (k - length (elements l)))%nat with k by lia.
      symmetry. apply lookup_load. assumption.
  - rewrite !lookup_ge_None_2; [reflexivity | | lia].
    rewrite length_app, length_fmap, length_drop. lia.
Qed.

Lemma CopyTo_outside (where_ : list (slot T)) l :
  0 <= _Count l -> Z.of_nat (length where_) < _Count l ->
  (CopyTo where_ l).2 = true.
Proof.
  intros Hc Hlen. unfold CopyTo.
  assert (H : length (for_loop 0 (_Count l) (fun i m => fill m i (get l i)) (where_, false)).1
              = length where_
              /\ (Z.of_nat (length where_) < _Count l ->
                  (for_loop 0 (_Count l) (fun i m => fill m i (get l i)) (where_, false)).2
                  = true)); [|apply H; assumption].
  apply (for_loop_invariant
           (fun i (m : filling T) =>
              length m.1 = length where_
              /\ (Z.of_nat (length where_) < i -> m.2 = true))); [lia | |].
  - split; [reflexivity|]. intros; lia.
  - intros i [w over] Hi [Hw Hover]. simpl in *. unfold fill. simpl.
    destruct (inside w i) eqn:E; simpl.
    + split; [rewrite length_store; assumption|].
      apply inside_true in E. intros H. apply Hover. lia.
    + split; [assumption|]. reflexivity.
Qed.

Lemma equal_spec (other this : List T) :
  valid this = true -> valid other = true ->
  equal T_eq other this = true
  <-> Forall2 (fun x y => T_eq x y = true) (elements this) (elements other).
Proof.
  intros Hv Ho. pose proof (length_elements this Hv) as Hlt.
  pose proof (length_elements other Ho) as Hlo.
  unfold equal. destruct (_Count this =? _Count other) eqn:Ec; simpl.
  - apply Z.eqb_eq in Ec. split.
    + destruct (first_index _ _ _) eqn:E; [discriminate|]. intros _.
      pose proof (first_index_None _ _ _ E) as Hnone.
      apply Forall2_same_length_lookup_2; [lia|].
      intros k x y Hx Hy. apply lookup_lt_Some in Hx as Hk.
      specialize (Hnone (Z.of_nat k) ltac:(lia)). cbv beta in Hnone.
      destruct (get_elements this (Z.of_nat k) Hv ltac:(lia)) as (x' & Hgx & Hx').
      destruct (get_elements other (Z.of_nat k) Ho ltac:(lia)) as (y' & Hgy & Hy').
      rewrite Nat2Z.id in Hx', Hy'. rewrite Hgx, Hgy in Hnone. simpl in Hnone.
      apply negb_false_iff in Hnone. congruence.
    + intros HF. rewrite first_index_absent; [reflexivity|].
      intros j Hj.
      destruct (get_elements this j Hv ltac:(lia)) as (x & -> & Hx).
      destruct (get_elements other j Ho ltac:(lia)) as (y & -> & Hy).
      simpl. apply negb_false_iff. exact (Forall2_lookup_lr _ _ _ _ _ _ HF Hx Hy).
  - apply Z.eqb_neq in Ec. split; [discriminate|].
    intros HF. apply Forall2_length in HF. lia.
Qed.

Lemma List_copy_spec a :
  valid a = true ->
  elements (List_copy a) = elements a /\ valid (List_copy a) = true.
Proof.
  intros Hv.
  destruct (valid_cases a Hv) as [->|(cap & cnt & b & -> & Hlen & Hcons & Hc & Hmax)].
  - split; reflexivity.
  - destruct (List_copy_block (mkList cap cnt (Some b) false) b eq_refl)
      as (b' & E & Hlen' & Hsame); [simpl; lia|].
    simpl in *. rewrite E. split.
    + unfold elements. simpl. apply objects_ext. exact Hsame.
    + apply valid_block; try lia. intros j Hj. rewrite Hsame by assumption.
      rewrite constructed_true in Hcons. apply Hcons. assumption.
Qed.

Lemma Forall2_refl_on (xs : list T) :
  (forall x, T_eq x x = true) -> Forall2 (fun x y => T_eq x y = true) xs xs.
Proof. intros H. induction xs; constructor; auto. Qed.
End Deriving.

(** * What a client can rely on *)

Section MemberFacts.
Context {T : Type}.
Variable T_default : T.
Variable T_eq : T -> T -> bool.
Implicit Types (l a : List T) (b : list (slot T)).

(** X12.  [AddRange(what)] appends the elements of the range in their
    order.  When the free slots do not suffice it reallocates to twice
    the count plus the number of added elements; otherwise the capacity
    stays. *)
Theorem AddRange_appends (what : list T) l :
  valid l = true ->
  Z.of_nat (length what) <= Capacity l - Count l
  \/ 2 * Count l + Z.of_nat (length what) <= SIZE_MAX ->
  elements (AddRange what l) = elements l ++ what
  /\ Count (AddRange what l) = Count l + Z.of_nat (length what)
  /\ Capacity (AddRange what l) =
       (if Z.of_nat (length what) >? Capacity l - Count l
        then 2 * Count l + Z.of_nat (length what) else Capacity l)
  /\ valid (AddRange what l) = true.
Proof. apply AddRange_spec. Qed.


(** X14.  [InsertRange(index, what)], the overload that takes the range
    by const reference, inserts the range like the other overload when
    the free slots suffice. *)
Theorem InsertRange_const_with_room (T_of_ptr : pointer -> T) index (what : list T) l :
  valid l = true -> 0 <= index <= Count l ->
  Z.of_nat (length what) <= Capacity l - Count l ->
  2 * Count l + Z.of_nat (length what) <= SIZE_MAX ->
  exists l', InsertRange_const T_default T_of_ptr index what l = Returns tt l'
    /\ elements l' =
         take (Z.to_nat index) (elements l) ++ what ++ drop (Z.to_nat index) (elements l)
    /\ Count l' = Count l + Z.of_nat (length what)
    /\ valid l' = true.
Proof.
  intros Hv Hi Hroom Hsz. destruct (Z.eq_dec index (Count l)) as [->|Hne].
  - unfold InsertRange_const, Count. rewrite Z.eqb_refl.
    destruct (AddRange_spec what l Hv) as (He & Hc & _ & Hv'); [right; exact Hsz|].
    exists (AddRange what l). split; [reflexivity|].
    pose proof (length_elements l Hv) as Hlen.
    rewrite take_ge, drop_ge, app_nil_r by lia. auto.
  - destruct (InsertRange_const_inserts T_default T_of_ptr index what l Hv)
      as (l' & Hr & He & Hc & Hv'); [lia | assumption |].
    exists l'. split; [exact Hr|]. split; [|auto].
    rewrite He. destruct (Z.of_nat (length what) >? Capacity l - Count l) eqn:E;
      [|reflexivity].
    rewrite Z.gtb_ltb in E. apply Z.ltb_lt in E. lia.
Qed.


(** X16.  [RemoveAt(index)] with [index] below the count removes the
    element at [index]: the later elements move down by one, the count
    drops by one and the capacity stays. *)
Theorem RemoveAt_closes_gap index l :
  valid l = true -> 0 <= index < Count l ->
  exists l', RemoveAt T_default index l = Returns tt l'
    /\ elements l' =
         take (Z.to_nat index) (elements l) ++ drop (Z.to_nat (index + 1)) (elements l)
    /\ Count l' = Count l - 1 /\ Capacity l' = Capacity l
    /\ valid l' = true.
Proof. apply RemoveAt_removes. Qed.

(** X17.  [RemoveRange(index, count)] with [index + count] up to the
    count removes the [count] elements from [index] on and keeps the
    capacity. *)
Theorem RemoveRange_closes_gap index count l :
  valid l = true -> 0 <= index -> 0 <= count -> index + count <= Count l ->
  exists l', RemoveRange T_default index count l = Returns tt l'
    /\ elements l' =
         take (Z.to_nat index) (elements l) ++ drop (Z.to_nat (index + count)) (elements l)
    /\ Count l' = Count l - count /\ Capacity l' = Capacity l
    /\ valid l' = true.
Proof. apply RemoveRange_removes. Qed.

(** X18.  [Clear()] empties the list and keeps its storage: the capacity
    is what it was, and an [Add] that follows uses that storage without
    reallocating. *)
Theorem Clear_keeps_storage (what : T) l :
  valid l = true -> 0 < Capacity l ->
  elements (Clear l) = [] /\ Count (Clear l) = 0
  /\ Capacity (Clear l) = Capacity l
  /\ valid (Clear l) = true
  /\ elements (Add what (Clear l)) = [what]
  /\ Capacity (Add what (Clear l)) = Capacity l.
Proof.
  intros Hv Hcap. destruct (Clear_empties l Hv) as (He & Hc & Hk & Hv').
  unfold Count, Capacity in *.
  destruct (Add_appends what (Clear l) Hv') as (_ & He' & _ & Hk'); [left; lia|].
  repeat split; try assumption.
  - rewrite He', He. reflexivity.
  - rewrite Hk'. destruct (_Count (Clear l) =? _Capacity (Clear l)) eqn:E; [|assumption].
    apply Z.eqb_eq in E. lia.
Qed.

(** X19.  [Resize(n)] with [n] from the count up makes the capacity [n]
    and keeps the elements and the count: it changes the storage, never
    the number of elements. *)
Theorem Resize_sets_capacity n l :
  valid l = true -> Count l <= n <= SIZE_MAX ->
  elements (Resize n l) = elements l /\ Count (Resize n l) = Count l
  /\ Capacity (Resize n l) = n /\ valid (Resize n l) = true.
Proof. apply Resize_keeps. Qed.

(** X23.  The bounds checks: [Insert] and [InsertRange] beyond the count,
    [RemoveAt] at the count or beyond and [RemoveRange] that reaches
    beyond the count throw [std::out_of_range], and leave the list as it
    was. *)
Theorem bounds_checks_leave_unchanged (T_of_ptr : pointer -> T)
    index count (what : T) (range : list T) l :
  0 <= Count l < index -> 0 <= count -> index + count <= SIZE_MAX ->
  Insert index what l = Throws (out_of_range "index") l
  /\ InsertRange_const T_default T_of_ptr index range l = Throws (out_of_range "index") l
  /\ InsertRange_move index range l = Throws (out_of_range "index") l
  /\ RemoveAt T_default index l = Throws (out_of_range "where") l
  /\ RemoveAt T_default (Count l) l = Throws (out_of_range "where") l
  /\ RemoveRange T_default index count l = Throws (out_of_range "where") l.
Proof.
  intros Hi Hk Hsum. unfold Count in *.
  assert (E1 : (index =? _Count l) = false) by (apply Z.eqb_neq; lia).
  assert (E2 : (index <? _Count l) = false) by (apply Z.ltb_ge; lia).
  split; [apply Insert_out_of_range; lia|].
  split; [unfold InsertRange_const; rewrite E1, E2; reflexivity|].
  split; [unfold InsertRange_move; rewrite E1, E2; reflexivity|].
  split; [apply RemoveAt_out_of_range; lia|].
  split; [apply RemoveAt_out_of_range; lia|].
  apply RemoveRange_out_of_range. rewrite wrap_small by lia. lia.
Qed.


(** X25.  [FindAll(match)] returns the list one gets by [Add]ing, to an
    empty list and in their order, the elements that satisfy [match]. *)
Theorem FindAll_filters (match_ : T -> bool) l :
  valid l = true -> Count l <= 2 ^ 63 ->
  FindAll match_ l = Adds (List.filter match_ (elements l))
  /\ elements (FindAll match_ l) = List.filter match_ (elements l)
  /\ Count (FindAll match_ l) = Z.of_nat (length (List.filter match_ (elements l)))
  /\ valid (FindAll match_ l) = true.
Proof.
  intros Hv Hc. rewrite (FindAll_is_Adds match_ l Hv). split; [reflexivity|].
  pose proof (length_elements l Hv) as Hlen.
  pose proof (List.filter_length_le match_ (elements l)) as Hle.
  destruct (Adds_appended (List.filter match_ (elements l))) as (Hv' & He & Hc' & _).
  { unfold Count in *. lia. }
  auto.
Qed.

(** X26.  [ConvertAll(converter)] returns a list of the converted
    elements, in their order, with the count of the list as its count and
    its capacity. *)
Theorem ConvertAll_maps {U} (U_default : U) (converter : T -> U) l :
  valid l = true ->
  elements (ConvertAll U_default converter l) = converter <$> elements l
  /\ Count (ConvertAll U_default converter l) = Count l
  /\ Capacity (ConvertAll U_default converter l) = Count l
  /\ valid (ConvertAll U_default converter l) = true.
Proof. apply ConvertAll_spec. Qed.

(** X27.  [CopyTo(where)] overwrites the first [Count()] objects of the
    destination with the elements and leaves the rest of it; it does not
    check the size of the destination, and writes past its end when that
    is less than [Count()]. *)
Theorem CopyTo_copies (where_ : list (slot T)) l :
  valid l = true ->
  if Count l <=? Z.of_nat (length where_)
  then CopyTo where_ l
       = ((Some <$> elements l) ++ drop (Z.to_nat (Count l)) where_, false)
  else (CopyTo where_ l).2 = true.
Proof.
  intros Hv. unfold Count. destruct (_Count l <=? Z.of_nat (length where_)) eqn:E.
  - apply Z.leb_le in E. apply CopyTo_inside; assumption.
  - apply Z.leb_gt in E. apply CopyTo_outside; [|assumption].
    apply valid_true in Hv. lia.
Qed.

(** X28.  [a == b] holds exactly when the two lists have the same count
    and equal elements at each index; the capacities play no part. *)
Theorem equal_iff_elements (other this : List T) :
  valid this = true -> valid other = true ->
  equal T_eq other this = true
  <-> Forall2 (fun x y => T_eq x y = true) (elements this) (elements other).
Proof. apply equal_spec. Qed.

(** X29.  When [operator==] of [T] is reflexive, a list made by the copy
    constructor or by copy assignment compares equal to its source, in
    both directions. *)
Theorem copies_are_equal (a this : List T) :
  (forall x, T_eq x x = true) -> valid a = true -> valid this = true ->
  equal T_eq a (List_copy a) = true
  /\ equal T_eq (List_copy a) a = true
  /\ equal T_eq a (assign_copy a this) = true
  /\ equal T_eq (assign_copy a this) a = true.
Proof.
  intros Hrefl Ha Ht.
  destruct (List_copy_spec a Ha) as [Hce Hcv].
  destruct (assign_copy_spec a this Ht Ha) as (Hae & _ & _ & Hav).
  repeat split; apply equal_spec; try assumption;
    rewrite ?Hce, ?Hae; apply Forall2_refl_on; assumption.
Qed.

(** X30.  After [Add(what)], when [what == what], the list contains
    [what] and [LastIndexOf(what)] is the index it was added at, the
    count before the call. *)
Theorem Add_then_found (what : T) l :
  valid l = true ->
  Count l < Capacity l \/ 2 * Capacity l <= SIZE_MAX ->
  T_eq what what = true ->
  Contains T_eq what (Add what l) = true
  /\ LastIndexOf T_eq what (Add what l) = Count l
  /\ subscript (Count l) (Add what l) = Some what.
Proof.
  intros Hv Hroom Hrefl. unfold Count, Capacity in *.
  destruct (Add_appends what l Hv Hroom) as (Hv' & He & Hc & _).
  pose proof (length_elements l Hv) as Hlen.
  pose proof (proj1 (valid_true _) Hv) as (Hc0 & _).
  pose proof (proj1 (valid_true _) Hv') as (Hc1 & Hmax' & _).
  assert (Hg : get (Add what l) (_Count l) = Some what).
  { rewrite <- (lookup_elements (Add what l) (_Count l) Hv') by lia.
    rewrite He. apply list_lookup_middle. lia. }
  split; [|split; [|exact Hg]].
  - unfold Contains. destruct (first_index _ _ _) eqn:E; [reflexivity|].
    pose proof (first_index_None _ _ _ E (_Count l) ltac:(lia)) as Hn.
    cbv beta in Hn. rewrite Hg in Hn. simpl in Hn. congruence.
  - unfold LastIndexOf.
    assert (Hw : wrap (_Count (Add what l) - 0 - 1) = _Count l).
    { rewrite wrap_small; lia. }
    rewrite (first_index_found 0 (_Count (Add what l)) _ 0).
    + exact Hw.
    + lia.
    + rewrite Hw, Hg. exact Hrefl.
    + intros; lia.
Qed.
End MemberFacts.

(** X20.  [Sort(compare)] returns for every comparison, and leaves a
    rearrangement of the elements: none is lost or duplicated, and the
    count and the capacity stay. *)
Theorem Sort_rearranges {T : Type} (T_lt : T -> T -> bool)
    (compare : T -> T -> partial_ordering) (l : List T) :
  valid l = true -> Count l < 2 ^ 63 ->
  exists l', Sort T_lt compare l = Some l'
    /\ elements l' ≡ₚ elements l
    /\ Count l' = Count l /\ Capacity l' = Capacity l
    /\ valid l' = true.
Proof. apply Sort_permutes. Qed.

(** X21.  When the comparison agrees with [operator<] of [T], and that
    is a strict weak order, [Sort(compare)] leaves the elements in
    nondecreasing order. *)
Theorem Sort_orders {T : Type} (T_lt : T -> T -> bool)
    (compare : T -> T -> partial_ordering) (l : List T) :
  (forall x y, is_less (compare x y) = T_lt x y) ->
  (forall x y, T_lt x y = true -> T_lt y x = false) ->
  (forall x y z, T_lt x y = false -> T_lt y z = false -> T_lt x z = false) ->
  valid l = true -> Count l < 2 ^ 63 ->
  exists l', Sort T_lt compare l = Some l'
    /\ elements l' ≡ₚ elements l
    /\ nondecreasing compare (elements l') = true
    /\ Count l' = Count l /\ Capacity l' = Capacity l
    /\ valid l' = true.
Proof. intros H1 H2 H3. apply Sort_sorts; assumption. Qed.


(** * The same, at lists of integers *)

Lemma IndexOf_first_occurrence_witness :
  valid (Adds [10; 20; 30; 20]) = true
  /\ 0 <= IndexOf Z.eqb 20 (Adds [10; 20; 30; 20]) < Count (Adds [10; 20; 30; 20])
  /\ IndexOf Z.eqb 40 (Adds [10; 20; 30; 20]) = SIZE_MAX.
Proof.
  split; [reflexivity|]. split.
  - destruct (IndexOf_first_occurrence Z.eqb 20 (Adds [10; 20; 30; 20]) eq_refl)
      as [[H _]|(H & _)]; [vm_compute in H; discriminate H | exact H].
  - destruct (IndexOf_first_occurrence Z.eqb 40 (Adds [10; 20; 30; 20]) eq_refl)
      as [[H _]|(H & _)]; [exact H | vm_compute in H; intuition discriminate].
Defined.

Lemma FindIndex_first_match_witness :
  valid (Adds [10; 20; 30; 20]) = true
  /\ 0 <= FindIndex (Z.ltb 15) (Adds [10; 20; 30; 20]) < Count (Adds [10; 20; 30; 20])
  /\ FindIndex (Z.ltb 35) (Adds [10; 20; 30; 20]) = SIZE_MAX.
Proof.
  split; [reflexivity|]. split.
  - destruct (FindIndex_first_match (Z.ltb 15) (Adds [10; 20; 30; 20]) eq_refl)
      as [[H _]|(H & _)]; [vm_compute in H; discriminate H | exact H].
  - destruct (FindIndex_first_match (Z.ltb 35) (Adds [10; 20; 30; 20]) eq_refl)
      as [[H _]|(H & _)]; [exact H | vm_compute in H; intuition discriminate].
Defined.

Lemma LastIndexOf_last_occurrence_witness :
  valid (Adds [10; 20; 30; 20]) = true
  /\ 0 <= LastIndexOf Z.eqb 20 (Adds [10; 20; 30; 20]) < Count (Adds [10; 20; 30; 20])
  /\ LastIndexOf Z.eqb 40 (Adds [10; 20; 30; 20]) = SIZE_MAX.
Proof.
  split; [reflexivity|]. split.
  - destruct (LastIndexOf_last_occurrence Z.eqb 20 (Adds [10; 20; 30; 20]) eq_refl)
      as [[H _]|(H & _)]; [vm_compute in H; discriminate H | exact H].
  - destruct (LastIndexOf_last_occurrence Z.eqb 40 (Adds [10; 20; 30; 20]) eq_refl)
      as [[H _]|(H & _)]; [exact H | vm_compute in H; intuition discriminate].
Defined.

Lemma FindLastIndex_last_match_witness :
  valid (Adds [10; 20; 30; 20]) = true
  /\ 0 <= FindLastIndex (Z.ltb 15) (Adds [10; 20; 30; 20]) < Count (Adds [10; 20; 30; 20])
  /\ FindLastIndex (Z.ltb 35) (Adds [10; 20; 30; 20]) = SIZE_MAX.
Proof.
  split; [reflexivity|]. split.
  - destruct (FindLastIndex_last_match (Z.ltb 15) (Adds [10; 20; 30; 20]) eq_refl)
      as [[H _]|(H & _)]; [vm_compute in H; discriminate H | exact H].
  - destruct (FindLastIndex_last_match (Z.ltb 35) (Adds [10; 20; 30; 20]) eq_refl)
      as [[H _]|(H & _)]; [exact H | vm_compute in H; intuition discriminate].
Defined.

Lemma Contains_is_membership_witness :
  valid (Adds [10; 20; 30; 20]) = true
  /\ Contains Z.eqb 30 (Adds [10; 20; 30; 20])
     = existsb (fun x => x =? 30) (elements (Adds [10; 20; 30; 20]))
  /\ Contains Z.eqb 30 (Adds [10; 20; 30; 20])
     = negb (IndexOf Z.eqb 30 (Adds [10; 20; 30; 20]) =? SIZE_MAX).
Proof.
  split; [reflexivity|].
  exact (Contains_is_membership Z.eqb 30 (Adds [10; 20; 30; 20]) eq_refl).
Defined.

Lemma Exists_is_existence_witness :
  valid (Adds [10; 20; 30; 20]) = true
  /\ Exists (Z.ltb 25) (Adds [10; 20; 30; 20])
     = existsb (Z.ltb 25) (elements (Adds [10; 20; 30; 20]))
  /\ Exists (Z.ltb 25) (Adds [10; 20; 30; 20])
     = negb (FindIndex (Z.ltb 25) (Adds [10; 20; 30; 20]) =? SIZE_MAX).
Proof.
  split; [reflexivity|].
  exact (Exists_is_existence (Z.ltb 25) (Adds [10; 20; 30; 20]) eq_refl).
Defined.

Lemma Find_refers_to_match_witness :
  valid (Adds [10; 20; 30; 20]) = true
  /\ Find (Z.ltb 15) (Adds [10; 20; 30; 20]) = ref_element 1
  /\ FindLast (Z.ltb 15) (Adds [10; 20; 30; 20]) = ref_element 3
  /\ Find (Z.ltb 35) (Adds [10; 20; 30; 20]) = ref_temporary
  /\ FindLast (Z.ltb 35) (Adds [10; 20; 30; 20]) = ref_temporary.
Proof.
  split; [reflexivity|].
  pose proof (Find_refers_to_match (Z.ltb 15) (Adds [10; 20; 30; 20]) eq_refl) as H.
  pose proof (Find_refers_to_match (Z.ltb 35) (Adds [10; 20; 30; 20]) eq_refl) as H'.
  change (Exists (Z.ltb 15) (Adds [10; 20; 30; 20])) with true in H.
  change (Exists (Z.ltb 35) (Adds [10; 20; 30; 20])) with false in H'.
  destruct H as (H1 & H2 & _), H' as (H3 & H4).
  split; [exact H1|]. split; [exact H2|]. split; [exact H3 | exact H4].
Defined.

Lemma IndexOf_le_LastIndexOf_witness :
  valid (Adds [10; 20; 30; 20]) = true
  /\ Contains Z.eqb 20 (Adds [10; 20; 30; 20]) = true
  /\ 0 <= IndexOf Z.eqb 20 (Adds [10; 20; 30; 20])
       <= LastIndexOf Z.eqb 20 (Adds [10; 20; 30; 20])
  /\ LastIndexOf Z.eqb 20 (Adds [10; 20; 30; 20]) < Count (Adds [10; 20; 30; 20]).
Proof.
  split; [reflexivity|]. split; [reflexivity|].
  exact (IndexOf_le_LastIndexOf Z.eqb 20 (Adds [10; 20; 30; 20]) eq_refl eq_refl).
Defined.

Lemma List_sized_default_witness :
  0 <= 3 <= SIZE_MAX
  /\ elements (List_sized 0 3) = [0; 0; 0]
  /\ Count (List_sized 0 3) = 3 /\ Capacity (List_sized 0 3) = 3
  /\ valid (List_sized 0 3) = true.
Proof.
  assert (H : 0 <= 3 <= SIZE_MAX) by (unfold SIZE_MAX; lia).
  split; [exact H|]. exact (List_sized_default 0 3 H).
Defined.

Lemma List_of_range_elements_witness :
  Z.of_nat (length [10; 20; 30]) <= SIZE_MAX
  /\ elements (List_of_range [10; 20; 30]) = [10; 20; 30]
  /\ Count (List_of_range [10; 20; 30]) = 3
  /\ Capacity (List_of_range [10; 20; 30]) = 3
  /\ valid (List_of_range [10; 20; 30]) = true.
Proof.
  assert (H : Z.of_nat (length [10; 20; 30]) <= SIZE_MAX) by (unfold SIZE_MAX; simpl; lia).
  split; [exact H|]. exact (List_of_range_elements [10; 20; 30] H).
Defined.

Lemma assign_copy_copies_witness :
  valid (Adds [1; 2; 3; 4; 5]) = true /\ valid (Adds [7; 8; 9]) = true
  /\ elements (assign_copy (Adds [7; 8; 9]) (Adds [1; 2; 3; 4; 5])) = [7; 8; 9]
  /\ Capacity (assign_copy (Adds [7; 8; 9]) (Adds [1; 2; 3; 4; 5])) = 8
  /\ elements (assign_copy (Adds [1; 2; 3; 4; 5]) (Adds [7; 8; 9])) = [1; 2; 3; 4; 5]
  /\ Capacity (assign_copy (Adds [1; 2; 3; 4; 5]) (Adds [7; 8; 9])) = 5.
Proof.
  split; [reflexivity|]. split; [reflexivity|].
  destruct (assign_copy_copies (Adds [7; 8; 9]) (Adds [1; 2; 3; 4; 5]) eq_refl eq_refl)
    as (H1 & _ & H2 & _).
  destruct (assign_copy_copies (Adds [1; 2; 3; 4; 5]) (Adds [7; 8; 9]) eq_refl eq_refl)
    as (H3 & _ & H4 & _).
  split; [exact H1|]. split; [exact H2|]. split; [exact H3 | exact H4].
Defined.

Lemma AddRange_appends_witness :
  valid (Adds [1; 2; 3]) = true
  /\ 2 * Count (Adds [1; 2; 3]) + Z.of_nat (length [7; 8]) <= SIZE_MAX
  /\ elements (AddRange [7; 8] (Adds [1; 2; 3])) = [1; 2; 3; 7; 8]
  /\ Count (AddRange [7; 8] (Adds [1; 2; 3])) = 5
  /\ Capacity (AddRange [7; 8] (Adds [1; 2; 3])) = 8.
Proof.
  assert (H : 2 * Count (Adds [1; 2; 3]) + Z.of_nat (length [7; 8]) <= SIZE_MAX)
    by (vm_compute; intuition discriminate).
  split; [reflexivity|]. split; [exact H|].
  destruct (AddRange_appends [7; 8] (Adds [1; 2; 3]) eq_refl (or_intror H))
    as (H1 & H2 & H3 & _).
  split; [exact H1|]. split; [exact H2 | exact H3].
Defined.


Lemma InsertRange_const_with_room_witness :
  valid (Adds [true; true; true; true; true]) = true
  /\ exists l', InsertRange_const false bool_of_pointer 1 [false; false]
                  (Adds [true; true; true; true; true]) = Returns tt l'
       /\ elements l' = [true; false; false; true; true; true; true].
Proof.
  split; [reflexivity|].
  destruct (InsertRange_const_with_room false bool_of_pointer 1 [false; false]
              (Adds [true; true; true; true; true]) eq_refl)
    as (l' & Hr & He & _); [vm_compute; intuition discriminate..|].
  exists l'. split; [exact Hr | exact He].
Defined.


Lemma RemoveAt_closes_gap_witness :
  valid (Adds [10; 20; 30; 40]) = true
  /\ exists l', RemoveAt 0 1 (Adds [10; 20; 30; 40]) = Returns tt l'
       /\ elements l' = [10; 30; 40] /\ Count l' = 3 /\ Capacity l' = 4.
Proof.
  split; [reflexivity|].
  destruct (RemoveAt_closes_gap 0 1 (Adds [10; 20; 30; 40]) eq_refl)
    as (l' & Hr & He & Hc & Hk & _); [vm_compute; intuition discriminate|].
  exists l'. split; [exact Hr|]. split; [exact He|]. split; [exact Hc | exact Hk].
Defined.

Lemma RemoveRange_closes_gap_witness :
  valid (Adds [10; 20; 30; 40]) = true
  /\ exists l', RemoveRange 0 1 2 (Adds [10; 20; 30; 40]) = Returns tt l'
       /\ elements l' = [10; 40] /\ Count l' = 2 /\ Capacity l' = 4.
Proof.
  split; [reflexivity|].
  destruct (RemoveRange_closes_gap 0 1 2 (Adds [10; 20; 30; 40]) eq_refl)
    as (l' & Hr & He & Hc & Hk & _); [vm_compute; intuition discriminate..|].
  exists l'. split; [exact Hr|]. split; [exact He|]. split; [exact Hc | exact Hk].
Defined.

Lemma Clear_keeps_storage_witness :
  valid (Adds [1; 2; 3]) = true /\ 0 < Capacity (Adds [1; 2; 3])
  /\ elements (Clear (Adds [1; 2; 3])) = []
  /\ Capacity (Clear (Adds [1; 2; 3])) = 4
  /\ elements (Add 9 (Clear (Adds [1; 2; 3]))) = [9]
  /\ Capacity (Add 9 (Clear (Adds [1; 2; 3]))) = 4.
Proof.
  split; [reflexivity|]. split; [reflexivity|].
  destruct (Clear_keeps_storage 9 (Adds [1; 2; 3]) eq_refl eq_refl)
    as (H1 & _ & H2 & _ & H3 & H4).
  split; [exact H1|]. split; [exact H2|]. split; [exact H3 | exact H4].
Defined.

Lemma Resize_sets_capacity_witness :
  valid (Adds [1; 2; 3]) = true /\ Count (Adds [1; 2; 3]) <= 10 <= SIZE_MAX
  /\ elements (Resize 10 (Adds [1; 2; 3])) = [1; 2; 3]
  /\ Count (Resize 10 (Adds [1; 2; 3])) = 3
  /\ Capacity (Resize 10 (Adds [1; 2; 3])) = 10.
Proof.
  assert (H : Count (Adds [1; 2; 3]) <= 10 <= SIZE_MAX)
    by (vm_compute; intuition discriminate).
  split; [reflexivity|]. split; [exact H|].
  destruct (Resize_sets_capacity 10 (Adds [1; 2; 3]) eq_refl H) as (H1 & H2 & H3 & _).
  split; [exact H1|]. split; [exact H2 | exact H3].
Defined.

Lemma Sort_rearranges_witness :
  valid (Adds [1; 2; 3]) = true /\ Count (Adds [1; 2; 3]) < 2 ^ 63
  /\ exists l', Sort Z.ltb reversed (Adds [1; 2; 3]) = Some l'
       /\ elements l' ≡ₚ [1; 2; 3] /\ Count l' = 3.
Proof.
  split; [reflexivity|]. split; [reflexivity|].
  destruct (Sort_rearranges Z.ltb reversed (Adds [1; 2; 3]) eq_refl eq_refl)
    as (l' & Hr & He & Hc & _).
  exists l'. split; [exact Hr|]. split; [exact He | exact Hc].
Defined.

Lemma Sort_orders_witness :
  valid (Adds [3; 1; 2]) = true /\ Count (Adds [3; 1; 2]) < 2 ^ 63
  /\ exists l', Sort Z.ltb natural (Adds [3; 1; 2]) = Some l'
       /\ elements l' ≡ₚ [3; 1; 2]
       /\ nondecreasing natural (elements l') = true.
Proof.
  split; [reflexivity|]. split; [reflexivity|].
  destruct (Sort_orders Z.ltb natural (Adds [3; 1; 2])) as (l' & Hr & He & Hs & _).
  - intros x y. unfold natural, Z.ltb. destruct (x ?= y); reflexivity.
  - intros x y H. apply Z.ltb_lt in H. apply Z.ltb_ge. lia.
  - intros x y z H1 H2. apply Z.ltb_ge in H1, H2. apply Z.ltb_ge. lia.
  - reflexivity.
  - reflexivity.
  - exists l'. split; [exact Hr|]. split; [exact He | exact Hs].
Defined.


Lemma bounds_checks_leave_unchanged_witness :
  0 <= Count (Adds [1; 2; 3]) < 4 /\ 0 <= 1 /\ 4 + 1 <= SIZE_MAX
  /\ Insert 4 7 (Adds [1; 2; 3]) = Throws (out_of_range "index") (Adds [1; 2; 3])
  /\ RemoveAt 0 3 (Adds [1; 2; 3]) = Throws (out_of_range "where") (Adds [1; 2; 3])
  /\ RemoveRange 0 4 1 (Adds [1; 2; 3]) = Throws (out_of_range "where") (Adds [1; 2; 3]).
Proof.
  assert (H1 : 0 <= Count (Adds [1; 2; 3]) < 4) by (vm_compute; intuition discriminate).
  assert (H2 : 0 <= 1) by lia.
  assert (H3 : 4 + 1 <= SIZE_MAX) by (unfold SIZE_MAX; lia).
  split; [exact H1|]. split; [exact H2|]. split; [exact H3|].
  destruct (bounds_checks_leave_unchanged 0 (fun _ => 0) 4 1 7 [8; 9] (Adds [1; 2; 3])
              H1 H2 H3) as (A & _ & _ & _ & B & C).
  split; [exact A|]. split; [exact B | exact C].
Defined.


Lemma FindAll_filters_witness :
  valid (Adds [10; 25; 30; 5]) = true /\ Count (Adds [10; 25; 30; 5]) <= 2 ^ 63
  /\ elements (FindAll (Z.ltb 8) (Adds [10; 25; 30; 5])) = [10; 25; 30]
  /\ FindAll (Z.ltb 8) (Adds [10; 25; 30; 5]) = Adds [10; 25; 30].
Proof.
  assert (H : Count (Adds [10; 25; 30; 5]) <= 2 ^ 63) by (vm_compute; intuition discriminate).
  split; [reflexivity|]. split; [exact H|].
  destruct (FindAll_filters (Z.ltb 8) (Adds [10; 25; 30; 5]) eq_refl H) as (H1 & H2 & _).
  split; [exact H2 | exact H1].
Defined.

Lemma ConvertAll_maps_witness :
  valid (Adds [1; 2; 3]) = true
  /\ elements (ConvertAll false Z.even (Adds [1; 2; 3])) = [false; true; false]
  /\ Count (ConvertAll false Z.even (Adds [1; 2; 3])) = 3
  /\ Capacity (ConvertAll false Z.even (Adds [1; 2; 3])) = 3.
Proof.
  split; [reflexivity|].
  destruct (ConvertAll_maps false Z.even (Adds [1; 2; 3]) eq_refl) as (H1 & H2 & H3 & _).
  split; [exact H1|]. split; [exact H2 | exact H3].
Defined.

Lemma CopyTo_copies_witness :
  valid (Adds [1; 2; 3]) = true
  /\ CopyTo [Some 0; Some 0; Some 0; Some 7] (Adds [1; 2; 3])
     = ([Some 1; Some 2; Some 3; Some 7], false)
  /\ (CopyTo [Some 0; Some 0] (Adds [1; 2; 3])).2 = true.
Proof.
  split; [reflexivity|]. split.
  - exact (CopyTo_copies [Some 0; Some 0; Some 0; Some 7] (Adds [1; 2; 3]) eq_refl).
  - exact (CopyTo_copies [Some 0; Some 0] (Adds [1; 2; 3]) eq_refl).
Defined.

Lemma equal_iff_elements_witness :
  valid (Adds [1; 2; 3]) = true /\ valid (Resize 10 (Adds [1; 2; 3])) = true
  /\ equal Z.eqb (Resize 10 (Adds [1; 2; 3])) (Adds [1; 2; 3]) = true.
Proof.
  split; [reflexivity|]. split; [reflexivity|].
  apply (equal_iff_elements Z.eqb (Resize 10 (Adds [1; 2; 3])) (Adds [1; 2; 3])
           eq_refl eq_refl).
  assert (E1 : elements (Adds [1; 2; 3]) = [1; 2; 3]) by (vm_compute; reflexivity).
  assert (E2 : elements (Resize 10 (Adds [1; 2; 3])) = [1; 2; 3])
    by (vm_compute; reflexivity).
  rewrite E1, E2. repeat constructor.
Defined.

Lemma copies_are_equal_witness :
  valid (Adds [1; 2; 3]) = true /\ valid (Adds [7; 8; 9; 10; 11]) = true
  /\ equal Z.eqb (Adds [1; 2; 3]) (List_copy (Adds [1; 2; 3])) = true
  /\ equal Z.eqb (Adds [1; 2; 3]) (assign_copy (Adds [1; 2; 3]) (Adds [7; 8; 9; 10; 11]))
     = true.
Proof.
  split; [reflexivity|]. split; [reflexivity|].
  destruct (copies_are_equal Z.eqb (Adds [1; 2; 3]) (Adds [7; 8; 9; 10; 11])
              Z.eqb_refl eq_refl eq_refl) as (H1 & _ & H2 & _).
  split; [exact H1 | exact H2].
Defined.

Lemma Add_then_found_witness :
  valid (Adds [5; 6; 5]) = true
  /\ Contains Z.eqb 5 (Add 5 (Adds [5; 6; 5])) = true
  /\ LastIndexOf Z.eqb 5 (Add 5 (Adds [5; 6; 5])) = 3.
Proof.
  split; [reflexivity|].
  destruct (Add_then_found Z.eqb 5 (Adds [5; 6; 5]) eq_refl) as (H1 & H2 & _);
    [left; vm_compute; reflexivity | reflexivity |].
  split; [exact H1 | exact H2].
Defined.
